(** * Qualcomm mux/divider clock and SCM transport: a shallow embedding

    Two source files are embedded:
    - [drivers/clk/qcom/clk-regmap-mux-div.c], the mux/divider rate engine
      (sections [Driver] and [DriverProperties]);
    - the 32-bit SCM transport (qcom_scm-32), the command buffer allocator,
      the secure-call trap and the call orchestrator (sections [Scm] and [ScmProperties]).

    Machine integers are [Z] with the wrap-around written out.  Calls into
    the kernel (regmap, udelay, pr_err, kzalloc, the smc instruction, cache
    maintenance) are recorded as events of a trace, and what they return is
    given by an abstract device or firmware. *)

From Stdlib Require Import ZArith List Bool Lia.
Import ListNotations.
Local Open Scope Z_scope.

(** ** Machine integers *)

Definition wrap (bits x : Z) : Z := x mod 2 ^ bits.

(** [u32] is the value of an expression stored in a [u32] / [unsigned int]. *)
Definition u32 (x : Z) : Z := wrap 32 x.

(** [s32] reads 32 bits as an [int]. *)
Definition s32 (x : Z) : Z :=
  let y := u32 x in if y <? 2 ^ 31 then y else y - 2 ^ 32.

(** * The mux/divider rate engine *)

(** Register layout, as the [#define]s of the file. *)
Definition CMD_RCGR : Z := 0.
Definition CMD_RCGR_UPDATE : Z := Z.shiftl 1 0.
Definition CMD_RCGR_DIRTY_CFG : Z := Z.shiftl 1 4.
Definition CMD_RCGR_ROOT_OFF : Z := Z.shiftl 1 31.
Definition CFG_RCGR : Z := 4.

(** Messages of the three [pr_err] calls. *)
Inductive pr_msg : Type :=
| MsgDidNotUpdate   (* "RCG did not update its configuration" *)
| MsgPending        (* "RCG configuration is pending" *)
| MsgNoParent (src : Z). (* "Can't find parent %d" *)

(** What the driver asks of the kernel, in program order. *)
Inductive clk_event : Type :=
| EvUpdateBits (reg mask val : Z)
| EvRead (reg : Z)
| EvUdelay (us : Z)
| EvPrErr (m : pr_msg).

(** The register map behind [md->clkr.regmap], with the hardware that
    reacts to it.  [dev_read] gives the return code and what is left in
    [*val]; [dev_update_bits] gives the return code. *)
Class Regmap (D : Type) : Type := {
  dev_read : D -> Z -> Z * Z * D;
  dev_update_bits : D -> Z -> Z -> Z -> Z * D;
  dev_udelay : D -> Z -> D
}.

(** [struct clk_regmap_mux_div]: the fields the operations use. *)
Record clk_regmap_mux_div : Type := {
  reg_offset : Z;
  hid_width : Z;
  hid_shift : Z;
  src_width : Z;
  src_shift : Z;
  div : Z;
  src_sel : Z
}.

(** A parent of the clock: [cfg] is [md->parent_map[i].cfg], [clk_rate]
    what [clk_hw_get_rate] returns and [round_rate] what
    [clk_hw_round_rate] returns for it. *)
Record clk_parent : Type := {
  cfg : Z;
  clk_rate : Z;
  round_rate : Z -> Z
}.

(** [struct clk_rate_request]; [best_parent_hw] is the index of the parent. *)
Record clk_rate_request : Type := {
  rate : Z;
  best_parent_rate : Z;
  best_parent_hw : option nat
}.

(** One turn of a divider search: the parent and divider tried, the rate
    asked of the parent, the rate it rounded to and the resulting rate. *)
Record candidate : Type := {
  c_parent : nat;
  c_div : Z;
  c_asked : Z;
  c_parent_rate : Z;
  c_rate : Z
}.

(** What the file takes from the kernel headers: the width of
    [unsigned long] and the two errno values it returns. *)
Class Kernel : Type := {
  BITS_PER_LONG : Z;
  EBUSY : Z;
  EINVAL : Z
}.

Section Driver.

Context {K : Kernel}.

Definition ulong (x : Z) : Z := wrap BITS_PER_LONG x.

(** Modelled from the spec: the macro [BIT] of linux/bitops.h is not among
    the sources; the spec numbers the bits of the command register from 0
    ("bit 0", "bit 4", "bit 31"), so [BIT(nr)] is [1UL << nr]. *)
Definition BIT (nr : Z) : Z := ulong (Z.shiftl 1 nr).

(** Modelled from the spec: the macro [mult_frac] of linux/kernel.h is not
    among the sources; the spec has [mult_frac(x, numer, denom)] as
    [x * numer / denom] ("requested*div/2", "parent_rate*2/(div_hw+1)").
    Quotient and remainder are multiplied apart, on [unsigned long], which
    gives that value whenever it fits ([mult_frac_exact]). *)
Definition mult_frac (x numer denom : Z) : Z :=
  let quot := x / denom in
  let rem := x mod denom in
  ulong (ulong (quot * numer) + ulong (rem * numer) / denom).

Context {D : Type} {RM : Regmap D}.

(** The device with the trace of what was asked of it so far. *)
Record hw : Type := {
  dev : D;
  trace : list clk_event
}.

Definition emit (e : clk_event) (d : D) (h : hw) : hw :=
  {| dev := d; trace := trace h ++ [e] |}.

Definition regmap_read (h : hw) (reg : Z) : Z * Z * hw :=
  let '(ret, val, d) := dev_read (dev h) reg in
  (ret, u32 val, emit (EvRead reg) d h).

Definition regmap_update_bits (h : hw) (reg mask val : Z) : Z * hw :=
  let '(ret, d) := dev_update_bits (dev h) reg mask val in
  (ret, emit (EvUpdateBits reg mask val) d h).

Definition udelay (h : hw) (us : Z) : hw :=
  emit (EvUdelay us) (dev_udelay (dev h) us) h.

Definition pr_err (h : hw) (m : pr_msg) : hw :=
  emit (EvPrErr m) (dev h) h.

(** The loop of [__mux_div_update_config]: [count] turns are left. *)
Fixpoint update_config_loop (md : clk_regmap_mux_div) (count : nat) (h : hw)
  : Z * hw :=
  match count with
  | O => (- EBUSY, pr_err h MsgDidNotUpdate)
  | S count' =>
      let '(ret, val, h1) := regmap_read h (u32 (CMD_RCGR + reg_offset md)) in
      if negb (ret =? 0) then (ret, h1)
      else if Z.land val CMD_RCGR_UPDATE =? 0 then (0, h1)
      else update_config_loop md count' (udelay h1 1)
  end.

Definition __mux_div_update_config (md : clk_regmap_mux_div) (h : hw)
  : Z * hw :=
  let '(ret, h1) :=
    regmap_update_bits h (u32 (CMD_RCGR + reg_offset md))
                       CMD_RCGR_UPDATE CMD_RCGR_UPDATE in
  if negb (ret =? 0) then (ret, h1)
  else update_config_loop md 500 h1.

Definition src_div_val (md : clk_regmap_mux_div) (src_sel src_div : Z) : Z :=
  u32 (Z.lor (u32 (Z.shiftl src_div (hid_shift md)))
             (u32 (Z.shiftl src_sel (src_shift md)))).

Definition src_div_mask (md : clk_regmap_mux_div) : Z :=
  u32 (Z.lor (ulong (Z.shiftl (ulong (BIT (hid_width md) - 1)) (hid_shift md)))
             (ulong (Z.shiftl (ulong (BIT (src_width md) - 1)) (src_shift md)))).

Definition __mux_div_set_src_div (md : clk_regmap_mux_div) (h : hw)
           (src_sel src_div : Z) : Z * hw :=
  let val := src_div_val md src_sel src_div in
  let mask := src_div_mask md in
  let '(ret, h1) :=
    regmap_update_bits h (u32 (CFG_RCGR + reg_offset md)) mask val in
  if negb (ret =? 0) then (ret, h1)
  else __mux_div_update_config md h1.

(** [__mux_div_get_src_div] writes through [src_sel] and [src_div] only
    when the configuration is not pending: [out] is what the two pointed-to
    variables hold at the call, the result what they hold after it. *)
Definition __mux_div_get_src_div (md : clk_regmap_mux_div) (h : hw)
           (out : Z * Z) : Z * Z * hw :=
  let '(_, val, h1) := regmap_read h (u32 (CMD_RCGR + reg_offset md)) in
  if negb (Z.land val CMD_RCGR_DIRTY_CFG =? 0) then
    (out, pr_err h1 MsgPending)
  else
    let '(_, val, h2) := regmap_read h1 (u32 (CFG_RCGR + reg_offset md)) in
    let src := u32 (Z.shiftr val (src_shift md)) in
    let src := u32 (Z.land src (ulong (BIT (src_width md) - 1))) in
    let div := u32 (Z.shiftr val (hid_shift md)) in
    let div := u32 (Z.land div (ulong (BIT (hid_width md) - 1))) in
    ((src, div), h2).

Definition mux_div_enable (md : clk_regmap_mux_div) (h : hw) : Z * hw :=
  __mux_div_set_src_div md h (src_sel md) (div md).

Definition is_better_rate (req best new : Z) : bool :=
  ((req <=? new) && (new <? best)) || ((best <? req) && (best <? new)).

Definition clk_hw_round_rate (p : clk_parent) (r : Z) : Z :=
  ulong (round_rate p r).

(** [max_div = BIT(md->hid_width) - 1], stored in an [unsigned int]. *)
Definition max_div (md : clk_regmap_mux_div) : Z :=
  u32 (ulong (BIT (hid_width md) - 1)).

(** The values [div] takes in [for (div = 1; div < max_div; div++)] when
    no [break] is taken. *)
Definition div_range (md : clk_regmap_mux_div) : list Z :=
  map Z.of_nat (seq 1 (Z.to_nat (max_div md - 1))).

(** State of the search of [mux_div_determine_rate]; [dr_tried] is the
    record of the turns taken, kept for the statements only. *)
Record determine_state : Type := {
  dr_best_rate : Z;
  dr_req : clk_rate_request;
  dr_tried : list candidate
}.

(** The inner loop of [mux_div_determine_rate] over the dividers left. *)
Fixpoint determine_divs (req_rate : Z) (i : nat) (parent : clk_parent)
         (divs : list Z) (s : determine_state) : determine_state :=
  match divs with
  | [] => s
  | div :: rest =>
      let asked := mult_frac req_rate div 2 in
      let parent_rate := clk_hw_round_rate parent asked in
      let actual_rate := mult_frac parent_rate 2 div in
      let tried := dr_tried s ++
        [{| c_parent := i; c_div := div; c_asked := asked;
            c_parent_rate := parent_rate; c_rate := actual_rate |}] in
      let s1 :=
        if is_better_rate req_rate (dr_best_rate s) actual_rate then
          {| dr_best_rate := actual_rate;
             dr_req := {| rate := actual_rate;
                          best_parent_rate := parent_rate;
                          best_parent_hw := Some i |};
             dr_tried := tried |}
        else
          {| dr_best_rate := dr_best_rate s;
             dr_req := dr_req s;
             dr_tried := tried |} in
      if (actual_rate <? req_rate) || (dr_best_rate s1 <=? req_rate) then s1
      else determine_divs req_rate i parent rest s1
  end.

(** The outer loop over the parents from index [i] on. *)
Fixpoint determine_parents (md : clk_regmap_mux_div) (req_rate : Z) (i : nat)
         (parents : list clk_parent) (s : determine_state) : determine_state :=
  match parents with
  | [] => s
  | parent :: rest =>
      determine_parents md req_rate (S i) rest
        (determine_divs req_rate i parent (div_range md) s)
  end.

Definition determine_search (md : clk_regmap_mux_div)
           (parents : list clk_parent) (req : clk_rate_request)
  : determine_state :=
  determine_parents md (rate req) 0 parents
    {| dr_best_rate := 0; dr_req := req; dr_tried := [] |}.

Definition mux_div_determine_rate (md : clk_regmap_mux_div)
           (parents : list clk_parent) (req : clk_rate_request)
  : Z * clk_rate_request :=
  let s := determine_search md parents req in
  if dr_best_rate s =? 0 then (- EINVAL, dr_req s) else (0, dr_req s).

(** State of the search of [__mux_div_set_rate_and_parent]. *)
Record set_rate_state : Type := {
  sr_best_rate : Z;
  sr_best_src : Z;
  sr_best_div : Z;
  sr_tried : list candidate
}.

Fixpoint set_rate_divs (rate : Z) (i : nat) (parent : clk_parent)
         (divs : list Z) (s : set_rate_state) : set_rate_state :=
  match divs with
  | [] => s
  | div :: rest =>
      let asked := mult_frac rate div 2 in
      let parent_rate := clk_hw_round_rate parent asked in
      let actual_rate := mult_frac parent_rate 2 div in
      let tried := sr_tried s ++
        [{| c_parent := i; c_div := div; c_asked := asked;
            c_parent_rate := parent_rate; c_rate := actual_rate |}] in
      let s1 :=
        if is_better_rate rate (sr_best_rate s) actual_rate then
          {| sr_best_rate := actual_rate;
             sr_best_src := cfg parent;
             sr_best_div := u32 (div - 1);
             sr_tried := tried |}
        else
          {| sr_best_rate := sr_best_rate s;
             sr_best_src := sr_best_src s;
             sr_best_div := sr_best_div s;
             sr_tried := tried |} in
      if (actual_rate <? rate) || (sr_best_rate s1 <=? rate) then s1
      else set_rate_divs rate i parent rest s1
  end.

Fixpoint set_rate_parents (md : clk_regmap_mux_div) (rate : Z) (i : nat)
         (parents : list clk_parent) (s : set_rate_state) : set_rate_state :=
  match parents with
  | [] => s
  | parent :: rest =>
      set_rate_parents md rate (S i) rest
        (set_rate_divs rate i parent (div_range md) s)
  end.

Definition set_rate_search (md : clk_regmap_mux_div)
           (parents : list clk_parent) (rate : Z) : set_rate_state :=
  set_rate_parents md rate 0 parents
    {| sr_best_rate := 0; sr_best_src := 0; sr_best_div := 0;
       sr_tried := [] |}.

Definition set_div_src (md : clk_regmap_mux_div) (d s : Z)
  : clk_regmap_mux_div :=
  {| reg_offset := reg_offset md; hid_width := hid_width md;
     hid_shift := hid_shift md; src_width := src_width md;
     src_shift := src_shift md; div := d; src_sel := s |}.

(** [prate] and [src_sel] are not read by the function. *)
Definition __mux_div_set_rate_and_parent (md : clk_regmap_mux_div)
           (parents : list clk_parent) (h : hw) (rate prate src_sel : Z)
  : Z * clk_regmap_mux_div * hw :=
  let s := set_rate_search md parents rate in
  let '(ret, h1) :=
    __mux_div_set_src_div md h (sr_best_src s) (sr_best_div s) in
  if ret =? 0 then (ret, set_div_src md (sr_best_div s) (sr_best_src s), h1)
  else (ret, md, h1).

Definition mux_div_set_rate (md : clk_regmap_mux_div)
           (parents : list clk_parent) (h : hw) (rate prate : Z)
  : Z * clk_regmap_mux_div * hw :=
  __mux_div_set_rate_and_parent md parents h rate prate (src_sel md).

(** [mult_frac(parent_rate, 2, div + 1)] of [mux_div_recalc_rate]:
    [div + 1] is computed in a [u32], and when it wraps to 0 the macro
    divides by 0, which is undefined: [None]. *)
Definition recalc_rate_of (parent_rate div : Z) : option Z :=
  let denom := u32 (div + 1) in
  if denom =? 0 then None else Some (mult_frac parent_rate 2 denom).

(** The loop of [mux_div_recalc_rate] over the parents: [None] when no
    parent has the source, and otherwise what the first that has it gives. *)
Fixpoint recalc_find (parents : list clk_parent) (src div : Z)
  : option (option Z) :=
  match parents with
  | [] => None
  | p :: rest =>
      if src =? cfg p then Some (recalc_rate_of (clk_rate p) div)
      else recalc_find rest src div
  end.

(** [mux_div_recalc_rate]: [locals] is what the automatic variables [src]
    and [div], declared without an initialiser, hold at entry.  The rate
    returned is [None] when the division by [div + 1] is undefined. *)
Definition mux_div_recalc_rate (md : clk_regmap_mux_div)
           (parents : list clk_parent) (h : hw) (locals : Z * Z)
  : option Z * hw :=
  let '(src, div, h1) := __mux_div_get_src_div md h locals in
  match recalc_find parents src div with
  | Some r => (r, h1)
  | None => (Some 0, pr_err h1 (MsgNoParent src))
  end.

End Driver.

(** * The SCM transport (32-bit) *)

Definition QCOM_SCM_ENOMEM : Z := -5.
Definition QCOM_SCM_EOPNOTSUPP : Z := -4.
Definition QCOM_SCM_EINVAL_ADDR : Z := -3.
Definition QCOM_SCM_EINVAL_ARG : Z := -2.
Definition QCOM_SCM_ERROR : Z := -1.
Definition QCOM_SCM_INTERRUPTED : Z := 1.

(** ** Blocks of bytes and little-endian words *)

(** Modelled from the spec: [cpu_to_le32] is not among the sources; the
    spec has the fields as "little-endian 32-bit fields", so the four bytes
    of a 32-bit value are stored lowest first. *)
Definition le32_bytes (v : Z) : list Z :=
  [v mod 256; (v / 256) mod 256; (v / 65536) mod 256; (v / 16777216) mod 256].

(** Modelled from the spec: [le32_to_cpu], the inverse on four bytes. *)
Definition le32_value (bs : list Z) : Z :=
  match bs with
  | [b0; b1; b2; b3] => b0 + 256 * b1 + 65536 * b2 + 16777216 * b3
  | _ => 0
  end.

Definition zlength {A : Type} (l : list A) : Z := Z.of_nat (length l).

(** Reading [n] bytes at offset [off] of a block; [None] outside of it. *)
Definition load_bytes (m : list Z) (off n : Z) : option (list Z) :=
  if (0 <=? off) && (0 <=? n) && (off + n <=? zlength m)
  then Some (firstn (Z.to_nat n) (skipn (Z.to_nat off) m))
  else None.

(** Writing bytes at offset [off] of a block; [None] outside of it. *)
Definition store_bytes (m : list Z) (off : Z) (bs : list Z)
  : option (list Z) :=
  if (0 <=? off) && (off + zlength bs <=? zlength m)
  then Some (firstn (Z.to_nat off) m ++ bs ++
             skipn (Z.to_nat (off + zlength bs)) m)
  else None.

Definition load_le32 (m : list Z) (off : Z) : option Z :=
  option_map le32_value (load_bytes m off 4).

(** Offsets of the fields of [struct qcom_scm_command] and of
    [struct qcom_scm_response], and the sizes of the two headers. *)
Definition CMD_LEN : Z := 0.
Definition CMD_BUF_OFFSET : Z := 4.
Definition CMD_RESP_HDR_OFFSET : Z := 8.
Definition CMD_ID : Z := 12.
Definition CMD_BUF : Z := 16.  (* offsetof(struct qcom_scm_command, buf) *)
Definition sizeof_qcom_scm_command : Z := 16.
Definition RSP_LEN : Z := 0.
Definition RSP_BUF_OFFSET : Z := 4.
Definition RSP_IS_COMPLETE : Z := 8.
Definition sizeof_qcom_scm_response : Z := 12.

(** What the transport asks of the kernel and of the secure world. *)
Inductive scm_event : Type :=
| ScKzalloc (size : Z)
| ScKfree (addr : Z)
| ScMutexLock
| ScMutexUnlock
| ScFlush (block : list Z) (len : Z)  (* the block as written back *)
| ScSmc (r0 r2 : Z)
| ScInvRange (start stop : Z)
| ScCopyOut (bytes : list Z).          (* memcpy into resp_buf *)

(** What the file takes from outside: the page size, [ENOMEM], the
    translation table [qcom_scm_remap_error] of qcom_scm.h, the allocator
    ([NULL] or the address of the block), the address translation, and the
    secure world [FW]: [fw_smc] is one execution of the [smc] instruction
    on the shared block, with [r0] and [r2] as given, and returns [r0];
    [fw_visible] is what the secure world has written to the block by the
    time a cache invalidation makes it visible. *)
Class ScmEnv (FW : Type) : Type := {
  PAGE_SHIFT : Z;
  ENOMEM : Z;
  qcom_scm_remap_error : Z -> Z;
  kzalloc : Z -> option Z;
  virt_to_phys : Z -> Z;
  fw_smc : FW -> list Z -> Z -> Z -> Z * list Z * FW;
  fw_visible : FW -> list Z -> list Z * FW
}.

(** How a run ends: with a value, with an access outside the block
    ([Oops]), or still in a loop when the fuel is spent ([Spin]). *)
Inductive result (A : Type) : Type :=
| Done (a : A)
| Oops
| Spin.
Arguments Done {A} a.
Arguments Oops {A}.
Arguments Spin {A}.

Section Scm.

Context {FW : Type} {E : ScmEnv FW}.

(** The secure world, the command block shared with it, and the trace. *)
Record world : Type := {
  sw_fw : FW;
  sw_block : list Z;
  sw_log : list scm_event
}.

Definition M (A : Type) : Type := world -> result A * world.

Definition ret {A : Type} (a : A) : M A := fun w => (Done a, w).

Definition bind {A B : Type} (m : M A) (k : A -> M B) : M B :=
  fun w =>
    match m w with
    | (Done a, w1) => k a w1
    | (Oops, w1) => (Oops, w1)
    | (Spin, w1) => (Spin, w1)
    end.

Notation "x <- m ;; k" := (bind m (fun x => k))
  (at level 61, m at next level, right associativity).
Notation "m ;; k" := (bind m (fun _ => k))
  (at level 61, right associativity).

Definition log (e : scm_event) : M unit :=
  fun w => (Done tt, {| sw_fw := sw_fw w; sw_block := sw_block w;
                        sw_log := sw_log w ++ [e] |}).

Definition oops {A : Type} : M A := fun w => (Oops, w).
Definition spin {A : Type} : M A := fun w => (Spin, w).

(** [*(__le32 * )(cmd + off) = cpu_to_le32(v)] *)
Definition store_le32 (off v : Z) : M unit :=
  fun w =>
    match store_bytes (sw_block w) off (le32_bytes v) with
    | Some m => (Done tt, {| sw_fw := sw_fw w; sw_block := m;
                             sw_log := sw_log w |})
    | None => (Oops, w)
    end.

(** [le32_to_cpu( *(__le32 * )(cmd + off))] *)
Definition fetch_le32 (off : Z) : M Z :=
  fun w =>
    match load_le32 (sw_block w) off with
    | Some v => (Done v, w)
    | None => (Oops, w)
    end.

(** [memcpy(cmd + off, src, n)] *)
Definition memcpy_to_block (off : Z) (src : list Z) (n : Z) : M unit :=
  fun w =>
    match load_bytes src 0 n with
    | Some bs =>
        match store_bytes (sw_block w) off bs with
        | Some m => (Done tt, {| sw_fw := sw_fw w; sw_block := m;
                                 sw_log := sw_log w |})
        | None => (Oops, w)
        end
    | None => (Oops, w)
    end.

(** [memcpy(dst, cmd + off, n)]: the destination after the copy. *)
Definition memcpy_from_block (dst : list Z) (off n : Z) : M (list Z) :=
  fun w =>
    match load_bytes (sw_block w) off n with
    | Some bs =>
        match store_bytes dst 0 bs with
        | Some dst' =>
            (Done dst', {| sw_fw := sw_fw w; sw_block := sw_block w;
                           sw_log := sw_log w ++ [ScCopyOut bs] |})
        | None => (Oops, w)
        end
    | None => (Oops, w)
    end.

Definition PAGE_SIZE : Z := u32 (Z.shiftl 1 PAGE_SHIFT).

(** Modelled from the spec: the macro [PAGE_ALIGN] of linux/mm.h is not
    among the sources; the spec has the size "rounded up to the platform
    page size".  It is the mask of the kernel, on a 32-bit [size_t], which
    rounds up as long as the sum fits ([PAGE_ALIGN_spec]). *)
Definition PAGE_ALIGN (len : Z) : Z :=
  u32 (Z.land (u32 (len + u32 (PAGE_SIZE - 1)))
              (u32 (Z.lnot (u32 (PAGE_SIZE - 1))))).

(** [kzalloc(size, GFP_KERNEL)]: a fresh block of zeros, or [NULL]. *)
Definition do_kzalloc (size : Z) : M (option Z) :=
  fun w =>
    match kzalloc size with
    | Some a =>
        (Done (Some a),
         {| sw_fw := sw_fw w; sw_block := repeat 0 (Z.to_nat size);
            sw_log := sw_log w ++ [ScKzalloc size] |})
    | None =>
        (Done None, {| sw_fw := sw_fw w; sw_block := sw_block w;
                       sw_log := sw_log w ++ [ScKzalloc size] |})
    end.

Definition alloc_qcom_scm_command (cmd_size resp_size : Z) : M (option Z) :=
  let len :=
    u32 (u32 (u32 (sizeof_qcom_scm_command + sizeof_qcom_scm_response)
              + cmd_size) + resp_size) in
  cmd <- do_kzalloc (PAGE_ALIGN len) ;;
  match cmd with
  | Some a =>
      store_le32 CMD_LEN len ;;
      let offset := CMD_BUF in
      store_le32 CMD_BUF_OFFSET offset ;;
      store_le32 CMD_RESP_HDR_OFFSET (u32 (offset + cmd_size)) ;;
      ret (Some a)
  | None => ret None
  end.

Definition free_qcom_scm_command (cmd : Z) : M unit := log (ScKfree cmd).

(** One execution of the [smc] instruction. *)
Definition trap (r0 r2 : Z) : M Z :=
  fun w =>
    let '(r, m, f) := fw_smc (sw_fw w) (sw_block w) r0 r2 in
    (Done (u32 r), {| sw_fw := f; sw_block := m;
                      sw_log := sw_log w ++ [ScSmc r0 r2] |}).

(** The [do ... while (r0 == QCOM_SCM_INTERRUPTED)] of [smc]. *)
Fixpoint smc_loop (fuel : nat) (r0 r2 : Z) : M Z :=
  match fuel with
  | O => spin
  | S fuel' =>
      r <- trap r0 r2 ;;
      if r =? QCOM_SCM_INTERRUPTED then smc_loop fuel' r r2 else ret r
  end.

Definition smc (fuel : nat) (cmd_addr : Z) : M Z := smc_loop fuel 1 cmd_addr.

Definition secure_flush_area (len : Z) : M unit :=
  fun w => log (ScFlush (sw_block w) len) w.

(** [cmd->len] is read as it lies in memory, on a little-endian host. *)
Definition __qcom_scm_call (fuel : nat) (cmd : Z) : M Z :=
  let cmd_addr := u32 (virt_to_phys cmd) in
  len <- fetch_le32 CMD_LEN ;;
  secure_flush_area len ;;
  r0 <- smc fuel cmd_addr ;;
  let ret_ := s32 r0 in
  if ret_ <? 0 then ret (qcom_scm_remap_error ret_) else ret ret_.

(** [qcom_scm_inv_range]: the lines are dropped from the cache, so that the
    next read sees what the secure world has written. *)
Definition qcom_scm_inv_range (start stop : Z) : M unit :=
  fun w =>
    let '(m, f) := fw_visible (sw_fw w) (sw_block w) in
    (Done tt, {| sw_fw := f; sw_block := m;
                 sw_log := sw_log w ++ [ScInvRange start stop] |}).

(** The [do ... while (!rsp->is_complete)] of [qcom_scm_call]; [rsp] is
    the offset of the response header in the block. *)
Fixpoint wait_complete (fuel : nat) (start rsp : Z) : M unit :=
  match fuel with
  | O => spin
  | S fuel' =>
      qcom_scm_inv_range start (u32 (start + sizeof_qcom_scm_response)) ;;
      c <- fetch_le32 (rsp + RSP_IS_COMPLETE) ;;
      if c =? 0 then wait_complete fuel' start rsp else ret tt
  end.

(** The two statements of [qcom_scm_call] between the allocation and the
    lock: the identifier and the copy of the command. *)
Definition qcom_scm_call_fill (svc_id cmd_id : Z) (cmd_buf : option (list Z))
           (cmd_len : Z) : M unit :=
  store_le32 CMD_ID (u32 (Z.lor (u32 (Z.shiftl svc_id 10)) cmd_id)) ;;
  match cmd_buf with
  | Some src => memcpy_to_block CMD_BUF src cmd_len
  | None => ret tt
  end.

(** [qcom_scm_call]: the return value and what [resp_buf] holds. *)
Definition qcom_scm_call (fuel : nat) (svc_id cmd_id : Z)
           (cmd_buf : option (list Z)) (cmd_len : Z)
           (resp_buf : option (list Z)) (resp_len : Z)
  : M (Z * option (list Z)) :=
  cmd <- alloc_qcom_scm_command cmd_len resp_len ;;
  match cmd with
  | None => ret (- ENOMEM, resp_buf)
  | Some cmd =>
      qcom_scm_call_fill svc_id cmd_id cmd_buf cmd_len ;;
      log ScMutexLock ;;
      r <- __qcom_scm_call fuel cmd ;;
      log ScMutexUnlock ;;
      if negb (r =? 0) then
        free_qcom_scm_command cmd ;;
        ret (r, resp_buf)
      else
        rsp <- fetch_le32 CMD_RESP_HDR_OFFSET ;;
        let start := u32 (cmd + rsp) in
        wait_complete fuel start rsp ;;
        buf_offset <- fetch_le32 (rsp + RSP_BUF_OFFSET) ;;
        let stop := u32 (u32 (start + buf_offset) + resp_len) in
        qcom_scm_inv_range start stop ;;
        out <- match resp_buf with
               | Some dst =>
                   buf_offset <- fetch_le32 (rsp + RSP_BUF_OFFSET) ;;
                   d <- memcpy_from_block dst (rsp + buf_offset) resp_len ;;
                   ret (Some d)
               | None => ret None
               end ;;
        free_qcom_scm_command cmd ;;
        ret (r, out)
  end.

End Scm.

(** * Reference notions and concrete platforms *)

(** The choice [is_better_rate] makes over a list of rates met in order,
    from the best so far. *)
Definition pick_rate (req best : Z) (rates : list Z) : Z :=
  fold_left (fun b new => if is_better_rate req b new then new else b)
            rates best.

(** What [pick_rate] returns from an empty start: the least rate that is
    at least [req] if there is one, the greatest rate otherwise. *)
Definition picked (req : Z) (rates : list Z) (b : Z) : Prop :=
  (req <= b /\ In b rates /\ forall r, In r rates -> req <= r -> b <= r) \/
  (b < req /\ (b = 0 \/ In b rates) /\ 0 <= b /\
   forall r, In r rates -> r <= b).

(** A turn of the search of parent [i] with a divider of [divs]: the rate
    asked, the rate the parent rounds to and the rate that results. *)
Definition turn_of {K : Kernel} (req : Z) (i : nat) (p : clk_parent)
           (divs : list Z) (c : candidate) : Prop :=
  In (c_div c) divs /\ c_parent c = i /\
  c_asked c = mult_frac req (c_div c) 2 /\
  c_parent_rate c = clk_hw_round_rate p (c_asked c) /\
  c_rate c = mult_frac (c_parent_rate c) 2 (c_div c).

(** A turn of the search over [parents], indexed from [i]. *)
Definition turn_in {K : Kernel} (md : clk_regmap_mux_div) (req : Z) (i : nat)
           (parents : list clk_parent) (c : candidate) : Prop :=
  exists j p, nth_error parents j = Some p /\
              turn_of req (i + j) p (div_range md) c.

(** The best rate after the turns [l], from no rate at all. *)
Definition best_after (req : Z) (l : list candidate) : Z :=
  pick_rate req 0 (map c_rate l).

(** The [break] of the divider loop after the turn [c], [best] being the
    best rate after that turn: the rate of the turn is below the request,
    or the best rate is at most the request. *)
Definition breaks (req best : Z) (c : candidate) : Prop :=
  c_rate c < req \/ best <= req.

(** The turn after [c] is that of parent [i] and divider [d]: the next
    divider of the same parent when the loop does not break and has a
    divider left, the first divider of the next parent otherwise. *)
Definition next_turn {K : Kernel} (md : clk_regmap_mux_div) (req best : Z)
           (c : candidate) (i : nat) (d : Z) : Prop :=
  (~ breaks req best c /\ c_div c + 1 < max_div md /\
   i = c_parent c /\ d = c_div c + 1) \/
  ((breaks req best c \/ max_div md <= c_div c + 1) /\
   i = S (c_parent c) /\ d = 1).

(** The turns [l] follow one another as the two loops have it. *)
Definition turns_chained {K : Kernel} (md : clk_regmap_mux_div) (req : Z)
           (l : list candidate) : Prop :=
  forall pre c c' post,
    l = pre ++ c :: c' :: post ->
    next_turn md req (best_after req (pre ++ [c])) c (c_parent c') (c_div c').

(** A rate the search space holds: some parent and some divider of the
    range of the loop give it. *)
Definition achievable {K : Kernel} (md : clk_regmap_mux_div)
           (parents : list clk_parent) (req r : Z) : Prop :=
  exists i p d,
    nth_error parents i = Some p /\ In d (div_range md) /\
    r = mult_frac (clk_hw_round_rate p (mult_frac req d 2)) 2 d.

(** The events of [k] turns of the poll of [__mux_div_update_config] that
    find the update bit set: a read of the command register, then a delay
    of one microsecond. *)
Fixpoint poll_events (md : clk_regmap_mux_div) (k : nat) : list clk_event :=
  match k with
  | O => []
  | S k' => EvRead (u32 (CMD_RCGR + reg_offset md)) :: EvUdelay 1 ::
            poll_events md k'
  end.

Definition is_read (e : clk_event) : bool :=
  match e with EvRead _ => true | _ => false end.

Definition is_update_bits (e : clk_event) : bool :=
  match e with EvUpdateBits _ _ _ => true | _ => false end.

Definition count_events (f : clk_event -> bool) (evs : list clk_event) : nat :=
  length (filter f evs).

(** The pending bit stays set, and the reads succeed, for [n] turns of the
    poll of [__mux_div_update_config] from device state [d]. *)
Fixpoint update_stays_pending {D : Type} {RM : Regmap D}
         (md : clk_regmap_mux_div) (n : nat) (d : D) : bool :=
  match n with
  | O => true
  | S n' =>
      let '(ret, val, d1) := dev_read d (u32 (CMD_RCGR + reg_offset md)) in
      (ret =? 0) && negb (Z.land (u32 val) CMD_RCGR_UPDATE =? 0) &&
      update_stays_pending md n' (dev_udelay d1 1)
  end.

Definition arm32 : Kernel := {| BITS_PER_LONG := 32; EBUSY := 16; EINVAL := 22 |}.
Definition arm64 : Kernel := {| BITS_PER_LONG := 64; EBUSY := 16; EINVAL := 22 |}.

(** A register file with a root clock generator behind it: the update bit,
    once set, is cleared by the hardware after [rcg_latency] reads of the
    command register, or never when there is no latency. *)
Record rcg : Type := {
  rcg_regs : list (Z * Z);
  rcg_latency : option nat
}.

Fixpoint reg_get (regs : list (Z * Z)) (reg : Z) : Z :=
  match regs with
  | [] => 0
  | (r, v) :: rest => if r =? reg then v else reg_get rest reg
  end.

Definition reg_set (regs : list (Z * Z)) (reg v : Z) : list (Z * Z) :=
  (reg, v) :: regs.

Definition rcg_read (d : rcg) (reg : Z) : Z * Z * rcg :=
  let v := reg_get (rcg_regs d) reg in
  if (reg =? CMD_RCGR) && negb (Z.land v CMD_RCGR_UPDATE =? 0) then
    match rcg_latency d with
    | Some O =>
        let v' := Z.land v (Z.lnot CMD_RCGR_UPDATE) in
        (0, v', {| rcg_regs := reg_set (rcg_regs d) reg v';
                   rcg_latency := Some O |})
    | Some (S n) => (0, v, {| rcg_regs := rcg_regs d; rcg_latency := Some n |})
    | None => (0, v, d)
    end
  else (0, v, d).

Definition rcg_update_bits (d : rcg) (reg mask val : Z) : Z * rcg :=
  let v := reg_get (rcg_regs d) reg in
  let v' := Z.lor (Z.land v (Z.lnot mask)) (Z.land val mask) in
  (0, {| rcg_regs := reg_set (rcg_regs d) reg v';
         rcg_latency := rcg_latency d |}).

#[export] Instance rcg_regmap : Regmap rcg := {|
  dev_read := rcg_read;
  dev_update_bits := rcg_update_bits;
  dev_udelay := fun d _ => d
|}.

(** The device at rest, with nothing asked of it yet. *)
Definition idle_rcg (regs : list (Z * Z)) (latency : option nat) : @hw rcg :=
  {| dev := {| rcg_regs := regs; rcg_latency := latency |}; trace := [] |}.

(** A divider field of five bits above a source field of three. *)
Definition md5 : clk_regmap_mux_div :=
  {| reg_offset := 0; hid_width := 5; hid_shift := 0;
     src_width := 3; src_shift := 8; div := 0; src_sel := 0 |}.

(** A parent that rounds every rate to itself. *)
Definition exact_parent (c r : Z) : clk_parent :=
  {| cfg := c; clk_rate := r; round_rate := fun x => x |}.

Definition request (r : Z) : clk_rate_request :=
  {| rate := r; best_parent_rate := 0; best_parent_hw := None |}.

(** ** Reference notions for the transport *)

(** A world with more events in its trace. *)
Definition logged {FW : Type} (w : @world FW) (evs : list scm_event)
  : @world FW :=
  {| sw_fw := sw_fw w; sw_block := sw_block w; sw_log := sw_log w ++ evs |}.

(** The answer of one [smc] instruction and the world it leaves. *)
Definition after_trap {FW : Type} {E : ScmEnv FW} (w : @world FW)
           (r0 r2 : Z) : Z * @world FW :=
  let '(r, m, f) := fw_smc (sw_fw w) (sw_block w) r0 r2 in
  (u32 r, {| sw_fw := f; sw_block := m;
             sw_log := sw_log w ++ [ScSmc r0 r2] |}).

(** The world after [k] executions of [smc] that all answer
    [QCOM_SCM_INTERRUPTED]; [None] when one of them answers otherwise. *)
Fixpoint interrupted {FW : Type} {E : ScmEnv FW} (k : nat) (r2 : Z)
         (w : @world FW) : option (@world FW) :=
  match k with
  | O => Some w
  | S k' =>
      let '(r, w1) := after_trap w 1 r2 in
      if r =? QCOM_SCM_INTERRUPTED then interrupted k' r2 w1 else None
  end.

(** A computation that only adds events to the trace. *)
Definition extends {FW : Type} {A : Type} (m : @M FW A) : Prop :=
  forall w, exists evs, sw_log (snd (m w)) = sw_log w ++ evs.

(** ** A secure world for the examples *)

(** The firmware answers [QCOM_SCM_INTERRUPTED] [tf_interrupts] times and
    then [tf_code]; its response, of payload [tf_payload], becomes visible
    at the invalidation that follows [tf_delay] others. *)
Record toy_fw : Type := {
  tf_interrupts : nat;
  tf_code : Z;
  tf_delay : nat;
  tf_payload : list Z
}.

Definition toy_smc (f : toy_fw) (block : list Z) (r0 r2 : Z)
  : Z * list Z * toy_fw :=
  match tf_interrupts f with
  | S n => (QCOM_SCM_INTERRUPTED, block,
            {| tf_interrupts := n; tf_code := tf_code f;
               tf_delay := tf_delay f; tf_payload := tf_payload f |})
  | O => (tf_code f, block, f)
  end.

Definition toy_visible (f : toy_fw) (block : list Z) : list Z * toy_fw :=
  match tf_delay f with
  | S n => (block, {| tf_interrupts := tf_interrupts f; tf_code := tf_code f;
                      tf_delay := n; tf_payload := tf_payload f |})
  | O =>
      match load_le32 block CMD_RESP_HDR_OFFSET with
      | Some rsp =>
          let hdr := le32_bytes (sizeof_qcom_scm_response
                                 + zlength (tf_payload f))
                     ++ le32_bytes sizeof_qcom_scm_response
                     ++ le32_bytes 1 in
          match store_bytes block rsp (hdr ++ tf_payload f) with
          | Some b => (b, f)
          | None => (block, f)
          end
      | None => (block, f)
      end
  end.

(** The translation table as qcom_scm.h of the kernel has it, with the
    errno values of the kernel. *)
Definition toy_remap_error (err : Z) : Z :=
  if err =? QCOM_SCM_ERROR then -5
  else if (err =? QCOM_SCM_EINVAL_ADDR) || (err =? QCOM_SCM_EINVAL_ARG) then -22
  else if err =? QCOM_SCM_EOPNOTSUPP then -95
  else if err =? QCOM_SCM_ENOMEM then -12
  else -22.

#[export] Instance toy_env : ScmEnv toy_fw := {|
  PAGE_SHIFT := 12;
  ENOMEM := 12;
  qcom_scm_remap_error := toy_remap_error;
  kzalloc := fun size => Some 32768;
  virt_to_phys := fun a => a - 16384;
  fw_smc := toy_smc;
  fw_visible := toy_visible
|}.

Definition toy_world (interrupts : nat) (code : Z) (delay : nat)
           (payload : list Z) : @world toy_fw :=
  {| sw_fw := {| tf_interrupts := interrupts; tf_code := code;
                 tf_delay := delay; tf_payload := payload |};
     sw_block := [];
     sw_log := [] |}.

(** * The rate engine: the remaining operations *)

Section DriverMore.

Context {K : Kernel} {D : Type} {RM : Regmap D}.

(** The loop of [mux_div_get_parent] over the parents from index [i] on. *)
Fixpoint find_parent (parents : list clk_parent) (i : nat) (src : Z)
  : option nat :=
  match parents with
  | [] => None
  | p :: rest =>
      if src =? cfg p then Some i else find_parent rest (S i) src
  end.

(** [mux_div_get_parent], which returns a [u8]; [locals] is what its
    automatic variables [src] and [div] hold at entry. *)
Definition mux_div_get_parent (md : clk_regmap_mux_div)
           (parents : list clk_parent) (h : @hw D) (locals : Z * Z)
  : Z * @hw D :=
  let '(src, div, h1) := __mux_div_get_src_div md h locals in
  match find_parent parents 0 src with
  | Some i => (wrap 8 (Z.of_nat i), h1)
  | None => (0, pr_err h1 (MsgNoParent src))
  end.

(** [mux_div_set_parent]; [None] when [index] lies outside [parent_map]. *)
Definition mux_div_set_parent (md : clk_regmap_mux_div)
           (parents : list clk_parent) (h : @hw D) (index : nat)
  : option (Z * @hw D) :=
  match nth_error parents index with
  | Some p => Some (__mux_div_set_src_div md h (cfg p) (div md))
  | None => None
  end.

(** [mux_div_set_rate_and_parent]; [None] when [index] lies outside
    [parent_map]. *)
Definition mux_div_set_rate_and_parent (md : clk_regmap_mux_div)
           (parents : list clk_parent) (h : @hw D) (rate prate : Z)
           (index : nat) : option (Z * clk_regmap_mux_div * @hw D) :=
  match nth_error parents index with
  | Some p =>
      Some (__mux_div_set_rate_and_parent md parents h rate prate (cfg p))
  | None => None
  end.

End DriverMore.

(** After [k] turns of the poll of [__mux_div_update_config] that find the
    update bit set, from device state [d], the next read settles the poll:
    it fails with the code given, or succeeds, with code 0, and finds the
    bit clear.  [None] when the poll goes otherwise. *)
Fixpoint update_settles {D : Type} {RM : Regmap D}
         (md : clk_regmap_mux_div) (k : nat) (d : D) : option Z :=
  let '(ret, val, d1) := dev_read d (u32 (CMD_RCGR + reg_offset md)) in
  match k with
  | O =>
      if negb (ret =? 0) then Some ret
      else if Z.land (u32 val) CMD_RCGR_UPDATE =? 0 then Some 0
      else None
  | S k' =>
      if (ret =? 0) && negb (Z.land (u32 val) CMD_RCGR_UPDATE =? 0)
      then update_settles md k' (dev_udelay d1 1)
      else None
  end.

(** The request [mux_div_determine_rate] leaves when it keeps the turn [c]. *)
Definition request_of (c : candidate) : clk_rate_request :=
  {| rate := c_rate c; best_parent_rate := c_parent_rate c;
     best_parent_hw := Some (c_parent c) |}.

(** The two fields do not meet and lie within the 32 bits of the
    configuration register. *)
Definition fields_apart (md : clk_regmap_mux_div) : Prop :=
  0 <= hid_shift md /\ 0 <= hid_width md < 32 /\
  0 <= src_shift md /\ 0 <= src_width md < 32 /\
  hid_shift md + hid_width md <= 32 /\
  src_shift md + src_width md <= 32 /\
  (hid_shift md + hid_width md <= src_shift md \/
   src_shift md + src_width md <= hid_shift md).

(** A register map whose writes fail with [-EIO]. *)
Definition failing_regmap : Regmap unit :=
  {| dev_read := fun d _ => (0, 0, d);
     dev_update_bits := fun d _ _ _ => (-5, d);
     dev_udelay := fun d _ => d |}.

(** Two parents with the sources 2 and 3, that round every rate to itself. *)
Definition two_parents : list clk_parent :=
  [exact_parent 2 1000; exact_parent 3 800000000].

(** * The SCM transport: the remaining calls *)

Definition QCOM_SCM_FLAG_COLDBOOT_CPU0 : Z := 0.
Definition QCOM_SCM_FLAG_COLDBOOT_CPU1 : Z := 1.
Definition QCOM_SCM_FLAG_COLDBOOT_CPU2 : Z := 8.
Definition QCOM_SCM_FLAG_COLDBOOT_CPU3 : Z := 32.
Definition QCOM_SCM_FLAG_WARMBOOT_CPU0 : Z := 4.
Definition QCOM_SCM_FLAG_WARMBOOT_CPU1 : Z := 2.
Definition QCOM_SCM_FLAG_WARMBOOT_CPU2 : Z := 16.
Definition QCOM_SCM_FLAG_WARMBOOT_CPU3 : Z := 64.

Definition SCM_SVC_MP : Z := 12.

Definition SCM_CLASS_REGISTER : Z := Z.shiftl 2 8.

(** Modelled from the spec: [BIT(5)]; the macro [BIT] is not among the
    sources, and the spec numbers bits from 0. *)
Definition SCM_MASK_IRQS : Z := Z.shiftl 1 5.

(** The macro [SCM_ATOMIC(svc, cmd, n)], on 32 bits. *)
Definition SCM_ATOMIC (svc cmd n : Z) : Z :=
  u32 (Z.lor (Z.lor (Z.lor
    (u32 (Z.shiftl (u32 (Z.lor (u32 (Z.shiftl svc 10)) (Z.land cmd 1023))) 12))
    SCM_CLASS_REGISTER) SCM_MASK_IRQS) (Z.land n 15)).

(** [struct qcom_scm_entry]: the flag of a core and the entry point last
    programmed for it, 0 for [NULL]. *)
Record qcom_scm_entry : Type := {
  wb_flag : Z;
  wb_entry : Z
}.

(** The array [qcom_scm_wb] as the file initialises it. *)
Definition qcom_scm_wb_init : list qcom_scm_entry :=
  [{| wb_flag := QCOM_SCM_FLAG_WARMBOOT_CPU0; wb_entry := 0 |};
   {| wb_flag := QCOM_SCM_FLAG_WARMBOOT_CPU1; wb_entry := 0 |};
   {| wb_flag := QCOM_SCM_FLAG_WARMBOOT_CPU2; wb_entry := 0 |};
   {| wb_flag := QCOM_SCM_FLAG_WARMBOOT_CPU3; wb_entry := 0 |}].

(** The array [scm_cb_flags] of [__qcom_scm_set_cold_boot_addr]. *)
Definition scm_cb_flags : list Z :=
  [QCOM_SCM_FLAG_COLDBOOT_CPU0; QCOM_SCM_FLAG_COLDBOOT_CPU1;
   QCOM_SCM_FLAG_COLDBOOT_CPU2; QCOM_SCM_FLAG_COLDBOOT_CPU3].

(** What these calls take from qcom_scm.h, which is not among the sources:
    the identifiers of the boot service and of its command, and, for
    [qcom_scm_get_version], one execution of [smc] that gives [r0] and
    [r1] for the [r0] and [r1] given. *)
Class ScmCalls (FW : Type) : Type := {
  QCOM_SCM_SVC_BOOT : Z;
  QCOM_SCM_BOOT_ADDR : Z;
  fw_smc_version : FW -> Z -> Z -> Z * Z * FW
}.

(** The first loop of [__qcom_scm_set_warm_boot_addr]: the flags of the
    cores of the mask whose entry point differs from [entry]; [None] when a
    core lies outside [qcom_scm_wb]. *)
Fixpoint warm_boot_flags (wb : list qcom_scm_entry) (entry : Z)
         (cpus : list nat) (flags : Z) : option Z :=
  match cpus with
  | [] => Some flags
  | cpu :: rest =>
      match nth_error wb cpu with
      | None => None
      | Some e =>
          if entry =? wb_entry e then warm_boot_flags wb entry rest flags
          else warm_boot_flags wb entry rest (Z.lor flags (wb_flag e))
      end
  end.

(** [qcom_scm_wb[cpu].entry = entry]; [None] outside the array. *)
Fixpoint set_wb_entry (wb : list qcom_scm_entry) (cpu : nat) (entry : Z)
  : option (list qcom_scm_entry) :=
  match wb, cpu with
  | [], _ => None
  | e :: rest, O =>
      Some ({| wb_flag := wb_flag e; wb_entry := entry |} :: rest)
  | e :: rest, S cpu' =>
      match set_wb_entry rest cpu' entry with
      | Some rest' => Some (e :: rest')
      | None => None
      end
  end.

(** The second loop of [__qcom_scm_set_warm_boot_addr]. *)
Fixpoint warm_boot_store (wb : list qcom_scm_entry) (entry : Z)
         (cpus : list nat) : option (list qcom_scm_entry) :=
  match cpus with
  | [] => Some wb
  | cpu :: rest =>
      match set_wb_entry wb cpu entry with
      | Some wb' => warm_boot_store wb' entry rest
      | None => None
      end
  end.

(** The loop of [__qcom_scm_set_cold_boot_addr]: the flags, and the cores
    taken out of the present mask by [set_cpu_present(cpu, false)]. *)
Fixpoint cold_boot_flags (cpus : list nat) (flags : Z) (absent : list nat)
  : Z * list nat :=
  match cpus with
  | [] => (flags, absent)
  | cpu :: rest =>
      match nth_error scm_cb_flags cpu with
      | Some f => cold_boot_flags rest (Z.lor flags f) absent
      | None => cold_boot_flags rest flags (absent ++ [cpu])
      end
  end.

(** The flags of the cores of [l] that [scm_cb_flags] holds, together. *)
Definition known_cold_flags (l : list nat) : Z :=
  fold_left Z.lor
    (map (fun c => nth c scm_cb_flags 0) (filter (fun c => (c <? 4)%nat) l))
    0.

Section ScmMore.

Context {K : Kernel} {FW : Type} {E : ScmEnv FW} {C : ScmCalls FW}.

Notation "x <- m ;; k" := (bind m (fun x => k))
  (at level 61, m at next level, right associativity).
Notation "m ;; k" := (bind m (fun _ => k))
  (at level 61, right associativity).

(** [qcom_scm_call_atomic1]: one [smc] with the packed identifier in [r0]
    and the argument in [r2]; the result is [r0] as an [s32]. *)
Definition qcom_scm_call_atomic1 (svc cmd arg1 : Z) : @M FW Z :=
  r0 <- trap (SCM_ATOMIC svc cmd 1) arg1 ;;
  ret (s32 r0).

(** One execution of the [smc] of [qcom_scm_get_version]. *)
Definition trap_version (r0 r1 : Z) : @M FW (Z * Z) :=
  fun w =>
    let '(a, b, f) := fw_smc_version (sw_fw w) r0 r1 in
    (Done (u32 a, u32 b),
     {| sw_fw := f; sw_block := sw_block w;
        sw_log := sw_log w ++ [ScSmc r0 r1] |}).

(** The [do ... while (r0 == QCOM_SCM_INTERRUPTED)] of
    [qcom_scm_get_version]; the result is [r1]. *)
Fixpoint version_loop (fuel : nat) (r0 r1 : Z) : @M FW Z :=
  match fuel with
  | O => spin
  | S fuel' =>
      r <- trap_version r0 r1 ;;
      if fst r =? QCOM_SCM_INTERRUPTED
      then version_loop fuel' (fst r) (snd r)
      else ret (snd r)
  end.

(** [qcom_scm_get_version]: [version] is the static variable, which starts
    as [(u32)-1], and [context_id] the address of the local of that name;
    the result is the value returned and the static variable after it. *)
Definition qcom_scm_get_version (fuel : nat) (version context_id : Z)
  : @M FW (Z * Z) :=
  if negb (version =? u32 (-1)) then ret (version, version)
  else
    log ScMutexLock ;;
    r1 <- version_loop fuel (u32 (Z.shiftl 1 8)) (u32 context_id) ;;
    log ScMutexUnlock ;;
    ret (r1, r1).

(** [qcom_scm_set_boot_addr]: the command is the struct of [flags] and
    [addr], in this order; there is no response. *)
Definition qcom_scm_set_boot_addr (fuel : nat) (addr flags : Z) : @M FW Z :=
  let cmd := le32_bytes (u32 flags) ++ le32_bytes (u32 addr) in
  r <- qcom_scm_call fuel QCOM_SCM_SVC_BOOT QCOM_SCM_BOOT_ADDR
         (Some cmd) 8 None 0 ;;
  ret (fst r).

(** [__qcom_scm_set_cold_boot_addr]; [cpus] is the mask, [None] for [NULL],
    as the list of its cores in rising order.  The result is the return
    value with the cores taken out of the present mask. *)
Definition __qcom_scm_set_cold_boot_addr (fuel : nat) (entry : Z)
           (cpus : option (list nat)) : @M FW (Z * list nat) :=
  match cpus with
  | None => ret (- EINVAL, [])
  | Some [] => ret (- EINVAL, [])
  | Some l =>
      let '(flags, absent) := cold_boot_flags l 0 [] in
      r <- qcom_scm_set_boot_addr fuel (u32 (virt_to_phys entry)) flags ;;
      ret (r, absent)
  end.

(** [__qcom_scm_set_warm_boot_addr]; [wb] is the array [qcom_scm_wb] at the
    call, the result the return value with the array after it.  A core of
    the mask outside the array is an access outside of it. *)
Definition __qcom_scm_set_warm_boot_addr (fuel : nat)
           (wb : list qcom_scm_entry) (entry : Z) (cpus : list nat)
  : @M FW (Z * list qcom_scm_entry) :=
  match warm_boot_flags wb entry cpus 0 with
  | None => oops
  | Some flags =>
      if flags =? 0 then ret (0, wb)
      else
        r <- qcom_scm_set_boot_addr fuel (u32 (virt_to_phys entry)) flags ;;
        if r =? 0 then
          match warm_boot_store wb entry cpus with
          | Some wb' => ret (r, wb')
          | None => oops
          end
        else ret (r, wb)
  end.


End ScmMore.

(** ** Reference notions for the remaining properties *)

(** The world one cache invalidation leaves. *)
Definition after_inv {FW : Type} {E : ScmEnv FW} (w : @world FW)
           (start stop : Z) : @world FW :=
  let '(m, f) := fw_visible (sw_fw w) (sw_block w) in
  {| sw_fw := f; sw_block := m;
     sw_log := sw_log w ++ [ScInvRange start stop] |}.

(** The world after [j] invalidations of the response header that all show
    the completion flag at 0; [None] when one of them shows otherwise or
    the flag lies outside the block. *)
Fixpoint pending {FW : Type} {E : ScmEnv FW} (j : nat) (start rsp : Z)
         (w : @world FW) : option (@world FW) :=
  match j with
  | O => Some w
  | S j' =>
      let w1 := after_inv w start (u32 (start + sizeof_qcom_scm_response)) in
      match load_le32 (sw_block w1) (rsp + RSP_IS_COMPLETE) with
      | Some c => if c =? 0 then pending j' start rsp w1 else None
      | None => None
      end
  end.

(** The registers [r0] and [r1] after one [smc] of [qcom_scm_get_version]
    and the world it leaves. *)
Definition after_trap_version {FW : Type} {C : ScmCalls FW} (w : @world FW)
           (r0 r1 : Z) : Z * Z * @world FW :=
  let '(a, b, f) := fw_smc_version (sw_fw w) r0 r1 in
  (u32 a, u32 b,
   {| sw_fw := f; sw_block := sw_block w;
      sw_log := sw_log w ++ [ScSmc r0 r1] |}).

(** The registers and the world after [k] executions of that [smc] which
    all leave [QCOM_SCM_INTERRUPTED] in [r0], each given the registers the
    one before left; [None] when one of them leaves another value. *)
Fixpoint version_interrupted {FW : Type} {C : ScmCalls FW} (k : nat)
         (r0 r1 : Z) (w : @world FW) : option (Z * Z * @world FW) :=
  match k with
  | O => Some (r0, r1, w)
  | S k' =>
      let '(a, b, w1) := after_trap_version w r0 r1 in
      if a =? QCOM_SCM_INTERRUPTED then version_interrupted k' a b w1
      else None
  end.

Definition is_trap_event (e : scm_event) : bool :=
  match e with ScFlush _ _ | ScSmc _ _ => true | _ => false end.

Definition is_response_event (e : scm_event) : bool :=
  match e with ScInvRange _ _ | ScCopyOut _ => true | _ => false end.

(** A computation that only adds events of one kind to the trace. *)
Definition emits {FW : Type} {A : Type} (P : scm_event -> bool)
           (m : @M FW A) : Prop :=
  forall w, exists evs,
    sw_log (snd (m w)) = sw_log w ++ evs /\ forallb P evs = true.

(** The firmware of the examples for [qcom_scm_get_version]: version 1.4
    in [r1]. *)
#[export] Instance toy_calls : ScmCalls toy_fw := {|
  QCOM_SCM_SVC_BOOT := 1;
  QCOM_SCM_BOOT_ADDR := 1;
  fw_smc_version := fun f r0 r1 =>
    match tf_interrupts f with
    | S n => (QCOM_SCM_INTERRUPTED, r1,
              {| tf_interrupts := n; tf_code := tf_code f;
                 tf_delay := tf_delay f; tf_payload := tf_payload f |})
    | O => (0, 65540, f)
    end
|}.

(** A platform out of memory whose secure world answers every call with
    [QCOM_SCM_INTERRUPTED] and never writes to the block. *)
Definition stuck_env : ScmEnv unit :=
  {| PAGE_SHIFT := 12;
     ENOMEM := 12;
     qcom_scm_remap_error := toy_remap_error;
     kzalloc := fun _ => None;
     virt_to_phys := fun a => a;
     fw_smc := fun f block _ _ => (QCOM_SCM_INTERRUPTED, block, f);
     fw_visible := fun f block => (block, f) |}.

Definition stuck_world (block : list Z) : @world unit :=
  {| sw_fw := tt; sw_block := block; sw_log := [] |}.

(** * The cache lines of [qcom_scm_inv_range] *)

(** What [qcom_scm_inv_range] does to the caches, instruction by
    instruction: [outer_inv_range], one [mcr p15, 0, start, c7, c6, 1] for
    each line, [dsb] and [isb]. *)
Inductive cache_event : Type :=
| CeOuterInvRange (start stop : Z)
| CeInvLine (addr : Z)
| CeDsb
| CeIsb.

(** The macros [round_down] and [round_up] of linux/kernel.h, which is not
    among the sources. *)
Class Rounding : Type := {
  round_down : Z -> Z -> Z;
  round_up : Z -> Z -> Z
}.

(** [4 << ((ctr >> 16) & 0xf)], stored in a [u32]. *)
Definition cacheline_size (ctr : Z) : Z :=
  u32 (Z.shiftl 4 (Z.land (Z.shiftr ctr 16) 15)).

Section CacheLines.

Context {K : Kernel} {R : Rounding}.

(** The [while (start < end)] of [qcom_scm_inv_range]. *)
Fixpoint inv_lines (fuel : nat) (start stop line : Z)
  : option (list cache_event) :=
  match fuel with
  | O => None
  | S fuel' =>
      if start <? stop then
        match inv_lines fuel' (ulong (start + line)) stop line with
        | Some evs => Some (CeInvLine start :: evs)
        | None => None
        end
      else Some []
  end.

(** [qcom_scm_inv_range] as the instructions it executes; [ctr] is what
    the cache type register reads, and [None] stands for a loop that has
    not ended within [fuel] turns. *)
Definition qcom_scm_inv_range_lines (fuel : nat) (ctr start stop : Z)
  : option (list cache_event) :=
  let line := cacheline_size ctr in
  let start := round_down start line in
  let stop := round_up stop line in
  match inv_lines fuel start stop line with
  | Some evs => Some (CeOuterInvRange start stop :: evs ++ [CeDsb; CeIsb])
  | None => None
  end.

End CacheLines.

(** The addresses of the lines from [start] on, [n] of them. *)
Definition lines_from (start line : Z) (n : nat) : list Z :=
  map (fun i => start + Z.of_nat i * line) (seq 0 n).

(** Rounding to a multiple, for the examples. *)
Definition exact_rounding : Rounding :=
  {| round_down := fun x y => x - x mod y;
     round_up := fun x y => x + (- x) mod y |}.

(** * A call that folds the answers into one code *)

Definition IOMMU_SECURE_MAP2 : Z := 11.

Section ScmWrappers.

Context {K : Kernel} {FW : Type} {E : ScmEnv FW}.

Notation "x <- m ;; k" := (bind m (fun x => k))
  (at level 61, m at next level, right associativity).

(** [__qcom_scm_iommu_secure_map]: the request is the struct of the eight
    [unsigned int], in the order of their declaration and as they lie in
    the memory of a little-endian host; the [u64] arguments are cut to 32
    bits by the assignments.  [resp] is what the local [resp] holds at
    entry; [ret || resp] reads it only after a call that returned 0. *)
Definition __qcom_scm_iommu_secure_map (fuel : nat)
           (list_ list_size size id ctx_id va info_size flags : Z)
           (resp : list Z) : @M FW Z :=
  let req := le32_bytes (u32 list_) ++ le32_bytes (u32 list_size)
             ++ le32_bytes (u32 size) ++ le32_bytes (u32 id)
             ++ le32_bytes (u32 ctx_id) ++ le32_bytes (u32 va)
             ++ le32_bytes (u32 info_size) ++ le32_bytes (u32 flags) in
  r <- qcom_scm_call fuel SCM_SVC_MP IOMMU_SECURE_MAP2 (Some req) 32
         (Some resp) 4 ;;
  if negb (fst r =? 0) then ret (- EINVAL)
  else
    match snd r with
    | Some d =>
        if negb (le32_value (firstn 4 d) =? 0) then ret (- EINVAL)
        else ret 0
    | None => oops
    end.

End ScmWrappers.

(** * Properties of the machine integers *)

Lemma wrap_range bits x : 0 <= bits -> 0 <= wrap bits x < 2 ^ bits.
Proof.
  intros Hb. unfold wrap. apply Z.mod_pos_bound.
  apply Z.pow_pos_nonneg; lia.
Qed.

Lemma wrap_small bits x : 0 <= x < 2 ^ bits -> wrap bits x = x.
Proof. intros H. unfold wrap. apply Z.mod_small. exact H. Qed.

Lemma wrap_le bits x : 0 <= bits -> 0 <= x -> wrap bits x <= x.
Proof.
  intros Hb Hx. unfold wrap. apply Z.mod_le; [exact Hx|].
  apply Z.pow_pos_nonneg; lia.
Qed.

Lemma u32_range x : 0 <= u32 x < 2 ^ 32.
Proof. apply wrap_range. lia. Qed.

Lemma u32_small x : 0 <= x < 2 ^ 32 -> u32 x = x.
Proof. apply wrap_small. Qed.

Lemma s32_nonneg x : 0 <= x < 2 ^ 31 -> s32 x = x.
Proof.
  intros H. unfold s32. rewrite u32_small by lia.
  destruct (Z.ltb_spec x (2 ^ 31)); lia.
Qed.

Lemma s32_negative x : 2 ^ 31 <= x < 2 ^ 32 -> s32 x = x - 2 ^ 32.
Proof.
  intros H. unfold s32. rewrite u32_small by lia.
  destruct (Z.ltb_spec x (2 ^ 31)); lia.
Qed.

(** * Properties of the rate engine *)

Section DriverProperties.

Context {K : Kernel}.

Lemma ulong_small x :
  32 <= BITS_PER_LONG -> 0 <= x < 2 ^ 32 -> ulong x = x.
Proof.
  intros HL Hx. apply wrap_small.
  assert (2 ^ 32 <= 2 ^ BITS_PER_LONG) by (apply Z.pow_le_mono_r; lia).
  lia.
Qed.

Lemma BIT_small w :
  32 <= BITS_PER_LONG -> 0 <= w < 32 -> BIT w = 2 ^ w.
Proof.
  intros HL Hw. unfold BIT. rewrite Z.shiftl_1_l.
  apply ulong_small; [exact HL|].
  split; [apply Z.pow_nonneg; lia|apply Z.pow_lt_mono_r; lia].
Qed.

(** [max_div] never exceeds the largest value of the divider field. *)
Lemma max_div_le md :
  0 <= BITS_PER_LONG -> 0 <= hid_width md ->
  max_div md <= 2 ^ hid_width md - 1.
Proof.
  intros HL Hw. unfold max_div, BIT. rewrite Z.shiftl_1_l.
  set (b := ulong (2 ^ hid_width md)).
  assert (Hb : 0 <= b < 2 ^ BITS_PER_LONG) by (apply wrap_range; exact HL).
  assert (Hp : 0 < 2 ^ hid_width md) by (apply Z.pow_pos_nonneg; lia).
  assert (Hbw : b <= 2 ^ hid_width md) by (apply wrap_le; lia).
  destruct (Z.eq_dec b 0) as [Hz|Hnz].
  - (* the shift left the word: only when the field is wider than a long *)
    assert (Hge : 2 ^ BITS_PER_LONG <= 2 ^ hid_width md).
    { destruct (Z.lt_ge_cases (hid_width md) BITS_PER_LONG) as [Hlt|Hge].
      - exfalso. unfold b, ulong in Hz. rewrite wrap_small in Hz; [lia|].
        split; [lia|]. apply Z.pow_lt_mono_r; lia.
      - apply Z.pow_le_mono_r; lia. }
    pose proof (u32_range (ulong (b - 1))) as Hu.
    pose proof (wrap_range BITS_PER_LONG (b - 1) HL) as Hr. fold (ulong (b - 1)) in Hr.
    assert (u32 (ulong (b - 1)) <= ulong (b - 1))
      by (apply wrap_le; lia).
    lia.
  - assert (Hs : ulong (b - 1) = b - 1) by (apply wrap_small; lia).
    rewrite Hs.
    assert (u32 (b - 1) <= b - 1) by (apply wrap_le; lia).
    lia.
Qed.

Lemma max_div_small md :
  32 <= BITS_PER_LONG -> 0 <= hid_width md < 32 ->
  max_div md = 2 ^ hid_width md - 1.
Proof.
  intros HL Hw. unfold max_div. rewrite BIT_small by assumption.
  assert (0 < 2 ^ hid_width md) by (apply Z.pow_pos_nonneg; lia).
  assert (2 ^ hid_width md < 2 ^ 32) by (apply Z.pow_lt_mono_r; lia).
  rewrite ulong_small by lia. apply u32_small. lia.
Qed.

Lemma div_range_bounds md d :
  In d (div_range md) -> 1 <= d <= max_div md - 1.
Proof.
  unfold div_range. intros H. apply in_map_iff in H.
  destruct H as [n [Hn Hin]]. apply in_seq in Hin. lia.
Qed.

Lemma div_range_cons md :
  2 <= max_div md ->
  div_range md = 1 :: map Z.of_nat (seq 2 (Z.to_nat (max_div md - 2))).
Proof.
  intros H. unfold div_range.
  replace (Z.to_nat (max_div md - 1)) with (S (Z.to_nat (max_div md - 2))) by lia.
  reflexivity.
Qed.

(** ** The choice between two rates *)

Lemma is_better_rate_spec req best new :
  is_better_rate req best new = true <->
  (req <= new /\ new < best) \/ (best < req /\ best < new).
Proof.
  unfold is_better_rate.
  rewrite orb_true_iff, !andb_true_iff, Z.leb_le, !Z.ltb_lt. tauto.
Qed.

Lemma pick_rate_snoc req best rates x :
  pick_rate req best (rates ++ [x]) =
  let b := pick_rate req best rates in
  if is_better_rate req b x then x else b.
Proof. unfold pick_rate. rewrite fold_left_app. reflexivity. Qed.

Lemma pick_rate_app req best l1 l2 :
  pick_rate req best (l1 ++ l2) = pick_rate req (pick_rate req best l1) l2.
Proof. unfold pick_rate. apply fold_left_app. Qed.

Lemma in_snoc {A : Type} (l : list A) (x y : A) :
  In y (l ++ [x]) <-> In y l \/ y = x.
Proof.
  rewrite in_app_iff. cbn. intuition congruence.
Qed.

Lemma pick_rate_picked req rates :
  0 < req -> picked req rates (pick_rate req 0 rates).
Proof.
  intros Hreq. induction rates as [|x rates IH] using rev_ind.
  - right. cbn. split; [lia|]. split; [left; reflexivity|].
    split; [lia|]. intros r Hr. destruct Hr.
  - rewrite pick_rate_snoc. cbv zeta.
    set (b := pick_rate req 0 rates) in *.
    destruct (is_better_rate req b x) eqn:Hb.
    + apply is_better_rate_spec in Hb.
      destruct IH as [(Hge & Hin & Hmin)|(Hlt & Hin & Hpos & Hmax)].
      * left. destruct Hb as [[? ?]|[? ?]]; [|lia].
        split; [lia|]. split; [apply in_snoc; right; reflexivity|].
        intros r Hr Hrr. apply in_snoc in Hr.
        destruct Hr as [Hr|Hr]; [specialize (Hmin r Hr Hrr); lia|lia].
      * destruct Hb as [[? ?]|[? ?]]; [lia|].
        destruct (Z.le_gt_cases req x).
        -- left. split; [lia|]. split; [apply in_snoc; right; reflexivity|].
           intros r Hr Hrr. apply in_snoc in Hr.
           destruct Hr as [Hr|Hr]; [specialize (Hmax r Hr); lia|lia].
        -- right. split; [lia|].
           split; [right; apply in_snoc; right; reflexivity|].
           split; [lia|].
           intros r Hr. apply in_snoc in Hr.
           destruct Hr as [Hr|Hr]; [specialize (Hmax r Hr); lia|lia].
    + assert (Hn : ~ ((req <= x /\ x < b) \/ (b < req /\ b < x))).
      { intros Hc. apply is_better_rate_spec in Hc. congruence. }
      destruct IH as [(Hge & Hin & Hmin)|(Hlt & Hin & Hpos & Hmax)].
      * left. split; [lia|]. split; [apply in_snoc; left; exact Hin|].
        intros r Hr Hrr. apply in_snoc in Hr.
        destruct Hr as [Hr|Hr]; [apply Hmin; assumption|lia].
      * right. split; [lia|]. split.
        { destruct Hin as [Hz|Hin];
            [left; exact Hz|right; apply in_snoc; left; exact Hin]. }
        split; [lia|].
        intros r Hr. apply in_snoc in Hr.
        destruct Hr as [Hr|Hr]; [apply Hmax; assumption|lia].
Qed.

(** ** The searches *)

Lemma turn_of_incl req i p divs divs' c :
  (forall d, In d divs -> In d divs') ->
  turn_of req i p divs c -> turn_of req i p divs' c.
Proof.
  intros Hincl (Hd & Hrest). split; [apply Hincl; exact Hd|exact Hrest].
Qed.

(** The inner loop of [mux_div_determine_rate] adds turns of its parent
    to the record, leaves as best rate the choice of [is_better_rate] over
    them, and either leaves the request alone or leaves the best rate in it. *)
Lemma determine_divs_spec req i p divs : forall s,
  exists new,
    dr_tried (determine_divs req i p divs s) = dr_tried s ++ new /\
    Forall (turn_of req i p divs) new /\
    dr_best_rate (determine_divs req i p divs s) =
      pick_rate req (dr_best_rate s) (map c_rate new) /\
    ((dr_req (determine_divs req i p divs s) = dr_req s /\
      dr_best_rate (determine_divs req i p divs s) = dr_best_rate s) \/
     (rate (dr_req (determine_divs req i p divs s)) =
        dr_best_rate (determine_divs req i p divs s) /\
      best_parent_hw (dr_req (determine_divs req i p divs s)) = Some i)).
Proof.
  induction divs as [|d rest IH]; intros s.
  - exists []. cbn. rewrite app_nil_r. repeat split; auto.
  - cbn [determine_divs]. cbv zeta.
    set (asked := mult_frac req d 2).
    set (prate := clk_hw_round_rate p asked).
    set (actual := mult_frac prate 2 d).
    set (c := {| c_parent := i; c_div := d; c_asked := asked;
                 c_parent_rate := prate; c_rate := actual |}).
    assert (Hc : turn_of req i p (d :: rest) c).
    { unfold turn_of. cbn. repeat split; auto. }
    destruct (is_better_rate req (dr_best_rate s) actual) eqn:Hb;
      cbn [dr_best_rate dr_req dr_tried].
    + match goal with |- context [if ?b then _ else _] => destruct b end.
      * exists [c]. cbn [dr_best_rate dr_req dr_tried map].
        unfold pick_rate. cbn [fold_left c_rate c]. rewrite Hb.
        split; [reflexivity|]. split; [constructor; [exact Hc|constructor]|].
        split; [reflexivity|]. right. split; reflexivity.
      * match goal with |- context [determine_divs req i p rest ?s1] =>
          destruct (IH s1) as (new & Ht & Hf & Hbest & Hreq) end.
        cbn [dr_best_rate dr_req dr_tried] in *.
        exists (c :: new). rewrite Ht, <- app_assoc.
        split; [reflexivity|]. split.
        { constructor; [exact Hc|].
          eapply Forall_impl; [|exact Hf]. intros a Ha.
          eapply turn_of_incl; [|exact Ha]. intros; right; assumption. }
        split.
        { rewrite Hbest. unfold pick_rate. cbn [map fold_left c_rate c].
          rewrite Hb. reflexivity. }
        right. destruct Hreq as [[Hr1 Hr2]|Hr]; [|exact Hr].
        rewrite Hr1, Hr2. split; reflexivity.
    + match goal with |- context [if ?b then _ else _] => destruct b end.
      * exists [c]. cbn [dr_best_rate dr_req dr_tried map].
        unfold pick_rate. cbn [fold_left c_rate c]. rewrite Hb.
        split; [reflexivity|]. split; [constructor; [exact Hc|constructor]|].
        split; [reflexivity|]. left. split; reflexivity.
      * match goal with |- context [determine_divs req i p rest ?s1] =>
          destruct (IH s1) as (new & Ht & Hf & Hbest & Hreq) end.
        cbn [dr_best_rate dr_req dr_tried] in *.
        exists (c :: new). rewrite Ht, <- app_assoc.
        split; [reflexivity|]. split.
        { constructor; [exact Hc|].
          eapply Forall_impl; [|exact Hf]. intros a Ha.
          eapply turn_of_incl; [|exact Ha]. intros; right; assumption. }
        split.
        { rewrite Hbest. unfold pick_rate. cbn [map fold_left c_rate c].
          rewrite Hb. reflexivity. }
        exact Hreq.
Qed.

Lemma determine_parents_spec md req parents : forall i s,
  exists new,
    dr_tried (determine_parents md req i parents s) = dr_tried s ++ new /\
    Forall (turn_in md req i parents) new /\
    dr_best_rate (determine_parents md req i parents s) =
      pick_rate req (dr_best_rate s) (map c_rate new) /\
    ((dr_req (determine_parents md req i parents s) = dr_req s /\
      dr_best_rate (determine_parents md req i parents s) = dr_best_rate s) \/
     rate (dr_req (determine_parents md req i parents s)) =
       dr_best_rate (determine_parents md req i parents s)).
Proof.
  induction parents as [|p rest IH]; intros i s.
  - exists []. cbn. rewrite app_nil_r. repeat split; auto.
  - cbn [determine_parents].
    destruct (determine_divs_spec req i p (div_range md) s)
      as (n1 & Ht1 & Hf1 & Hb1 & Hr1).
    destruct (IH (S i) (determine_divs req i p (div_range md) s))
      as (n2 & Ht2 & Hf2 & Hb2 & Hr2).
    exists (n1 ++ n2). rewrite Ht2, Ht1, <- app_assoc.
    split; [reflexivity|]. split.
    { apply Forall_app. split.
      - eapply Forall_impl; [|exact Hf1]. intros c Hc.
        exists 0%nat, p. split; [reflexivity|].
        rewrite Nat.add_0_r. exact Hc.
      - eapply Forall_impl; [|exact Hf2]. intros c (j & q & Hn & Hc).
        exists (S j), q. split; [exact Hn|].
        rewrite Nat.add_succ_r. exact Hc. }
    split.
    { rewrite Hb2, Hb1, map_app, pick_rate_app. reflexivity. }
    destruct Hr2 as [[Ha Hb]|Hr2]; [|right; exact Hr2].
    rewrite Ha, Hb.
    destruct Hr1 as [Hr1|[Hr1 _]]; [left; exact Hr1|right; exact Hr1].
Qed.

(** The search of [mux_div_determine_rate] as a whole. *)
Lemma determine_search_spec md parents req :
  let s := determine_search md parents req in
  Forall (turn_in md (rate req) 0 parents) (dr_tried s) /\
  dr_best_rate s = pick_rate (rate req) 0 (map c_rate (dr_tried s)) /\
  ((dr_req s = req /\ dr_best_rate s = 0) \/
   rate (dr_req s) = dr_best_rate s).
Proof.
  unfold determine_search.
  destruct (determine_parents_spec md (rate req) parents 0
              {| dr_best_rate := 0; dr_req := req; dr_tried := [] |})
    as (new & Ht & Hf & Hb & Hr).
  cbn [dr_tried dr_best_rate dr_req app] in *.
  cbv zeta. rewrite Ht. auto.
Qed.

(** The same for the inner loop of [__mux_div_set_rate_and_parent]: the
    divider kept is one less than a divider of the range. *)
Lemma set_rate_divs_spec rate i p divs : forall s,
  exists new,
    sr_tried (set_rate_divs rate i p divs s) = sr_tried s ++ new /\
    Forall (turn_of rate i p divs) new /\
    sr_best_rate (set_rate_divs rate i p divs s) =
      pick_rate rate (sr_best_rate s) (map c_rate new) /\
    ((sr_best_div (set_rate_divs rate i p divs s) = sr_best_div s /\
      sr_best_src (set_rate_divs rate i p divs s) = sr_best_src s) \/
     (exists d, In d divs /\
        sr_best_div (set_rate_divs rate i p divs s) = u32 (d - 1) /\
        sr_best_src (set_rate_divs rate i p divs s) = cfg p)).
Proof.
  induction divs as [|d rest IH]; intros s.
  - exists []. cbn. rewrite app_nil_r. repeat split; auto.
  - cbn [set_rate_divs]. cbv zeta.
    set (asked := mult_frac rate d 2).
    set (prate := clk_hw_round_rate p asked).
    set (actual := mult_frac prate 2 d).
    set (c := {| c_parent := i; c_div := d; c_asked := asked;
                 c_parent_rate := prate; c_rate := actual |}).
    assert (Hc : turn_of rate i p (d :: rest) c).
    { unfold turn_of. cbn. repeat split; auto. }
    destruct (is_better_rate rate (sr_best_rate s) actual) eqn:Hb;
      cbn [sr_best_rate sr_best_src sr_best_div sr_tried].
    + match goal with |- context [if ?b then _ else _] => destruct b end.
      * exists [c]. cbn [sr_best_rate sr_best_src sr_best_div sr_tried map].
        unfold pick_rate. cbn [fold_left c_rate c]. rewrite Hb.
        split; [reflexivity|]. split; [constructor; [exact Hc|constructor]|].
        split; [reflexivity|]. right. exists d.
        split; [left; reflexivity|]. split; reflexivity.
      * match goal with |- context [set_rate_divs rate i p rest ?s1] =>
          destruct (IH s1) as (new & Ht & Hf & Hbest & Hdiv) end.
        cbn [sr_best_rate sr_best_src sr_best_div sr_tried] in *.
        exists (c :: new). rewrite Ht, <- app_assoc.
        split; [reflexivity|]. split.
        { constructor; [exact Hc|].
          eapply Forall_impl; [|exact Hf]. intros a Ha.
          eapply turn_of_incl; [|exact Ha]. intros; right; assumption. }
        split.
        { rewrite Hbest. unfold pick_rate. cbn [map fold_left c_rate c].
          rewrite Hb. reflexivity. }
        right. destruct Hdiv as [[Hd1 Hd2]|(d' & Hin & Hd1 & Hd2)].
        -- exists d. split; [left; reflexivity|]. rewrite Hd1, Hd2.
           split; reflexivity.
        -- exists d'. split; [right; exact Hin|]. split; assumption.
    + match goal with |- context [if ?b then _ else _] => destruct b end.
      * exists [c]. cbn [sr_best_rate sr_best_src sr_best_div sr_tried map].
        unfold pick_rate. cbn [fold_left c_rate c]. rewrite Hb.
        split; [reflexivity|]. split; [constructor; [exact Hc|constructor]|].
        split; [reflexivity|]. left. split; reflexivity.
      * match goal with |- context [set_rate_divs rate i p rest ?s1] =>
          destruct (IH s1) as (new & Ht & Hf & Hbest & Hdiv) end.
        cbn [sr_best_rate sr_best_src sr_best_div sr_tried] in *.
        exists (c :: new). rewrite Ht, <- app_assoc.
        split; [reflexivity|]. split.
        { constructor; [exact Hc|].
          eapply Forall_impl; [|exact Hf]. intros a Ha.
          eapply turn_of_incl; [|exact Ha]. intros; right; assumption. }
        split.
        { rewrite Hbest. unfold pick_rate. cbn [map fold_left c_rate c].
          rewrite Hb. reflexivity. }
        destruct Hdiv as [Hd|(d' & Hin & Hd1 & Hd2)]; [left; exact Hd|].
        right. exists d'. split; [right; exact Hin|]. split; assumption.
Qed.

Lemma set_rate_parents_spec md rate parents : forall i s,
  exists new,
    sr_tried (set_rate_parents md rate i parents s) = sr_tried s ++ new /\
    Forall (turn_in md rate i parents) new /\
    sr_best_rate (set_rate_parents md rate i parents s) =
      pick_rate rate (sr_best_rate s) (map c_rate new) /\
    (sr_best_div (set_rate_parents md rate i parents s) = sr_best_div s \/
     exists d, In d (div_range md) /\
       sr_best_div (set_rate_parents md rate i parents s) = u32 (d - 1)).
Proof.
  induction parents as [|p rest IH]; intros i s.
  - exists []. cbn. rewrite app_nil_r. repeat split; auto.
  - cbn [set_rate_parents].
    destruct (set_rate_divs_spec rate i p (div_range md) s)
      as (n1 & Ht1 & Hf1 & Hb1 & Hd1).
    destruct (IH (S i) (set_rate_divs rate i p (div_range md) s))
      as (n2 & Ht2 & Hf2 & Hb2 & Hd2).
    exists (n1 ++ n2). rewrite Ht2, Ht1, <- app_assoc.
    split; [reflexivity|]. split.
    { apply Forall_app. split.
      - eapply Forall_impl; [|exact Hf1]. intros c Hc.
        exists 0%nat, p. split; [reflexivity|].
        rewrite Nat.add_0_r. exact Hc.
      - eapply Forall_impl; [|exact Hf2]. intros c (j & q & Hn & Hc).
        exists (S j), q. split; [exact Hn|].
        rewrite Nat.add_succ_r. exact Hc. }
    split.
    { rewrite Hb2, Hb1, map_app, pick_rate_app. reflexivity. }
    destruct Hd2 as [Hd2|Hd2]; [|right; exact Hd2].
    rewrite Hd2.
    destruct Hd1 as [[Hd1 _]|(d & Hin & Hd1 & _)];
      [left; exact Hd1|right; exists d; split; assumption].
Qed.

Lemma set_rate_search_spec md parents rate :
  let s := set_rate_search md parents rate in
  Forall (turn_in md rate 0 parents) (sr_tried s) /\
  sr_best_rate s = pick_rate rate 0 (map c_rate (sr_tried s)) /\
  (sr_best_div s = 0 \/
   exists d, In d (div_range md) /\ sr_best_div s = u32 (d - 1)).
Proof.
  unfold set_rate_search.
  destruct (set_rate_parents_spec md rate parents 0
              {| sr_best_rate := 0; sr_best_src := 0; sr_best_div := 0;
                 sr_tried := [] |})
    as (new & Ht & Hf & Hb & Hd).
  cbn [sr_tried sr_best_rate sr_best_div app] in *.
  cbv zeta. rewrite Ht. auto.
Qed.

(** ** Which dividers are tried *)

Lemma turn_in_div md req i parents c :
  0 <= BITS_PER_LONG -> 0 <= hid_width md ->
  turn_in md req i parents c ->
  1 <= c_div c <= 2 ^ hid_width md - 2.
Proof.
  intros HL Hw (j & p & _ & Hd & _).
  apply div_range_bounds in Hd.
  pose proof (max_div_le md HL Hw). lia.
Qed.

(** C10: the divider searches of [mux_div_determine_rate] and of
    [__mux_div_set_rate_and_parent] only try dividers from 1 to
    [2 ^ hid_width - 2]: the largest value of the divider field,
    [2 ^ hid_width - 1], is never tried. *)
Theorem divider_search_range md parents req rate0 :
  0 <= BITS_PER_LONG -> 0 <= hid_width md ->
  (forall c, In c (dr_tried (determine_search md parents req)) ->
     1 <= c_div c <= 2 ^ hid_width md - 2 /\
     c_div c <> 2 ^ hid_width md - 1) /\
  (forall c, In c (sr_tried (set_rate_search md parents rate0)) ->
     1 <= c_div c <= 2 ^ hid_width md - 2 /\
     c_div c <> 2 ^ hid_width md - 1).
Proof.
  intros HL Hw. split; intros c Hc.
  - destruct (determine_search_spec md parents req) as (Hf & _).
    rewrite Forall_forall in Hf. specialize (Hf c Hc).
    pose proof (turn_in_div _ _ _ _ _ HL Hw Hf). lia.
  - destruct (set_rate_search_spec md parents rate0) as (Hf & _).
    rewrite Forall_forall in Hf. specialize (Hf c Hc).
    pose proof (turn_in_div _ _ _ _ _ HL Hw Hf). lia.
Qed.

(** ** The order of the turns and the end of a search *)

Lemma best_after_snoc req l c :
  best_after req (l ++ [c]) =
  if is_better_rate req (best_after req l) (c_rate c) then c_rate c
  else best_after req l.
Proof.
  unfold best_after. rewrite map_app. cbn [map]. apply pick_rate_snoc.
Qed.

Lemma turns_chained_snoc md req l c' :
  turns_chained md req l ->
  (forall pre c, l = pre ++ [c] ->
     next_turn md req (best_after req l) c (c_parent c') (c_div c')) ->
  turns_chained md req (l ++ [c']).
Proof.
  unfold turns_chained. intros Hl Hlast pre c c'' post E.
  destruct (exists_last (l := c'' :: post) ltac:(discriminate))
    as (post' & x & Hp).
  destruct post' as [|y post'].
  - cbn [app] in Hp. injection Hp as Hx Hpost. subst x post.
    change (pre ++ [c; c'']) with (pre ++ [c] ++ [c'']) in E.
    rewrite app_assoc in E. apply app_inj_tail in E.
    destruct E as [El Ec]. subst l c''. apply (Hlast pre c). reflexivity.
  - cbn [app] in Hp. injection Hp as Hy Hpost. subst y. rewrite Hpost in E.
    change (pre ++ c :: c'' :: post' ++ [x])
      with (pre ++ (c :: c'' :: post') ++ [x]) in E.
    rewrite app_assoc in E. apply app_inj_tail in E.
    destruct E as [El _]. apply (Hl pre c c'' post'). exact El.
Qed.

Lemma determine_divs_run md req i p : forall m a s,
  Z.of_nat (a + m) = max_div md ->
  dr_best_rate s = best_after req (dr_tried s) ->
  turns_chained md req (dr_tried s) ->
  (forall pre c, dr_tried s = pre ++ [c] ->
     next_turn md req (dr_best_rate s) c i (Z.of_nat a)) ->
  (0 < m)%nat ->
  let s' := determine_divs req i p (map Z.of_nat (seq a m)) s in
  dr_best_rate s' = best_after req (dr_tried s') /\
  turns_chained md req (dr_tried s') /\
  (exists pre c,
     dr_tried s' = pre ++ [c] /\ c_parent c = i /\
     (breaks req (dr_best_rate s') c \/ max_div md <= c_div c + 1)) /\
  (exists c post,
     dr_tried s' = dr_tried s ++ c :: post /\ c_parent c = i /\
     c_div c = Z.of_nat a).
Proof.
  induction m as [|m IH]; intros a s Hend Hb Hch Hentry Hm; [lia|].
  cbn [seq map determine_divs]. cbv zeta.
  set (asked := mult_frac req (Z.of_nat a) 2).
  set (prate := clk_hw_round_rate p asked).
  set (actual := mult_frac prate 2 (Z.of_nat a)).
  set (c0 := {| c_parent := i; c_div := Z.of_nat a; c_asked := asked;
                c_parent_rate := prate; c_rate := actual |}).
  set (s1 := if is_better_rate req (dr_best_rate s) actual
             then {| dr_best_rate := actual;
                     dr_req := {| rate := actual; best_parent_rate := prate;
                                  best_parent_hw := Some i |};
                     dr_tried := dr_tried s ++ [c0] |}
             else {| dr_best_rate := dr_best_rate s; dr_req := dr_req s;
                     dr_tried := dr_tried s ++ [c0] |}).
  assert (Ht1 : dr_tried s1 = dr_tried s ++ [c0])
    by (unfold s1; destruct (is_better_rate _ _ _); reflexivity).
  assert (Hb1 : dr_best_rate s1 = best_after req (dr_tried s1)).
  { rewrite Ht1, best_after_snoc, <- Hb. cbn [c_rate c0]. unfold s1.
    destruct (is_better_rate _ _ _); reflexivity. }
  assert (Hch1 : turns_chained md req (dr_tried s1)).
  { rewrite Ht1. apply turns_chained_snoc; [exact Hch|].
    intros pre c E. rewrite <- Hb. apply (Hentry pre c E). }
  destruct ((actual <? req) || (dr_best_rate s1 <=? req)) eqn:Hg.
  - split; [exact Hb1|]. split; [exact Hch1|]. split.
    + exists (dr_tried s), c0. split; [exact Ht1|]. split; [reflexivity|].
      left. unfold breaks. cbn [c_rate c0].
      apply orb_true_iff in Hg. destruct Hg as [Hg|Hg];
        [left; apply Z.ltb_lt; exact Hg|right; apply Z.leb_le; exact Hg].
    + exists c0, []. split; [exact Ht1|]. split; reflexivity.
  - apply orb_false_iff in Hg. destruct Hg as [Hg1 Hg2].
    apply Z.ltb_ge in Hg1. apply Z.leb_gt in Hg2.
    destruct m as [|m].
    + cbn [seq map determine_divs].
      split; [exact Hb1|]. split; [exact Hch1|]. split.
      * exists (dr_tried s), c0. split; [exact Ht1|]. split; [reflexivity|].
        right. cbn [c_div c0]. lia.
      * exists c0, []. split; [exact Ht1|]. split; reflexivity.
    + destruct (IH (S a) s1) as (Hb' & Hch' & Hlast & c & post & Ht' & _);
        [lia|exact Hb1|exact Hch1| |lia|].
      { intros pre c E. rewrite Ht1 in E. apply app_inj_tail in E.
        destruct E as [_ <-]. left. unfold breaks. cbn [c_rate c_div c_parent c0].
        split; [lia|]. split; [lia|]. split; [reflexivity|lia]. }
      split; [exact Hb'|]. split; [exact Hch'|]. split; [exact Hlast|].
      exists c0, (c :: post). split; [|split; reflexivity].
      rewrite Ht', Ht1, <- app_assoc. reflexivity.
Qed.

Lemma determine_parents_run md req parents : forall i s,
  dr_best_rate s = best_after req (dr_tried s) ->
  turns_chained md req (dr_tried s) ->
  (forall pre c, dr_tried s = pre ++ [c] ->
     S (c_parent c) = i /\
     (breaks req (dr_best_rate s) c \/ max_div md <= c_div c + 1)) ->
  (forall c post, dr_tried s = c :: post ->
     c_parent c = 0%nat /\ c_div c = 1) ->
  (dr_tried s = [] -> i = 0%nat \/ max_div md <= 1) ->
  (max_div md <= 1 -> dr_tried s = []) ->
  let s' := determine_parents md req i parents s in
  dr_best_rate s' = best_after req (dr_tried s') /\
  turns_chained md req (dr_tried s') /\
  (forall pre c, dr_tried s' = pre ++ [c] ->
     S (c_parent c) = (i + length parents)%nat /\
     (breaks req (dr_best_rate s') c \/ max_div md <= c_div c + 1)) /\
  (forall c post, dr_tried s' = c :: post ->
     c_parent c = 0%nat /\ c_div c = 1) /\
  (dr_tried s' = [] -> (i + length parents = 0)%nat \/ max_div md <= 1).
Proof.
  induction parents as [|p rest IH]; intros i s Hb Hch Hlast Hhead He Hz.
  - cbn [determine_parents length]. cbv zeta. rewrite Nat.add_0_r.
    split; [exact Hb|]. split; [exact Hch|]. split; [exact Hlast|].
    split; [exact Hhead|exact He].
  - cbn [determine_parents length]. cbv zeta.
    replace (i + S (length rest))%nat with (S i + length rest)%nat by lia.
    destruct (Z_le_gt_dec (max_div md) 1) as [Hs|Hs].
    + assert (Hd : div_range md = []).
      { unfold div_range. replace (Z.to_nat (max_div md - 1)) with 0%nat by lia.
        reflexivity. }
      rewrite Hd. cbn [determine_divs].
      destruct (IH (S i) s) as (R1 & R2 & R3 & R4 & R5); try assumption.
      * intros pre c E. rewrite (Hz Hs) in E. destruct pre; discriminate E.
      * intros _. right. exact Hs.
      * auto.
    + unfold div_range.
      destruct (determine_divs_run md req i p (Z.to_nat (max_div md - 1)) 1 s)
        as (Hb1 & Hch1 & (pre1 & c1 & Ht1 & Hp1 & Hstop1)
            & c2 & post2 & Ht2 & Hp2 & Hd2);
        [lia|exact Hb|exact Hch| |lia|].
      { intros pre c E. destruct (Hlast pre c E) as [Hi Hstop].
        right. split; [exact Hstop|]. split; [lia|reflexivity]. }
      set (s1 := determine_divs req i p
                   (map Z.of_nat (seq 1 (Z.to_nat (max_div md - 1)))) s) in *.
      destruct (IH (S i) s1) as (R1 & R2 & R3 & R4 & R5);
        [exact Hb1|exact Hch1| | | | |auto].
      * intros pre c E. rewrite Ht1 in E. apply app_inj_tail in E.
        destruct E as [_ <-]. split; [lia|exact Hstop1].
      * intros c post E. rewrite Ht2 in E.
        destruct (dr_tried s) as [|c' l] eqn:Es.
        -- cbn [app] in E. injection E as <- _.
           destruct (He eq_refl) as [->|Hbad]; [|lia].
           split; [exact Hp2|exact Hd2].
        -- cbn [app] in E. injection E as <- _. apply (Hhead c' l eq_refl).
      * intros E. rewrite Ht1 in E. destruct pre1; discriminate E.
      * intros Hbad. lia.
Qed.

(** ** What the search returns *)

(** C6, as amended: a new rate replaces the best one exactly when
    [req <= new < best] or [best < req /\ best < new]; so, for a request
    above 0, [mux_div_determine_rate] returns the least rate that is at
    least the request among the rates its search tried when there is one,
    and otherwise the greatest rate it tried, failing with [-EINVAL] when
    no rate it tried is above 0.  Every rate tried is that of a parent and
    of a divider of the range of the loop.  The turns tried are those of
    the two loops and no other: the first is divider 1 of parent 0; after a
    turn comes the next divider of the same parent when the rate of the
    turn is at least the request, the best rate is still above the request
    and a divider is left below [max_div], and divider 1 of the next parent
    otherwise; the search of a parent so stops at the first divider whose
    rate is below the request or after which the best rate is at most the
    request; and the last turn is one of the last parent at which the
    search of that parent stops. *)
Theorem determine_rate_picks md parents req :
  0 < rate req ->
  let s := determine_search md parents req in
  let rates := map c_rate (dr_tried s) in
  (forall best new,
     is_better_rate (rate req) best new = true <->
     (rate req <= new /\ new < best) \/ (best < rate req /\ best < new)) /\
  Forall (turn_in md (rate req) 0 parents) (dr_tried s) /\
  ((exists r, In r rates /\ rate req <= r) ->
   exists rq,
     mux_div_determine_rate md parents req = (0, rq) /\
     In (rate rq) rates /\ rate req <= rate rq /\
     forall r, In r rates -> rate req <= r -> rate rq <= r) /\
  ((forall r, In r rates -> r < rate req) ->
   (exists rq,
      mux_div_determine_rate md parents req = (0, rq) /\
      In (rate rq) rates /\ rate rq < rate req /\
      forall r, In r rates -> r <= rate rq) \/
   (fst (mux_div_determine_rate md parents req) = - EINVAL /\
    forall r, In r rates -> r <= 0)) /\
  (forall c post, dr_tried s = c :: post ->
     c_parent c = 0%nat /\ c_div c = 1) /\
  (forall pre c c' post, dr_tried s = pre ++ c :: c' :: post ->
     let best := best_after (rate req) (pre ++ [c]) in
     (rate req <= c_rate c /\ rate req < best /\ c_div c + 1 < max_div md ->
      c_parent c' = c_parent c /\ c_div c' = c_div c + 1) /\
     (c_rate c < rate req \/ best <= rate req \/ max_div md <= c_div c + 1 ->
      c_parent c' = S (c_parent c) /\ c_div c' = 1)) /\
  (forall pre c, dr_tried s = pre ++ [c] ->
     S (c_parent c) = length parents /\
     (c_rate c < rate req \/ dr_best_rate s <= rate req \/
      max_div md <= c_div c + 1)) /\
  dr_best_rate s = best_after (rate req) (dr_tried s) /\
  (parents <> [] -> 1 < max_div md -> dr_tried s <> []).
Proof.
  intros Hreq s rates.
  destruct (determine_parents_run md (rate req) parents 0
              {| dr_best_rate := 0; dr_req := req; dr_tried := [] |})
    as (Rb & Rch & Rlast & Rhead & Rnil);
    [reflexivity
    |intros pre c c' post E; destruct pre; discriminate E
    |intros pre c E; destruct pre; discriminate E
    |intros c post E; discriminate E
    |intros _; left; reflexivity
    |reflexivity|].
  fold (determine_search md parents req) in Rb, Rch, Rlast, Rhead, Rnil.
  fold s in Rb, Rch, Rlast, Rhead, Rnil.
  destruct (determine_search_spec md parents req) as (Hf & Hb & Hr).
  fold s in Hf, Hb, Hr. fold rates in Hb.
  pose proof (pick_rate_picked (rate req) rates Hreq) as Hp.
  rewrite <- Hb in Hp.
  split; [intros best new; apply is_better_rate_spec|].
  split; [exact Hf|].
  unfold mux_div_determine_rate. fold s.
  split; [|split; [|split; [|split; [|split; [|split]]]]].
  - intros (r & Hin & Hge).
    destruct Hp as [(Hge' & Hin' & Hmin)|(Hlt & _ & _ & Hmax)];
      [|specialize (Hmax r Hin); lia].
    assert (Hnz : dr_best_rate s <> 0) by lia.
    apply Z.eqb_neq in Hnz. rewrite Hnz.
    apply Z.eqb_neq in Hnz.
    destruct Hr as [[_ Hz]|Hr]; [contradiction|].
    exists (dr_req s). rewrite Hr. auto.
  - intros Hall.
    destruct Hp as [(Hge' & Hin' & _)|(Hlt & Hin' & Hpos & Hmax)];
      [specialize (Hall _ Hin'); lia|].
    destruct (Z.eqb_spec (dr_best_rate s) 0) as [Hz|Hnz].
    + right. split; [reflexivity|]. rewrite <- Hz. exact Hmax.
    + left. destruct Hr as [[_ Hz]|Hr]; [contradiction|].
      destruct Hin' as [Hz|Hin']; [contradiction|].
      exists (dr_req s). rewrite Hr. auto.
  - exact Rhead.
  - intros pre c c' post E. cbv zeta.
    pose proof (Rch pre c c' post E) as Hn.
    unfold next_turn, breaks in Hn. split; intros Hc.
    + destruct Hn as [(_ & _ & -> & ->)|(Hstop & _)]; [auto|lia].
    + destruct Hn as [(Hgo & Hlt & _)|(_ & -> & ->)]; [lia|auto].
  - intros pre c E. destruct (Rlast pre c E) as [Hi Hstop].
    split; [exact Hi|]. unfold breaks in Hstop. tauto.
  - exact Rb.
  - intros Hne Hmax E. destruct (Rnil E) as [Hl|Hl]; [|lia].
    destruct parents; [contradiction|discriminate Hl].
Qed.

(** ** A parent that rounds every rate to itself *)

Lemma mult_frac_half x :
  32 <= BITS_PER_LONG -> 0 <= x < 2 ^ 32 -> mult_frac x 1 2 = x / 2.
Proof.
  intros HL Hx. unfold mult_frac. cbv zeta. rewrite !Z.mul_1_r.
  assert (0 <= x / 2 < 2 ^ 32)
    by (split; [apply Z.div_pos; lia|apply Z.div_lt_upper_bound; lia]).
  assert (0 <= x mod 2 < 2) by (apply Z.mod_pos_bound; lia).
  rewrite (ulong_small (x / 2)) by assumption.
  rewrite (ulong_small (x mod 2)) by lia.
  rewrite (Z.div_small (x mod 2) 2) by lia.
  rewrite Z.add_0_r. apply ulong_small; assumption.
Qed.

Lemma mult_frac_double x :
  32 <= BITS_PER_LONG -> 0 <= x < 2 ^ 31 -> mult_frac x 2 1 = 2 * x.
Proof.
  intros HL Hx. unfold mult_frac. cbv zeta.
  rewrite Z.div_1_r, Z.mod_1_r, Z.mul_0_l.
  rewrite (ulong_small 0) by lia. rewrite Z.div_1_r, Z.add_0_r.
  rewrite (ulong_small (x * 2)) by lia.
  rewrite ulong_small by lia. lia.
Qed.

(** [mult_frac] is the product over the denominator when nothing leaves
    the word. *)
Lemma mult_frac_exact x numer denom :
  0 <= BITS_PER_LONG -> 0 <= x -> 0 <= numer -> 0 < denom ->
  x / denom * numer + x mod denom * numer < 2 ^ BITS_PER_LONG ->
  mult_frac x numer denom = x * numer / denom.
Proof.
  intros HL Hx Hn Hd Hfit. unfold mult_frac. cbv zeta.
  assert (Hq : 0 <= x / denom) by (apply Z.div_pos; lia).
  assert (Hr : 0 <= x mod denom < denom) by (apply Z.mod_pos_bound; lia).
  assert (Hqn : 0 <= x / denom * numer) by (apply Z.mul_nonneg_nonneg; lia).
  assert (Hrn : 0 <= x mod denom * numer) by (apply Z.mul_nonneg_nonneg; lia).
  assert (Hrd : 0 <= x mod denom * numer / denom <= x mod denom * numer).
  { split; [apply Z.div_pos; lia|].
    apply Z.div_le_upper_bound; [lia|]. nia. }
  unfold ulong. rewrite (wrap_small _ (x / denom * numer)) by lia.
  rewrite (wrap_small _ (x mod denom * numer)) by lia.
  rewrite wrap_small by lia.
  rewrite (Z.div_mod x denom) at 3 by lia.
  replace ((denom * (x / denom) + x mod denom) * numer)
    with (x / denom * numer * denom + x mod denom * numer) by ring.
  rewrite Z.div_add_l by lia. reflexivity.
Qed.

(** With one parent that rounds every rate to itself, the search stops at
    divider 1: the parent is asked for half the request, and the rate is
    the request rounded down to an even number. *)
Lemma determine_search_exact md p req :
  32 <= BITS_PER_LONG -> 2 <= hid_width md < 32 ->
  (forall r, round_rate p r = r) -> 2 <= rate req < 2 ^ 32 ->
  determine_search md [p] req =
  {| dr_best_rate := 2 * (rate req / 2);
     dr_req := {| rate := 2 * (rate req / 2);
                  best_parent_rate := rate req / 2;
                  best_parent_hw := Some 0%nat |};
     dr_tried := [{| c_parent := 0; c_div := 1; c_asked := rate req / 2;
                     c_parent_rate := rate req / 2;
                     c_rate := 2 * (rate req / 2) |}] |}.
Proof.
  intros HL Hw Hp Hreq.
  assert (Hmd : 2 <= max_div md).
  { rewrite max_div_small by lia.
    assert (2 ^ 2 <= 2 ^ hid_width md) by (apply Z.pow_le_mono_r; lia). lia. }
  unfold determine_search. cbn [determine_parents].
  rewrite (div_range_cons md Hmd). cbn [determine_divs]. cbv zeta.
  cbn [dr_best_rate dr_req dr_tried app].
  assert (Hh : 1 <= rate req / 2 < 2 ^ 31).
  { split; [apply Z.div_le_lower_bound; lia|apply Z.div_lt_upper_bound; lia]. }
  assert (Hm : 2 * (rate req / 2) <= rate req)
    by (apply Z.mul_div_le; lia).
  rewrite mult_frac_half by lia.
  unfold clk_hw_round_rate. rewrite Hp.
  rewrite (ulong_small (rate req / 2)) by lia.
  rewrite mult_frac_double by lia.
  assert (Hb : is_better_rate (rate req) 0 (2 * (rate req / 2)) = true).
  { apply is_better_rate_spec. right. lia. }
  rewrite Hb. cbn [dr_best_rate].
  assert (Hbr : (2 * (rate req / 2) <=? rate req) = true)
    by (apply Z.leb_le; exact Hm).
  rewrite Hbr, orb_true_r. reflexivity.
Qed.

Lemma set_rate_search_exact md p rate0 :
  32 <= BITS_PER_LONG -> 2 <= hid_width md < 32 ->
  (forall r, round_rate p r = r) -> 2 <= rate0 < 2 ^ 32 ->
  set_rate_search md [p] rate0 =
  {| sr_best_rate := 2 * (rate0 / 2);
     sr_best_src := cfg p;
     sr_best_div := 0;
     sr_tried := [{| c_parent := 0; c_div := 1; c_asked := rate0 / 2;
                     c_parent_rate := rate0 / 2;
                     c_rate := 2 * (rate0 / 2) |}] |}.
Proof.
  intros HL Hw Hp Hreq.
  assert (Hmd : 2 <= max_div md).
  { rewrite max_div_small by lia.
    assert (2 ^ 2 <= 2 ^ hid_width md) by (apply Z.pow_le_mono_r; lia). lia. }
  unfold set_rate_search. cbn [set_rate_parents].
  rewrite (div_range_cons md Hmd). cbn [set_rate_divs]. cbv zeta.
  cbn [sr_best_rate sr_best_src sr_best_div sr_tried app].
  assert (Hh : 1 <= rate0 / 2 < 2 ^ 31).
  { split; [apply Z.div_le_lower_bound; lia|apply Z.div_lt_upper_bound; lia]. }
  assert (Hm : 2 * (rate0 / 2) <= rate0) by (apply Z.mul_div_le; lia).
  rewrite mult_frac_half by lia.
  unfold clk_hw_round_rate. rewrite Hp.
  rewrite (ulong_small (rate0 / 2)) by lia.
  rewrite mult_frac_double by lia.
  assert (Hb : is_better_rate rate0 0 (2 * (rate0 / 2)) = true).
  { apply is_better_rate_spec. right. lia. }
  rewrite Hb. cbn [sr_best_rate].
  assert (Hbr : (2 * (rate0 / 2) <=? rate0) = true)
    by (apply Z.leb_le; exact Hm).
  rewrite Hbr, orb_true_r. reflexivity.
Qed.

Context {D : Type} {RM : Regmap D}.

(** C7, as amended: for a request of 19_200_000 Hz and one parent that
    rounds every rate to itself, with a divider field of at least two bits,
    [mux_div_determine_rate] tries divider 1 only, returns the request
    itself as rate, and asks the parent for 9_600_000, the request times
    the divider over 2; [__mux_div_set_rate_and_parent] programs the
    parent's source and the divider field 0. *)
Theorem determine_rate_19200000 md p req (h : @hw D) prate sel :
  32 <= BITS_PER_LONG -> 2 <= hid_width md < 32 ->
  (forall r, round_rate p r = r) -> rate req = 19200000 ->
  mux_div_determine_rate md [p] req =
    (0, {| rate := 19200000; best_parent_rate := 9600000;
           best_parent_hw := Some 0%nat |}) /\
  dr_tried (determine_search md [p] req) =
    [{| c_parent := 0; c_div := 1; c_asked := 9600000;
        c_parent_rate := 9600000; c_rate := 19200000 |}] /\
  sr_best_div (set_rate_search md [p] 19200000) = 0 /\
  sr_best_src (set_rate_search md [p] 19200000) = cfg p /\
  sr_best_rate (set_rate_search md [p] 19200000) = 19200000 /\
  (let '(ret, md', h') :=
     __mux_div_set_rate_and_parent md [p] h 19200000 prate sel in
   (ret, h') = __mux_div_set_src_div md h (cfg p) 0 /\
   (ret = 0 -> div md' = 0 /\ src_sel md' = cfg p)).
Proof.
  intros HL Hw Hp Hreq.
  assert (Hr : 2 <= rate req < 2 ^ 32) by (rewrite Hreq; lia).
  pose proof (determine_search_exact md p req HL Hw Hp Hr) as Hs.
  assert (Hr' : 2 <= 19200000 < 2 ^ 32) by lia.
  pose proof (set_rate_search_exact md p 19200000 HL Hw Hp Hr') as Hs'.
  rewrite Hreq in Hs.
  change (19200000 / 2) with 9600000 in Hs, Hs'.
  change (2 * 9600000) with 19200000 in Hs, Hs'.
  unfold mux_div_determine_rate, __mux_div_set_rate_and_parent.
  rewrite Hs, Hs'. cbn [dr_best_rate dr_req dr_tried sr_best_div sr_best_src sr_best_rate].
  repeat (split; [reflexivity|]).
  destruct (__mux_div_set_src_div md h (cfg p) 0) as [ret h1].
  destruct (Z.eqb_spec ret 0) as [Hz|Hnz].
  - split; [reflexivity|]. intros _. split; reflexivity.
  - split; [reflexivity|]. intros Hz. contradiction.
Qed.

(** ** The poll of the update bit *)

Lemma count_events_app f l1 l2 :
  count_events f (l1 ++ l2) = (count_events f l1 + count_events f l2)%nat.
Proof. unfold count_events. rewrite filter_app, length_app. reflexivity. Qed.

Lemma count_read_poll_events md k :
  count_events is_read (poll_events md k) = k.
Proof.
  induction k as [|k IH]; [reflexivity|].
  unfold count_events in *. cbn. rewrite IH. reflexivity.
Qed.

Lemma count_update_poll_events md k :
  count_events is_update_bits (poll_events md k) = 0%nat.
Proof.
  induction k as [|k IH]; [reflexivity|].
  unfold count_events in *. cbn. exact IH.
Qed.

(** The loop makes at most [count] reads, a delay of one microsecond after
    each read that finds the bit set, and nothing else but the message of
    the time-out. *)
Lemma update_config_loop_shape md : forall count h,
  exists k tail,
    trace (snd (update_config_loop md count h)) =
      trace h ++ poll_events md k ++ tail /\
    ((tail = [EvRead (u32 (CMD_RCGR + reg_offset md))] /\ (k < count)%nat) \/
     (tail = [EvPrErr MsgDidNotUpdate] /\ k = count /\
      fst (update_config_loop md count h) = - EBUSY)).
Proof.
  induction count as [|count IH]; intros h.
  - exists 0%nat, [EvPrErr MsgDidNotUpdate]. cbn.
    split; [reflexivity|]. right. auto.
  - cbn [update_config_loop]. unfold regmap_read.
    destruct (dev_read (dev h) (u32 (CMD_RCGR + reg_offset md)))
      as [[ret val] d1].
    destruct (negb (ret =? 0)).
    + exists 0%nat, [EvRead (u32 (CMD_RCGR + reg_offset md))]. cbn.
      split; [reflexivity|]. left. split; [reflexivity|lia].
    + destruct (Z.land (u32 val) CMD_RCGR_UPDATE =? 0).
      * exists 0%nat, [EvRead (u32 (CMD_RCGR + reg_offset md))]. cbn.
        split; [reflexivity|]. left. split; [reflexivity|lia].
      * match goal with |- context [update_config_loop md count ?h1] =>
          destruct (IH h1) as (k & tail & Ht & Hcase) end.
        exists (S k), tail. rewrite Ht. cbn [udelay emit trace poll_events].
        rewrite <- !app_assoc. cbn [app].
        split; [reflexivity|].
        destruct Hcase as [[? ?]|(? & ? & ?)];
          [left; split; [assumption|lia]|right; repeat split; [assumption|lia|assumption]].
Qed.

(** When the bit stays set for every turn, the loop takes all of them and
    returns [-EBUSY]. *)
Lemma update_config_loop_pending md : forall count h,
  update_stays_pending md count (dev h) = true ->
  fst (update_config_loop md count h) = - EBUSY /\
  trace (snd (update_config_loop md count h)) =
    trace h ++ poll_events md count ++ [EvPrErr MsgDidNotUpdate].
Proof.
  induction count as [|count IH]; intros h Hp.
  - cbn. auto.
  - cbn [update_config_loop update_stays_pending] in *. unfold regmap_read.
    destruct (dev_read (dev h) (u32 (CMD_RCGR + reg_offset md)))
      as [[ret val] d1].
    apply andb_true_iff in Hp. destruct Hp as [Hp Hrest].
    apply andb_true_iff in Hp. destruct Hp as [Hret Hval].
    rewrite Hret. cbn [negb].
    apply negb_true_iff in Hval. rewrite Hval.
    match goal with |- context [update_config_loop md count ?h1] =>
      destruct (IH h1) as (He & Ht) end.
    { cbn [udelay emit dev]. exact Hrest. }
    split; [exact He|]. rewrite Ht. cbn [udelay emit trace poll_events].
    rewrite <- !app_assoc. reflexivity.
Qed.

(** C8: after the write that sets the update bit,
    [__mux_div_update_config] reads the command register at most 500
    times, with a delay of one microsecond after each read that finds the
    bit set, and writes no register again; when the bit stays set for the
    500 reads the result is [-EBUSY], after the 500 reads and delays and
    the message, and the bit is left as it is. *)
Theorem update_config_poll_bound md (h : @hw D) :
  let reg := u32 (CMD_RCGR + reg_offset md) in
  let commit := EvUpdateBits reg CMD_RCGR_UPDATE CMD_RCGR_UPDATE in
  let r := __mux_div_update_config md h in
  (exists k tail,
     trace (snd r) = trace h ++ commit :: poll_events md k ++ tail /\
     (tail = [] \/ tail = [EvRead reg] \/ tail = [EvPrErr MsgDidNotUpdate]) /\
     (count_events is_read (poll_events md k ++ tail) <= 500)%nat /\
     count_events is_update_bits (poll_events md k ++ tail) = 0%nat) /\
  (fst (dev_update_bits (dev h) reg CMD_RCGR_UPDATE CMD_RCGR_UPDATE) = 0 ->
   update_stays_pending md 500
     (snd (dev_update_bits (dev h) reg CMD_RCGR_UPDATE CMD_RCGR_UPDATE))
     = true ->
   fst r = - EBUSY /\
   trace (snd r) =
     trace h ++ commit :: poll_events md 500 ++ [EvPrErr MsgDidNotUpdate]).
Proof.
  intros reg commit r. subst r. unfold __mux_div_update_config.
  unfold regmap_update_bits. fold reg.
  destruct (dev_update_bits (dev h) reg CMD_RCGR_UPDATE CMD_RCGR_UPDATE)
    as [ret d1] eqn:Hu.
  cbn [fst snd]. split.
  - destruct (negb (ret =? 0)).
    + exists 0%nat, []. cbn. split; [reflexivity|]. split; [auto|].
      split; [lia|reflexivity].
    + match goal with |- context [update_config_loop md 500 ?h1] =>
        destruct (update_config_loop_shape md 500 h1)
          as (k & tail & Ht & Hcase) end.
      exists k, tail. rewrite Ht. cbn [emit trace].
      rewrite <- app_assoc. cbn [app]. split; [reflexivity|].
      rewrite !count_events_app, count_read_poll_events,
        count_update_poll_events.
      destruct Hcase as [[Htl Hk]|(Htl & Hk & _)]; subst tail.
      * split; [auto|]. cbn. split; [lia|reflexivity].
      * split; [auto|]. cbn. split; [lia|reflexivity].
  - intros Hret Hp. rewrite Hret. cbn [negb Z.eqb].
    match goal with |- context [update_config_loop md 500 ?h1] =>
      destruct (update_config_loop_pending md 500 h1) as (He & Ht) end.
    { cbn [emit dev]. exact Hp. }
    split; [exact He|]. rewrite Ht. cbn [emit trace].
    rewrite <- app_assoc. reflexivity.
Qed.

(** ** Reading the configuration back *)

(** With the dirty bit set, [__mux_div_get_src_div] logs and writes nothing
    through its pointers, and [mux_div_recalc_rate] goes on with what its
    locals [src] and [div] held at entry. *)
Lemma recalc_rate_pending md parents (h : @hw D) src0 div0 :
  let reg := u32 (CMD_RCGR + reg_offset md) in
  Z.land (u32 (snd (fst (dev_read (dev h) reg)))) CMD_RCGR_DIRTY_CFG <> 0 ->
  let h1 := pr_err (emit (EvRead reg) (snd (dev_read (dev h) reg)) h)
                   MsgPending in
  mux_div_recalc_rate md parents h (src0, div0) =
  match recalc_find parents src0 div0 with
  | Some r => (r, h1)
  | None => (Some 0, pr_err h1 (MsgNoParent src0))
  end.
Proof.
  intros reg Hd h1. subst h1.
  unfold mux_div_recalc_rate, __mux_div_get_src_div, regmap_read.
  fold reg. destruct (dev_read (dev h) reg) as [[ret val] d1].
  cbn [fst snd] in *. apply Z.eqb_neq in Hd. rewrite Hd. cbn [negb].
  reflexivity.
Qed.

Lemma recalc_find_none parents src dv :
  (forall p, In p parents -> cfg p <> src) ->
  recalc_find parents src dv = None.
Proof.
  induction parents as [|p rest IH]; intros H; [reflexivity|].
  cbn [recalc_find].
  assert (Hp : cfg p <> src) by (apply H; left; reflexivity).
  destruct (Z.eqb_spec src (cfg p)) as [He|_]; [congruence|].
  apply IH. intros q Hq. apply H. right. exact Hq.
Qed.

(** With the dirty bit clear and a source field that is the [cfg] of no
    parent, [mux_div_recalc_rate] logs and returns 0. *)
Lemma recalc_rate_unknown_source md parents (h : @hw D) locals :
  let reg := u32 (CMD_RCGR + reg_offset md) in
  let creg := u32 (CFG_RCGR + reg_offset md) in
  let '(_, val, d1) := dev_read (dev h) reg in
  let '(_, cval, d2) := dev_read d1 creg in
  let src :=
    u32 (Z.land (u32 (Z.shiftr (u32 cval) (src_shift md)))
                (ulong (BIT (src_width md) - 1))) in
  Z.land (u32 val) CMD_RCGR_DIRTY_CFG = 0 ->
  (forall p, In p parents -> cfg p <> src) ->
  mux_div_recalc_rate md parents h locals =
  (Some 0, {| dev := d2;
              trace := trace h ++
                       [EvRead reg; EvRead creg; EvPrErr (MsgNoParent src)] |}).
Proof.
  intros reg creg.
  destruct (dev_read (dev h) reg) as [[ret val] d1] eqn:H1.
  destruct (dev_read d1 creg) as [[cret cval] d2] eqn:H2.
  intros src Hclean Hnone.
  unfold mux_div_recalc_rate, __mux_div_get_src_div, regmap_read.
  fold reg creg. rewrite H1. rewrite Hclean. cbn [Z.eqb negb emit dev].
  rewrite H2. fold src.
  rewrite (recalc_find_none parents src _ Hnone).
  unfold pr_err, emit. cbn [dev trace]. rewrite <- !app_assoc.
  reflexivity.
Qed.

(** A divider field of [0xFFFFFFFF], which only a stale local can hold,
    makes [div + 1] wrap to 0: the division is undefined. *)
Lemma recalc_rate_of_wraps parent_rate :
  recalc_rate_of parent_rate (2 ^ 32 - 1) = None.
Proof. reflexivity. Qed.

Lemma recalc_rate_of_defined parent_rate dv :
  0 <= dv < 2 ^ 32 - 1 ->
  recalc_rate_of parent_rate dv = Some (mult_frac parent_rate 2 (dv + 1)).
Proof.
  intros H. unfold recalc_rate_of. rewrite (u32_small (dv + 1)) by lia.
  destruct (Z.eqb_spec (dv + 1) 0); [lia|reflexivity].
Qed.

End DriverProperties.

(** ** The rate engine on concrete platforms *)

Lemma divider_search_range_witness :
  1 <= 1 <= 2 ^ 5 - 2 /\ 1 <> 2 ^ 5 - 1.
Proof.
  apply (proj1 (divider_search_range (K := arm64) md5
                  [exact_parent 0 19200000] (request 19200000) 19200000
                  ltac:(cbn; lia) ltac:(cbn; lia))
               {| c_parent := 0; c_div := 1; c_asked := 9600000;
                  c_parent_rate := 9600000; c_rate := 19200000 |}).
  vm_compute. left. reflexivity.
Defined.

(** C6, counterexample: with one parent that rounds every rate to itself
    and a request of 3 Hz, the rate 3 is within the search space (divider
    2) and yet [mux_div_determine_rate] returns the rate 2, on a 32-bit as
    on a 64-bit kernel. *)
Lemma determine_rate_misses_achievable :
  (achievable (K := arm64) md5 [exact_parent 0 100] 3 3 /\
   mux_div_determine_rate (K := arm64) md5 [exact_parent 0 100] (request 3) =
     (0, {| rate := 2; best_parent_rate := 1; best_parent_hw := Some 0%nat |})) /\
  (achievable (K := arm32) md5 [exact_parent 0 100] 3 3 /\
   mux_div_determine_rate (K := arm32) md5 [exact_parent 0 100] (request 3) =
     (0, {| rate := 2; best_parent_rate := 1; best_parent_hw := Some 0%nat |})).
Proof.
  split; (split; [|vm_compute; reflexivity]);
    exists 0%nat, (exact_parent 0 100), 2;
    (split; [reflexivity|]); (split; [vm_compute; tauto|vm_compute; reflexivity]).
Qed.

Lemma determine_rate_picks_witness :
  exists rq,
    mux_div_determine_rate (K := arm64) md5 [exact_parent 0 100] (request 4)
      = (0, rq) /\ 4 <= rate rq.
Proof.
  destruct (determine_rate_picks (K := arm64) md5 [exact_parent 0 100]
              (request 4) ltac:(cbn; lia)) as (_ & _ & Hge & _).
  destruct Hge as (rq & Hrq & _ & Hle & _).
  - exists 4. split; [vm_compute; left; reflexivity|cbn; lia].
  - exists rq. split; assumption.
Defined.

(** C7, counterexample: for the request of 19_200_000 Hz the one rate asked
    of the parent is 9_600_000, not 19_200_000. *)
Lemma determine_rate_asks_half :
  map c_asked (dr_tried (determine_search (K := arm64) md5
                           [exact_parent 0 19200000] (request 19200000)))
    = [9600000] /\
  map c_asked (dr_tried (determine_search (K := arm32) md5
                           [exact_parent 0 19200000] (request 19200000)))
    = [9600000] /\
  best_parent_rate
    (snd (mux_div_determine_rate (K := arm64) md5
            [exact_parent 0 19200000] (request 19200000))) <> 19200000.
Proof.
  split; [vm_compute; reflexivity|].
  split; [vm_compute; reflexivity|].
  vm_compute. discriminate.
Qed.

Lemma determine_rate_19200000_witness :
  mux_div_determine_rate (K := arm64) md5 [exact_parent 7 19200000]
    (request 19200000) =
  (0, {| rate := 19200000; best_parent_rate := 9600000;
         best_parent_hw := Some 0%nat |}).
Proof.
  apply (proj1 (determine_rate_19200000 (K := arm64) md5
                  (exact_parent 7 19200000) (request 19200000)
                  (idle_rcg [] (Some 3%nat)) 0 0
                  ltac:(cbn; lia) ltac:(cbn; lia)
                  (fun r => eq_refl) eq_refl)).
Defined.

Lemma update_config_poll_bound_witness :
  fst (__mux_div_update_config (K := arm64) md5 (idle_rcg [] None)) = -16.
Proof.
  apply (proj2 (update_config_poll_bound (K := arm64) md5 (idle_rcg [] None)));
    vm_compute; reflexivity.
Defined.

(** C9, failing input: the command register has the dirty bit set and the
    local [src] holds 0, the [cfg] of the first parent; [div] holds 0.
    [mux_div_recalc_rate] logs that the configuration is pending and returns
    twice the rate of that parent, not 0. *)
Theorem recalc_rate_pending_stale_source :
  mux_div_recalc_rate (K := arm64) md5 [exact_parent 0 100]
    (idle_rcg [(CMD_RCGR, CMD_RCGR_DIRTY_CFG)] None) (0, 0) =
  (Some 200, {| dev := {| rcg_regs := [(CMD_RCGR, CMD_RCGR_DIRTY_CFG)];
                          rcg_latency := None |};
                trace := [EvRead 0; EvPrErr MsgPending] |}) /\
  mux_div_recalc_rate (K := arm32) md5 [exact_parent 0 100]
    (idle_rcg [(CMD_RCGR, CMD_RCGR_DIRTY_CFG)] None) (0, 0) =
  (Some 200, {| dev := {| rcg_regs := [(CMD_RCGR, CMD_RCGR_DIRTY_CFG)];
                          rcg_latency := None |};
                trace := [EvRead 0; EvPrErr MsgPending] |}).
Proof. split; vm_compute; reflexivity. Qed.

(** * Properties of the SCM transport *)

(** ** Blocks of bytes *)

Lemma zlength_nonneg {A : Type} (l : list A) : 0 <= zlength l.
Proof. unfold zlength. lia. Qed.

Lemma zlength_le32_bytes v : zlength (le32_bytes v) = 4.
Proof. reflexivity. Qed.

Lemma le32_value_bytes v : 0 <= v < 2 ^ 32 -> le32_value (le32_bytes v) = v.
Proof.
  intros Hv. unfold le32_value, le32_bytes.
  pose proof (Z.div_mod v 256 ltac:(lia)) as H0.
  pose proof (Z.div_mod (v / 256) 256 ltac:(lia)) as H1.
  pose proof (Z.div_mod (v / 256 / 256) 256 ltac:(lia)) as H2.
  rewrite Z.div_div in H1, H2 by lia.
  change (256 * 256) with 65536 in *.
  rewrite Z.div_div in H2 by lia.
  change (65536 * 256) with 16777216 in *.
  assert (H3 : 0 <= v / 16777216 < 256)
    by (split; [apply Z.div_pos; lia|apply Z.div_lt_upper_bound; lia]).
  rewrite (Z.mod_small (v / 16777216) 256) by exact H3.
  lia.
Qed.

Lemma store_bytes_inv m off bs m' :
  store_bytes m off bs = Some m' ->
  0 <= off /\ off + zlength bs <= zlength m /\
  m' = firstn (Z.to_nat off) m ++ bs ++
       skipn (Z.to_nat off + length bs) m.
Proof.
  unfold store_bytes. intros H.
  destruct (Z.leb_spec 0 off); [|discriminate].
  destruct (Z.leb_spec (off + zlength bs) (zlength m)); [|discriminate].
  cbn in H. injection H as H. subst m'.
  split; [assumption|]. split; [assumption|].
  unfold zlength. rewrite Z2Nat.inj_add, Nat2Z.id by lia. reflexivity.
Qed.

Lemma store_bytes_fits m off bs :
  0 <= off -> off + zlength bs <= zlength m ->
  exists m', store_bytes m off bs = Some m'.
Proof.
  intros H1 H2. unfold store_bytes.
  destruct (Z.leb_spec 0 off); [|lia].
  destruct (Z.leb_spec (off + zlength bs) (zlength m)); [|lia].
  cbn. eexists. reflexivity.
Qed.

Lemma store_bytes_length m off bs m' :
  store_bytes m off bs = Some m' -> zlength m' = zlength m.
Proof.
  intros H. apply store_bytes_inv in H. destruct H as (H0 & H1 & ->).
  unfold zlength in *. rewrite !length_app, length_firstn, length_skipn. lia.
Qed.

Lemma load_bytes_inv m off n bs :
  load_bytes m off n = Some bs ->
  0 <= off /\ 0 <= n /\ off + n <= zlength m /\
  bs = firstn (Z.to_nat n) (skipn (Z.to_nat off) m).
Proof.
  unfold load_bytes. intros H.
  destruct (Z.leb_spec 0 off); [|discriminate].
  destruct (Z.leb_spec 0 n); [|discriminate].
  destruct (Z.leb_spec (off + n) (zlength m)); [|discriminate].
  cbn in H. injection H as H. auto.
Qed.

Lemma load_bytes_fits m off n :
  0 <= off -> 0 <= n -> off + n <= zlength m ->
  load_bytes m off n = Some (firstn (Z.to_nat n) (skipn (Z.to_nat off) m)).
Proof.
  intros H1 H2 H3. unfold load_bytes.
  destruct (Z.leb_spec 0 off); [|lia].
  destruct (Z.leb_spec 0 n); [|lia].
  destruct (Z.leb_spec (off + n) (zlength m)); [|lia].
  reflexivity.
Qed.

(** A read of what was just written gives it back. *)
Lemma load_store_same m off bs m' :
  store_bytes m off bs = Some m' ->
  load_bytes m' off (zlength bs) = Some bs.
Proof.
  intros H. pose proof (store_bytes_length _ _ _ _ H) as Hl.
  apply store_bytes_inv in H. destruct H as (H0 & H1 & Hm).
  pose proof (zlength_nonneg bs).
  rewrite load_bytes_fits by lia. f_equal. subst m'.
  unfold zlength in *. rewrite Nat2Z.id.
  rewrite skipn_app, length_firstn.
  replace (Z.to_nat off - Nat.min (Z.to_nat off) (length m))%nat with 0%nat by lia.
  rewrite skipn_all2 by (rewrite length_firstn; lia).
  cbn [app skipn]. rewrite firstn_app, firstn_all, Nat.sub_diag.
  cbn [firstn]. apply app_nil_r.
Qed.

(** A read below a write is not changed by it. *)
Lemma load_store_before m off bs m' o n :
  store_bytes m off bs = Some m' -> o + n <= off ->
  load_bytes m' o n = load_bytes m o n.
Proof.
  intros H Hb. pose proof (store_bytes_length _ _ _ _ H) as Hl.
  apply store_bytes_inv in H. destruct H as (H0 & H1 & Hm).
  pose proof (zlength_nonneg bs).
  unfold load_bytes. rewrite Hl.
  destruct ((0 <=? o) && (0 <=? n) && (o + n <=? zlength m)) eqn:Hc;
    [|reflexivity].
  apply andb_true_iff in Hc. destruct Hc as [Hc Hc3].
  apply andb_true_iff in Hc. destruct Hc as [Hc1 Hc2].
  apply Z.leb_le in Hc1, Hc2, Hc3.
  f_equal. subst m'. unfold zlength in *.
  rewrite skipn_app, length_firstn.
  replace (Z.to_nat o - Nat.min (Z.to_nat off) (length m))%nat with 0%nat by lia.
  cbn [skipn]. rewrite firstn_app.
  rewrite length_skipn, length_firstn.
  replace (Z.to_nat n - (Nat.min (Z.to_nat off) (length m) - Z.to_nat o))%nat
    with 0%nat by lia.
  cbn [firstn]. rewrite app_nil_r.
  rewrite !firstn_skipn_comm, firstn_firstn.
  replace (Nat.min (Z.to_nat o + Z.to_nat n) (Z.to_nat off))
    with (Z.to_nat o + Z.to_nat n)%nat by lia.
  reflexivity.
Qed.

(** A read above a write is not changed by it. *)
Lemma load_store_after m off bs m' o n :
  store_bytes m off bs = Some m' -> off + zlength bs <= o ->
  load_bytes m' o n = load_bytes m o n.
Proof.
  intros H Hb. pose proof (store_bytes_length _ _ _ _ H) as Hl.
  apply store_bytes_inv in H. destruct H as (H0 & H1 & Hm).
  pose proof (zlength_nonneg bs).
  unfold load_bytes. rewrite Hl.
  destruct ((0 <=? o) && (0 <=? n) && (o + n <=? zlength m)) eqn:Hc;
    [|reflexivity].
  f_equal. f_equal. subst m'. unfold zlength in *.
  rewrite app_assoc, skipn_app.
  rewrite skipn_all2 by (rewrite length_app, length_firstn; lia).
  cbn [app]. rewrite length_app, length_firstn, skipn_skipn.
  f_equal. lia.
Qed.

Lemma load_bytes_zeros size o n :
  0 <= o -> 0 <= n -> o + n <= size ->
  load_bytes (repeat 0 (Z.to_nat size)) o n = Some (repeat 0 (Z.to_nat n)).
Proof.
  intros Ho Hn Hs.
  rewrite load_bytes_fits
    by (unfold zlength; rewrite ?repeat_length; lia).
  f_equal.
  replace (Z.to_nat size)
    with (Z.to_nat o + (Z.to_nat n + (Z.to_nat size - Z.to_nat o - Z.to_nat n)))%nat
    by lia.
  rewrite !repeat_app.
  rewrite skipn_app, skipn_all2 by (rewrite repeat_length; lia).
  rewrite repeat_length, Nat.sub_diag. cbn [app skipn].
  rewrite firstn_app, repeat_length, Nat.sub_diag.
  rewrite firstn_all2 by (rewrite repeat_length; lia).
  cbn [firstn]. apply app_nil_r.
Qed.

Section ScmProperties.

Context {FW : Type} {E : ScmEnv FW}.

Notation "x <- m ;; k" := (bind m (fun x => k))
  (at level 61, m at next level, right associativity).
Notation "m ;; k" := (bind m (fun _ => k))
  (at level 61, right associativity).

(** ** The page size *)

Lemma PAGE_SIZE_pow2 : 0 <= PAGE_SHIFT < 32 -> PAGE_SIZE = 2 ^ PAGE_SHIFT.
Proof.
  intros H. unfold PAGE_SIZE. rewrite Z.shiftl_1_l. apply u32_small.
  split; [apply Z.pow_nonneg; lia|apply Z.pow_lt_mono_r; lia].
Qed.

Lemma land_lnot_ones x k :
  0 <= k -> 0 <= x < 2 ^ 32 ->
  Z.land x (u32 (Z.lnot (2 ^ k - 1))) = x / 2 ^ k * 2 ^ k.
Proof.
  intros Hk Hx. unfold u32, wrap.
  rewrite <- Z.land_ones by lia.
  rewrite (Z.land_comm (Z.lnot _)), Z.land_assoc.
  rewrite Z.land_ones by lia. rewrite (Z.mod_small x) by exact Hx.
  rewrite <- Z.ldiff_land.
  replace (2 ^ k - 1) with (Z.ones k) by (rewrite Z.ones_equiv; lia).
  rewrite Z.ldiff_ones_r by exact Hk.
  rewrite Z.shiftl_mul_pow2, Z.shiftr_div_pow2 by exact Hk.
  reflexivity.
Qed.

(** [PAGE_ALIGN] rounds up to a multiple of the page size when the sum does
    not leave 32 bits. *)
Lemma PAGE_ALIGN_spec len :
  0 <= PAGE_SHIFT < 32 -> 0 <= len -> len + PAGE_SIZE <= 2 ^ 32 ->
  PAGE_ALIGN len = (len + PAGE_SIZE - 1) / PAGE_SIZE * PAGE_SIZE.
Proof.
  intros Hs Hl Hfit. unfold PAGE_ALIGN.
  rewrite (PAGE_SIZE_pow2 Hs) in *.
  assert (Hp : 0 < 2 ^ PAGE_SHIFT) by (apply Z.pow_pos_nonneg; lia).
  rewrite (u32_small (2 ^ PAGE_SHIFT - 1)) by lia.
  rewrite (u32_small (len + _)) by lia.
  rewrite land_lnot_ones by lia.
  replace (len + (2 ^ PAGE_SHIFT - 1)) with (len + 2 ^ PAGE_SHIFT - 1) by lia.
  apply u32_small.
  pose proof (Z.mul_div_le (len + 2 ^ PAGE_SHIFT - 1) (2 ^ PAGE_SHIFT) Hp).
  assert (0 <= (len + 2 ^ PAGE_SHIFT - 1) / 2 ^ PAGE_SHIFT)
    by (apply Z.div_pos; lia).
  nia.
Qed.

Lemma PAGE_ALIGN_bounds len :
  0 <= PAGE_SHIFT < 32 -> 0 <= len -> len + PAGE_SIZE <= 2 ^ 32 ->
  len <= PAGE_ALIGN len /\ PAGE_ALIGN len mod PAGE_SIZE = 0.
Proof.
  intros Hs Hl Hfit. rewrite (PAGE_ALIGN_spec len Hs Hl Hfit).
  assert (Hp : 0 < PAGE_SIZE)
    by (rewrite (PAGE_SIZE_pow2 Hs); apply Z.pow_pos_nonneg; lia).
  split.
  - assert (Hnz : PAGE_SIZE <> 0) by lia.
    pose proof (Z.div_mod (len + PAGE_SIZE - 1) PAGE_SIZE Hnz) as Hd.
    pose proof (Z.mod_pos_bound (len + PAGE_SIZE - 1) PAGE_SIZE Hp).
    lia.
  - apply Z.mod_mul. lia.
Qed.

(** ** The allocator *)

Lemma store_le32_done off v (w : @world FW) m :
  store_bytes (sw_block w) off (le32_bytes v) = Some m ->
  store_le32 off v w =
  (Done tt, {| sw_fw := sw_fw w; sw_block := m; sw_log := sw_log w |}).
Proof. intros H. unfold store_le32. rewrite H. reflexivity. Qed.

Lemma store_le32_inv off v (w w' : @world FW) u :
  store_le32 off v w = (Done u, w') ->
  store_bytes (sw_block w) off (le32_bytes v) = Some (sw_block w') /\
  sw_fw w' = sw_fw w /\ sw_log w' = sw_log w.
Proof.
  unfold store_le32. destruct (store_bytes _ _ _) as [m|]; intros H;
    [|discriminate].
  injection H as _ H. subst w'. auto.
Qed.

Lemma load_le32_store m off v m' :
  0 <= v < 2 ^ 32 ->
  store_bytes m off (le32_bytes v) = Some m' ->
  load_le32 m' off = Some v.
Proof.
  intros Hv H. unfold load_le32.
  pose proof (load_store_same _ _ _ _ H) as Hl.
  rewrite zlength_le32_bytes in Hl. rewrite Hl. cbn [option_map].
  rewrite le32_value_bytes by exact Hv. reflexivity.
Qed.

Lemma load_le32_store_before m off bs m' o :
  store_bytes m off bs = Some m' -> o + 4 <= off ->
  load_le32 m' o = load_le32 m o.
Proof.
  intros H Hb. unfold load_le32.
  rewrite (load_store_before _ _ _ _ _ _ H Hb). reflexivity.
Qed.

(** What [alloc_qcom_scm_command] does with the block it is given: the
    three fields of the command header, and zeros from the identifier on. *)
Lemma alloc_fields cmd_size resp_size (w w' : @world FW) a :
  alloc_qcom_scm_command cmd_size resp_size w = (Done (Some a), w') ->
  let len :=
    u32 (u32 (u32 (sizeof_qcom_scm_command + sizeof_qcom_scm_response)
              + cmd_size) + resp_size) in
  kzalloc (PAGE_ALIGN len) = Some a /\
  sw_fw w' = sw_fw w /\
  sw_log w' = sw_log w ++ [ScKzalloc (PAGE_ALIGN len)] /\
  zlength (sw_block w') = PAGE_ALIGN len /\
  12 <= zlength (sw_block w') /\
  load_le32 (sw_block w') CMD_LEN = Some len /\
  load_le32 (sw_block w') CMD_BUF_OFFSET = Some CMD_BUF /\
  load_le32 (sw_block w') CMD_RESP_HDR_OFFSET = Some (u32 (CMD_BUF + cmd_size)) /\
  forall o n, 12 <= o -> 0 <= n -> o + n <= zlength (sw_block w') ->
              load_bytes (sw_block w') o n = Some (repeat 0 (Z.to_nat n)).
Proof.
  intros H len. unfold alloc_qcom_scm_command in H. fold len in H.
  unfold bind, do_kzalloc in H.
  destruct (kzalloc (PAGE_ALIGN len)) as [a'|] eqn:Hk;
    [|cbn in H; discriminate].
  destruct (store_le32 CMD_LEN len _) as [[u1| |] w1] eqn:H1;
    try discriminate.
  destruct (store_le32 CMD_BUF_OFFSET CMD_BUF w1) as [[u2| |] w2] eqn:H2;
    try discriminate.
  destruct (store_le32 CMD_RESP_HDR_OFFSET _ w2) as [[u3| |] w3] eqn:H3;
    try discriminate.
  unfold ret in H. injection H as Ha Hw. subst a' w3.
  apply store_le32_inv in H1, H2, H3. cbn [sw_fw sw_block sw_log] in H1.
  destruct H1 as (S1 & F1 & L1), H2 as (S2 & F2 & L2), H3 as (S3 & F3 & L3).
  pose proof (store_bytes_length _ _ _ _ S1) as Z1.
  pose proof (store_bytes_length _ _ _ _ S2) as Z2.
  pose proof (store_bytes_length _ _ _ _ S3) as Z3.
  pose proof (store_bytes_inv _ _ _ _ S3) as (_ & B3 & _).
  rewrite zlength_le32_bytes in B3. unfold CMD_RESP_HDR_OFFSET in B3.
  assert (Hsz : 0 <= PAGE_ALIGN len) by (apply u32_range).
  assert (Z0 : zlength (repeat 0 (Z.to_nat (PAGE_ALIGN len))) = PAGE_ALIGN len)
    by (unfold zlength; rewrite repeat_length; lia).
  split; [reflexivity|].
  split; [congruence|]. split; [congruence|].
  split; [congruence|]. split; [lia|].
  split.
  { unfold CMD_LEN, CMD_BUF_OFFSET, CMD_RESP_HDR_OFFSET in *.
    rewrite (load_le32_store_before _ _ _ _ 0 S3) by lia.
    rewrite (load_le32_store_before _ _ _ _ 0 S2) by lia.
    apply (load_le32_store _ _ _ _ (u32_range _) S1). }
  split.
  { unfold CMD_LEN, CMD_BUF_OFFSET, CMD_RESP_HDR_OFFSET, CMD_BUF in *.
    rewrite (load_le32_store_before _ _ _ _ 4 S3) by lia.
    assert (H16 : 0 <= 16 < 2 ^ 32) by lia.
    apply (load_le32_store _ _ 16 _ H16 S2). }
  split.
  { apply (load_le32_store _ _ _ _ (u32_range _) S3). }
  intros o n Ho Hn Hfit.
  unfold CMD_LEN, CMD_BUF_OFFSET, CMD_RESP_HDR_OFFSET in *.
  rewrite (load_store_after _ _ _ _ o n S3)
    by (rewrite zlength_le32_bytes; lia).
  rewrite (load_store_after _ _ _ _ o n S2)
    by (rewrite zlength_le32_bytes; lia).
  rewrite (load_store_after _ _ _ _ o n S1)
    by (rewrite zlength_le32_bytes; lia).
  apply load_bytes_zeros; lia.
Qed.

(** With a block of at least twelve bytes the allocator does not fault. *)
Lemma alloc_done cmd_size resp_size (w : @world FW) :
  let len :=
    u32 (u32 (u32 (sizeof_qcom_scm_command + sizeof_qcom_scm_response)
              + cmd_size) + resp_size) in
  (kzalloc (PAGE_ALIGN len) = None \/ 12 <= PAGE_ALIGN len) ->
  exists w',
    alloc_qcom_scm_command cmd_size resp_size w =
      (Done (kzalloc (PAGE_ALIGN len)), w') /\
    sw_log w' = sw_log w ++ [ScKzalloc (PAGE_ALIGN len)].
Proof.
  intros len Hsz. unfold alloc_qcom_scm_command. fold len.
  unfold bind at 1. unfold do_kzalloc.
  destruct (kzalloc (PAGE_ALIGN len)) as [a|] eqn:Hk.
  - destruct Hsz as [Hsz|Hsz]; [discriminate|].
    set (m0 := repeat 0 (Z.to_nat (PAGE_ALIGN len))).
    assert (Z0 : zlength m0 = PAGE_ALIGN len)
      by (unfold m0, zlength; rewrite repeat_length; lia).
    destruct (store_bytes_fits m0 CMD_LEN (le32_bytes len)) as [m1 S1];
      [unfold CMD_LEN; lia
      |rewrite zlength_le32_bytes; unfold CMD_LEN; lia|].
    pose proof (store_bytes_length _ _ _ _ S1) as Z1.
    destruct (store_bytes_fits m1 CMD_BUF_OFFSET (le32_bytes CMD_BUF))
      as [m2 S2];
      [unfold CMD_BUF_OFFSET; lia
      |rewrite zlength_le32_bytes; unfold CMD_BUF_OFFSET; lia|].
    pose proof (store_bytes_length _ _ _ _ S2) as Z2.
    destruct (store_bytes_fits m2 CMD_RESP_HDR_OFFSET
                (le32_bytes (u32 (CMD_BUF + cmd_size)))) as [m3 S3];
      [unfold CMD_RESP_HDR_OFFSET; lia
      |rewrite zlength_le32_bytes; unfold CMD_RESP_HDR_OFFSET; lia|].
    unfold bind, store_le32. cbn [sw_block sw_fw sw_log].
    rewrite S1. cbn [sw_block sw_fw sw_log].
    rewrite S2. cbn [sw_block sw_fw sw_log].
    rewrite S3. eexists. split; reflexivity.
  - eexists. split; reflexivity.
Qed.

(** C3: for sizes that do not make the sum or its rounding leave 32 bits,
    the block the allocator asks for, and gets when [kzalloc] succeeds, is
    at least as long as the two headers and the two payloads together and
    is a multiple of the page size; the [len] field holds the sum. *)
Theorem alloc_length cmd_size resp_size (w : @world FW) :
  0 <= PAGE_SHIFT < 32 -> 0 <= cmd_size -> 0 <= resp_size ->
  sizeof_qcom_scm_command + sizeof_qcom_scm_response
    + cmd_size + resp_size + PAGE_SIZE <= 2 ^ 32 ->
  let sum := sizeof_qcom_scm_command + sizeof_qcom_scm_response
             + cmd_size + resp_size in
  let size := PAGE_ALIGN sum in
  sum <= size /\ size mod PAGE_SIZE = 0 /\
  exists w',
    alloc_qcom_scm_command cmd_size resp_size w = (Done (kzalloc size), w') /\
    sw_log w' = sw_log w ++ [ScKzalloc size] /\
    (kzalloc size <> None ->
     zlength (sw_block w') = size /\
     load_le32 (sw_block w') CMD_LEN = Some sum).
Proof.
  intros Hs Hc Hr Hfit sum size.
  assert (Hp : 0 < PAGE_SIZE)
    by (rewrite (PAGE_SIZE_pow2 Hs); apply Z.pow_pos_nonneg; lia).
  unfold sizeof_qcom_scm_command, sizeof_qcom_scm_response in *.
  assert (Hlen : u32 (u32 (u32 (16 + 12) + cmd_size) + resp_size) = sum).
  { unfold sum. rewrite (u32_small (16 + 12)) by lia.
    rewrite (u32_small (16 + 12 + cmd_size)) by lia.
    apply u32_small. lia. }
  destruct (PAGE_ALIGN_bounds sum Hs ltac:(unfold sum; lia)
              ltac:(unfold sum; lia)) as [Hge Hmod].
  fold size in Hge, Hmod.
  split; [exact Hge|]. split; [exact Hmod|].
  destruct (alloc_done cmd_size resp_size w) as (w' & Ha & Hl).
  { right. unfold sizeof_qcom_scm_command, sizeof_qcom_scm_response.
    rewrite Hlen. fold size. unfold sum in Hge. lia. }
  unfold sizeof_qcom_scm_command, sizeof_qcom_scm_response in Ha, Hl.
  rewrite Hlen in Ha, Hl. fold size in Ha, Hl.
  exists w'. split; [exact Ha|]. split; [exact Hl|].
  intros Hk. destruct (kzalloc size) as [a|] eqn:Hka; [|contradiction].
  pose proof (alloc_fields _ _ _ _ _ Ha) as Hf. cbv zeta in Hf.
  unfold sizeof_qcom_scm_command, sizeof_qcom_scm_response in Hf.
  rewrite Hlen in Hf. fold size in Hf.
  destruct Hf as (_ & _ & _ & Hz & _ & Hload & _). auto.
Qed.

(** C2, as amended: the allocator records [buf_offset], the offset of the
    payload in the command header, and [resp_hdr_offset], which is
    [buf_offset + cmd_size] in 32 bits; it writes nothing into the response
    header, so that the [buf_offset] of the response is 0 like every byte
    of the block from the identifier on. *)
Theorem alloc_offsets cmd_size resp_size (w w' : @world FW) a :
  alloc_qcom_scm_command cmd_size resp_size w = (Done (Some a), w') ->
  load_le32 (sw_block w') CMD_BUF_OFFSET = Some sizeof_qcom_scm_command /\
  load_le32 (sw_block w') CMD_RESP_HDR_OFFSET =
    Some (u32 (sizeof_qcom_scm_command + cmd_size)) /\
  (forall o, 12 <= o -> o + 4 <= zlength (sw_block w') ->
             load_le32 (sw_block w') o = Some 0) /\
  (0 <= cmd_size -> sizeof_qcom_scm_command + cmd_size < 2 ^ 32 ->
   let rsp := sizeof_qcom_scm_command + cmd_size in
   load_le32 (sw_block w') CMD_RESP_HDR_OFFSET = Some rsp /\
   (rsp + sizeof_qcom_scm_response <= zlength (sw_block w') ->
    load_le32 (sw_block w') (rsp + RSP_BUF_OFFSET) = Some 0)).
Proof.
  intros Ha.
  pose proof (alloc_fields _ _ _ _ _ Ha) as Hf. cbv zeta in Hf.
  destruct Hf as (_ & _ & _ & _ & _ & _ & Hbuf & Hrsp & Hzero).
  assert (Hz : forall o, 12 <= o -> o + 4 <= zlength (sw_block w') ->
                         load_le32 (sw_block w') o = Some 0).
  { intros o Ho Hfit. unfold load_le32.
    rewrite (Hzero o 4 Ho ltac:(lia) Hfit). reflexivity. }
  unfold CMD_BUF, sizeof_qcom_scm_command, sizeof_qcom_scm_response,
    RSP_BUF_OFFSET in *.
  split; [exact Hbuf|]. split; [exact Hrsp|]. split; [exact Hz|].
  intros Hc Hs. cbv zeta. split.
  - rewrite Hrsp. f_equal. apply u32_small. lia.
  - intros Hfit. apply Hz; lia.
Qed.

(** ** Runs and their traces *)

Lemma bind_done {A B : Type} (m : @M FW A) (k : A -> @M FW B) w a w' :
  m w = (Done a, w') -> bind m k w = k a w'.
Proof. intros H. unfold bind. rewrite H. reflexivity. Qed.

Lemma bind_bind {A B C : Type} (m : @M FW A) (f : A -> @M FW B)
      (g : B -> @M FW C) w :
  bind (bind m f) g w = bind m (fun x => bind (f x) g) w.
Proof. unfold bind. destruct (m w) as [[a| |] w1]; reflexivity. Qed.

Lemma extends_ret {A : Type} (a : A) : extends (ret (FW := FW) a).
Proof. intros w. exists []. cbn. symmetry. apply app_nil_r. Qed.

Lemma extends_oops {A : Type} : extends (oops (FW := FW) (A := A)).
Proof. intros w. exists []. cbn. symmetry. apply app_nil_r. Qed.

Lemma extends_spin {A : Type} : extends (spin (FW := FW) (A := A)).
Proof. intros w. exists []. cbn. symmetry. apply app_nil_r. Qed.

Lemma extends_bind {A B : Type} (m : @M FW A) (k : A -> @M FW B) :
  extends m -> (forall a, extends (k a)) -> extends (bind m k).
Proof.
  intros Hm Hk w. destruct (Hm w) as [e1 H1]. unfold bind.
  destruct (m w) as [[a| |] w1]; cbn [snd] in *.
  - destruct (Hk a w1) as [e2 H2]. exists (e1 ++ e2).
    rewrite H2, H1. symmetry. apply app_assoc.
  - exists e1. exact H1.
  - exists e1. exact H1.
Qed.

Lemma extends_log e : extends (log (FW := FW) e).
Proof. intros w. exists [e]. reflexivity. Qed.

Lemma extends_store_le32 off v : extends (store_le32 (FW := FW) off v).
Proof.
  intros w. exists []. unfold store_le32.
  destruct (store_bytes _ _ _); cbn; symmetry; apply app_nil_r.
Qed.

Lemma extends_fetch_le32 off : extends (fetch_le32 (FW := FW) off).
Proof.
  intros w. exists []. unfold fetch_le32.
  destruct (load_le32 _ _); cbn; symmetry; apply app_nil_r.
Qed.

Lemma extends_memcpy_to_block off src n :
  extends (memcpy_to_block (FW := FW) off src n).
Proof.
  intros w. exists []. unfold memcpy_to_block.
  destruct (load_bytes src 0 n); [destruct (store_bytes _ _ _)|];
    cbn; symmetry; apply app_nil_r.
Qed.

Lemma extends_memcpy_from_block dst off n :
  extends (memcpy_from_block (FW := FW) dst off n).
Proof.
  intros w. unfold memcpy_from_block.
  destruct (load_bytes _ off n) as [bs|];
    [destruct (store_bytes dst 0 bs)|].
  - exists [ScCopyOut bs]. reflexivity.
  - exists []. cbn. symmetry. apply app_nil_r.
  - exists []. cbn. symmetry. apply app_nil_r.
Qed.

Lemma extends_trap r0 r2 : extends (trap r0 r2).
Proof.
  intros w. exists [ScSmc r0 r2]. unfold trap.
  destruct (fw_smc _ _ _ _) as [[r m] f]. reflexivity.
Qed.

Lemma extends_qcom_scm_inv_range start stop :
  extends (qcom_scm_inv_range start stop).
Proof.
  intros w. exists [ScInvRange start stop]. unfold qcom_scm_inv_range.
  destruct (fw_visible _ _) as [m f]. reflexivity.
Qed.

Lemma extends_secure_flush_area len :
  extends (secure_flush_area (FW := FW) len).
Proof. intros w. exists [ScFlush (sw_block w) len]. reflexivity. Qed.

Lemma extends_free_qcom_scm_command cmd :
  extends (free_qcom_scm_command (FW := FW) cmd).
Proof. apply extends_log. Qed.

Create HintDb scm_extends.
#[local] Hint Resolve extends_ret extends_oops extends_spin extends_log
  extends_store_le32 extends_fetch_le32 extends_memcpy_to_block
  extends_memcpy_from_block extends_trap extends_qcom_scm_inv_range
  extends_secure_flush_area extends_free_qcom_scm_command : scm_extends.

Ltac extends_step :=
  first
    [ apply extends_bind; [|intros ?]
    | match goal with
      | |- extends (if ?b then _ else _) => destruct b
      | |- extends (match ?x with Some _ => _ | None => _ end) => destruct x
      end
    | solve [auto with scm_extends] ].

Lemma extends_smc_loop fuel : forall r0 r2, extends (smc_loop fuel r0 r2).
Proof.
  induction fuel as [|fuel IH]; intros r0 r2; cbn [smc_loop].
  - apply extends_spin.
  - apply extends_bind; [apply extends_trap|]. intros r.
    destruct (r =? QCOM_SCM_INTERRUPTED); [apply IH|apply extends_ret].
Qed.

Lemma extends_wait_complete fuel : forall start rsp,
  extends (wait_complete fuel start rsp).
Proof.
  induction fuel as [|fuel IH]; intros start rsp; cbn [wait_complete].
  - apply extends_spin.
  - repeat extends_step.
Qed.

Lemma extends___qcom_scm_call fuel cmd : extends (__qcom_scm_call fuel cmd).
Proof.
  unfold __qcom_scm_call, smc. repeat extends_step.
  apply extends_smc_loop.
Qed.

#[local] Hint Resolve extends_smc_loop extends_wait_complete
  extends___qcom_scm_call : scm_extends.

(** ** The trap *)

Lemma trap_after_trap r0 r2 (w : @world FW) :
  trap r0 r2 w = (Done (fst (after_trap w r0 r2)), snd (after_trap w r0 r2)).
Proof.
  unfold trap, after_trap. destruct (fw_smc _ _ _ _) as [[r m] f].
  reflexivity.
Qed.

(** An answer of [QCOM_SCM_INTERRUPTED] makes the loop issue the
    instruction again, on the world the answer left. *)
Lemma smc_loop_again fuel r0 r2 (w : @world FW) :
  fst (after_trap w r0 r2) = QCOM_SCM_INTERRUPTED ->
  smc_loop (S fuel) r0 r2 w =
  smc_loop fuel QCOM_SCM_INTERRUPTED r2 (snd (after_trap w r0 r2)).
Proof.
  intros H. cbn [smc_loop].
  rewrite (bind_done _ _ _ _ _ (trap_after_trap r0 r2 w)).
  rewrite H. reflexivity.
Qed.

Lemma smc_loop_interrupted r2 : forall k fuel (w wk w' : @world FW) r,
  interrupted k r2 w = Some wk ->
  after_trap wk 1 r2 = (r, w') ->
  r <> QCOM_SCM_INTERRUPTED ->
  (k < fuel)%nat ->
  smc_loop fuel 1 r2 w = (Done r, w') /\
  sw_log w' = sw_log w ++ repeat (ScSmc 1 r2) (S k).
Proof.
  induction k as [|k IH]; intros fuel w wk w' r Hi Ha Hr Hf.
  - cbn in Hi. injection Hi as <-.
    destruct fuel as [|fuel]; [lia|]. cbn [smc_loop].
    rewrite (bind_done _ _ _ _ _ (trap_after_trap 1 r2 w)).
    rewrite Ha. cbn [fst snd].
    apply Z.eqb_neq in Hr. rewrite Hr. split; [reflexivity|].
    unfold after_trap in Ha. destruct (fw_smc _ _ _ _) as [[x m] f].
    injection Ha as _ <-. reflexivity.
  - cbn [interrupted] in Hi.
    destruct (after_trap w 1 r2) as [r1 w1] eqn:H1.
    destruct (Z.eqb_spec r1 QCOM_SCM_INTERRUPTED) as [He|]; [|discriminate].
    destruct fuel as [|fuel]; [lia|].
    rewrite smc_loop_again by (rewrite H1; exact He).
    rewrite H1. cbn [snd].
    destruct (IH fuel w1 wk w' r Hi Ha Hr ltac:(lia)) as [Hs Hl].
    split; [exact Hs|]. rewrite Hl.
    unfold after_trap in H1. destruct (fw_smc _ _ _ _) as [[x m] f].
    injection H1 as _ <-. cbn [sw_log]. rewrite <- app_assoc. reflexivity.
Qed.

(** C4: when the secure world answers [QCOM_SCM_INTERRUPTED] [k] times and
    then [r], the trap is issued [k + 1] times, each time again after an
    answer of 1, and [__qcom_scm_call] returns what the translation table
    gives for [r] when [r] is negative as an [int], and [r] itself
    otherwise. *)
Theorem qcom_scm_call_trap k fuel cmd len (w wk w' : @world FW) r :
  let r2 := u32 (virt_to_phys cmd) in
  let wf := logged w [ScFlush (sw_block w) len] in
  load_le32 (sw_block w) CMD_LEN = Some len ->
  interrupted k r2 wf = Some wk ->
  after_trap wk 1 r2 = (r, w') ->
  r <> QCOM_SCM_INTERRUPTED ->
  (k < fuel)%nat ->
  smc fuel r2 wf = (Done r, w') /\
  sw_log w' = sw_log wf ++ repeat (ScSmc 1 r2) (S k) /\
  __qcom_scm_call fuel cmd w =
    (Done (if s32 r <? 0 then qcom_scm_remap_error (s32 r) else r), w').
Proof.
  intros r2 wf Hlen Hi Ha Hr Hf.
  destruct (smc_loop_interrupted r2 k fuel wf wk w' r Hi Ha Hr Hf)
    as [Hs Hl].
  split; [exact Hs|]. split; [exact Hl|].
  unfold __qcom_scm_call. fold r2.
  assert (Hfetch : fetch_le32 CMD_LEN w = (Done len, w))
    by (unfold fetch_le32; rewrite Hlen; reflexivity).
  rewrite (bind_done _ _ _ _ _ Hfetch).
  assert (Hflush : secure_flush_area len w = (Done tt, wf)) by reflexivity.
  rewrite (bind_done _ _ _ _ _ Hflush).
  rewrite (bind_done _ _ _ _ _ Hs).
  assert (Hrange : 0 <= r < 2 ^ 32).
  { unfold after_trap in Ha. destruct (fw_smc _ _ _ _) as [[x m] f].
    injection Ha as <- _. apply u32_range. }
  destruct (Z.ltb_spec (s32 r) 0) as [Hneg|Hpos]; [reflexivity|].
  unfold ret. f_equal. f_equal.
  destruct (Z.lt_ge_cases r (2 ^ 31)) as [Hlt|Hge].
  - apply s32_nonneg. lia.
  - rewrite s32_negative in Hpos by lia. lia.
Qed.

(** ** The orchestrator *)

Lemma u32_lor a b : u32 (Z.lor (u32 a) b) = u32 (Z.lor a b).
Proof.
  unfold u32, wrap. rewrite <- !Z.land_ones by lia.
  rewrite !Z.land_lor_distr_l. f_equal.
  rewrite <- Z.land_assoc, Z.land_diag. reflexivity.
Qed.

Lemma log_logged e (w : @world FW) : log e w = (Done tt, logged w [e]).
Proof. reflexivity. Qed.

Lemma logged_logged (w : @world FW) l1 l2 :
  logged (logged w l1) l2 = logged w (l1 ++ l2).
Proof. unfold logged. cbn. rewrite app_assoc. reflexivity. Qed.

(** After the two statements that fill the block, the identifier lies at
    its offset, and the block has room for the command header. *)
Lemma qcom_scm_call_fill_id svc_id cmd_id cmd_buf cmd_len
      (w0 w1 : @world FW) u :
  qcom_scm_call_fill svc_id cmd_id cmd_buf cmd_len w0 = (Done u, w1) ->
  load_bytes (sw_block w1) CMD_ID 4 =
    Some (le32_bytes (u32 (Z.lor (Z.shiftl svc_id 10) cmd_id))) /\
  sizeof_qcom_scm_command <= zlength (sw_block w1).
Proof.
  unfold qcom_scm_call_fill, bind. rewrite u32_lor.
  set (id := u32 (Z.lor (Z.shiftl svc_id 10) cmd_id)).
  destruct (store_le32 CMD_ID id w0) as [[u1| |] w0'] eqn:Hs;
    try discriminate.
  apply store_le32_inv in Hs. destruct Hs as (Hs & _ & _).
  pose proof (load_store_same _ _ _ _ Hs) as Hl.
  rewrite zlength_le32_bytes in Hl.
  assert (Hgoal : forall m, load_bytes m CMD_ID 4 = Some (le32_bytes id) ->
            load_bytes m CMD_ID 4 = Some (le32_bytes id) /\
            sizeof_qcom_scm_command <= zlength m).
  { intros m Hm. split; [exact Hm|].
    apply load_bytes_inv in Hm. unfold CMD_ID, sizeof_qcom_scm_command in *.
    lia. }
  destruct cmd_buf as [src|].
  - unfold memcpy_to_block.
    destruct (load_bytes src 0 cmd_len) as [bs|]; [|discriminate].
    destruct (store_bytes (sw_block w0') CMD_BUF bs) as [m|] eqn:Hc;
      [|discriminate].
    intros H. injection H as _ <-. cbn [sw_block]. apply Hgoal.
    rewrite (load_store_before _ _ _ _ CMD_ID 4 Hc)
      by (unfold CMD_ID, CMD_BUF; lia).
    exact Hl.
  - unfold ret. intros H. injection H as _ <-. apply Hgoal. exact Hl.
Qed.

Ltac extends_all :=
  repeat first [progress cbv zeta | extends_step].

(** C1: once the block is allocated and filled, the four bytes at the
    offset of [id] in the command header are the little-endian bytes of the
    32-bit value [(svc_id << 10) | cmd_id], and the call goes on by taking
    the lock and handing this very block to the secure world. *)
Theorem qcom_scm_call_id fuel svc_id cmd_id cmd_buf cmd_len resp_buf resp_len
        (w w0 w1 : @world FW) a :
  alloc_qcom_scm_command cmd_len resp_len w = (Done (Some a), w0) ->
  qcom_scm_call_fill svc_id cmd_id cmd_buf cmd_len w0 = (Done tt, w1) ->
  let id := u32 (Z.lor (Z.shiftl svc_id 10) cmd_id) in
  load_bytes (sw_block w1) CMD_ID 4 = Some (le32_bytes id) /\
  load_le32 (sw_block w1) CMD_ID = Some id /\
  exists len rest,
    sw_log (snd (qcom_scm_call fuel svc_id cmd_id cmd_buf cmd_len
                               resp_buf resp_len w)) =
    sw_log w1 ++ ScMutexLock :: ScFlush (sw_block w1) len :: rest.
Proof.
  intros Ha Hf id.
  destruct (qcom_scm_call_fill_id _ _ _ _ _ _ _ Hf) as [Hid Hroom].
  fold id in Hid. split; [exact Hid|]. split.
  { unfold load_le32. rewrite Hid. cbn [option_map].
    rewrite le32_value_bytes by apply u32_range. reflexivity. }
  unfold sizeof_qcom_scm_command in Hroom.
  pose proof (load_bytes_fits (sw_block w1) CMD_LEN 4
                ltac:(unfold CMD_LEN; lia) ltac:(lia)
                ltac:(unfold CMD_LEN; lia)) as Hlen.
  set (len := le32_value (firstn (Z.to_nat 4)
                (skipn (Z.to_nat CMD_LEN) (sw_block w1)))).
  assert (Hfetch : fetch_le32 CMD_LEN (logged w1 [ScMutexLock]) =
                   (Done len, logged w1 [ScMutexLock])).
  { unfold fetch_le32, load_le32. cbn [logged sw_block].
    rewrite Hlen. reflexivity. }
  unfold qcom_scm_call.
  rewrite (bind_done _ _ _ _ _ Ha).
  rewrite (bind_done _ _ _ _ _ Hf).
  rewrite (bind_done _ _ _ _ _ (log_logged ScMutexLock w1)).
  unfold __qcom_scm_call.
  rewrite !bind_bind. rewrite (bind_done _ _ _ _ _ Hfetch).
  rewrite !bind_bind.
  assert (Hflush : secure_flush_area len (logged w1 [ScMutexLock]) =
            (Done tt, logged w1 [ScMutexLock; ScFlush (sw_block w1) len])).
  { unfold secure_flush_area. rewrite log_logged, logged_logged.
    reflexivity. }
  rewrite (bind_done _ _ _ _ _ Hflush).
  match goal with |- context [snd (?m (logged w1 _))] =>
    assert (He : extends m) by (unfold smc; extends_all) end.
  destruct (He (logged w1 [ScMutexLock; ScFlush (sw_block w1) len]))
    as [rest Hrest].
  exists len, rest. rewrite Hrest. cbn [logged sw_log].
  rewrite <- app_assoc. reflexivity.
Qed.

(** C5: when the trap leaves a result other than 0, [qcom_scm_call]
    releases the lock, frees the block and returns that result; it
    invalidates nothing, so that the completion flag is not read, and
    [resp_buf] is returned as the caller gave it. *)
Theorem qcom_scm_call_trap_error fuel svc_id cmd_id cmd_buf cmd_len
        resp_buf resp_len (w w0 w1 w2 : @world FW) a r :
  alloc_qcom_scm_command cmd_len resp_len w = (Done (Some a), w0) ->
  qcom_scm_call_fill svc_id cmd_id cmd_buf cmd_len w0 = (Done tt, w1) ->
  __qcom_scm_call fuel a (logged w1 [ScMutexLock]) = (Done r, w2) ->
  r <> 0 ->
  qcom_scm_call fuel svc_id cmd_id cmd_buf cmd_len resp_buf resp_len w =
  (Done (r, resp_buf), logged w2 [ScMutexUnlock; ScKfree a]).
Proof.
  intros Ha Hf Hc Hr. unfold qcom_scm_call.
  rewrite (bind_done _ _ _ _ _ Ha).
  rewrite (bind_done _ _ _ _ _ Hf).
  rewrite (bind_done _ _ _ _ _ (log_logged ScMutexLock w1)).
  rewrite (bind_done _ _ _ _ _ Hc).
  rewrite (bind_done _ _ _ _ _ (log_logged ScMutexUnlock w2)).
  apply Z.eqb_neq in Hr. rewrite Hr. cbn [negb].
  unfold free_qcom_scm_command.
  rewrite (bind_done _ _ _ _ _ (log_logged (ScKfree a) _)).
  rewrite logged_logged. reflexivity.
Qed.

End ScmProperties.

(** ** The transport with the secure world of the examples *)

(** C2, counterexample: for a command and a response of four bytes each,
    the response header lies at offset 20 of the block the allocator
    returns, and its [buf_offset], four bytes further, holds 0 and not the
    offset 12 at which the response payload follows the header. *)
Lemma alloc_leaves_response_offset :
  fst (alloc_qcom_scm_command 4 4 (toy_world 0 0 0 [])) = Done (Some 32768) /\
  load_le32 (sw_block (snd (alloc_qcom_scm_command 4 4 (toy_world 0 0 0 []))))
            CMD_RESP_HDR_OFFSET = Some 20 /\
  load_le32 (sw_block (snd (alloc_qcom_scm_command 4 4 (toy_world 0 0 0 []))))
            (20 + RSP_BUF_OFFSET) = Some 0 /\
  load_le32 (sw_block (snd (alloc_qcom_scm_command 4 4 (toy_world 0 0 0 []))))
            (20 + RSP_BUF_OFFSET) <> Some sizeof_qcom_scm_response.
Proof.
  split; [vm_compute; reflexivity|].
  split; [vm_compute; reflexivity|].
  split; [vm_compute; reflexivity|].
  vm_compute. discriminate.
Qed.

Lemma alloc_offsets_witness :
  load_le32 (sw_block (snd (alloc_qcom_scm_command 4 4 (toy_world 0 0 0 []))))
            CMD_RESP_HDR_OFFSET = Some (u32 (sizeof_qcom_scm_command + 4)).
Proof.
  assert (H : alloc_qcom_scm_command 4 4 (toy_world 0 0 0 []) =
              (Done (Some 32768),
               snd (alloc_qcom_scm_command 4 4 (toy_world 0 0 0 []))))
    by (vm_compute; reflexivity).
  exact (proj1 (proj2 (alloc_offsets 4 4 _ _ _ H))).
Defined.

Lemma alloc_length_witness :
  16 + 12 + 4 + 4 <= PAGE_ALIGN (E := toy_env) (16 + 12 + 4 + 4).
Proof.
  apply (alloc_length (E := toy_env) 4 4 (toy_world 0 0 0 [])).
  - cbn. lia.
  - lia.
  - lia.
  - vm_compute. intros Hc. discriminate Hc.
Defined.

(** A call that the secure world refuses with [QCOM_SCM_EINVAL_ADDR] after
    two interruptions. *)
Lemma qcom_scm_call_trap_witness :
  __qcom_scm_call 3 32768
    {| sw_fw := {| tf_interrupts := 2; tf_code := 2 ^ 32 - 3;
                   tf_delay := 0; tf_payload := [] |};
       sw_block := [36; 0; 0; 0]; sw_log := [] |} =
  (Done (-22),
   {| sw_fw := {| tf_interrupts := 0; tf_code := 2 ^ 32 - 3;
                  tf_delay := 0; tf_payload := [] |};
      sw_block := [36; 0; 0; 0];
      sw_log := [ScFlush [36; 0; 0; 0] 36; ScSmc 1 16384; ScSmc 1 16384;
                 ScSmc 1 16384] |}).
Proof.
  exact (proj2 (proj2
    (qcom_scm_call_trap (E := toy_env) 2 3 32768 36
       {| sw_fw := {| tf_interrupts := 2; tf_code := 2 ^ 32 - 3;
                      tf_delay := 0; tf_payload := [] |};
          sw_block := [36; 0; 0; 0]; sw_log := [] |}
       {| sw_fw := {| tf_interrupts := 0; tf_code := 2 ^ 32 - 3;
                      tf_delay := 0; tf_payload := [] |};
          sw_block := [36; 0; 0; 0];
          sw_log := [ScFlush [36; 0; 0; 0] 36; ScSmc 1 16384;
                     ScSmc 1 16384] |}
       {| sw_fw := {| tf_interrupts := 0; tf_code := 2 ^ 32 - 3;
                      tf_delay := 0; tf_payload := [] |};
          sw_block := [36; 0; 0; 0];
          sw_log := [ScFlush [36; 0; 0; 0] 36; ScSmc 1 16384;
                     ScSmc 1 16384; ScSmc 1 16384] |}
       (2 ^ 32 - 3)
       eq_refl eq_refl eq_refl ltac:(discriminate) ltac:(lia)))).
Defined.

Lemma qcom_scm_call_id_witness :
  load_bytes
    (sw_block (snd (qcom_scm_call_fill 1 2 (Some [7; 8; 9; 10]) 4
                      (snd (alloc_qcom_scm_command 4 4 (toy_world 0 0 0 []))))))
    CMD_ID 4 = Some [2; 4; 0; 0].
Proof.
  assert (H : alloc_qcom_scm_command 4 4 (toy_world 0 0 0 []) =
              (Done (Some 32768),
               snd (alloc_qcom_scm_command 4 4 (toy_world 0 0 0 []))))
    by (vm_compute; reflexivity).
  assert (H' : qcom_scm_call_fill 1 2 (Some [7; 8; 9; 10]) 4
                 (snd (alloc_qcom_scm_command 4 4 (toy_world 0 0 0 []))) =
               (Done tt,
                snd (qcom_scm_call_fill 1 2 (Some [7; 8; 9; 10]) 4
                       (snd (alloc_qcom_scm_command 4 4
                               (toy_world 0 0 0 []))))))
    by (vm_compute; reflexivity).
  exact (proj1 (qcom_scm_call_id 1%nat 1 2 (Some [7; 8; 9; 10]) 4 None 4
                  _ _ _ _ H H')).
Defined.

Lemma qcom_scm_call_trap_error_witness :
  fst (qcom_scm_call 3 1 2 (Some [7; 8; 9; 10]) 4 (Some [0; 0; 0; 0]) 4
         (toy_world 2 (2 ^ 32 - 3) 0 [])) =
  Done (-22, Some [0; 0; 0; 0]).
Proof.
  assert (H : alloc_qcom_scm_command 4 4 (toy_world 2 (2 ^ 32 - 3) 0 []) =
              (Done (Some 32768),
               snd (alloc_qcom_scm_command 4 4
                      (toy_world 2 (2 ^ 32 - 3) 0 []))))
    by (vm_compute; reflexivity).
  assert (H' : qcom_scm_call_fill 1 2 (Some [7; 8; 9; 10]) 4
                 (snd (alloc_qcom_scm_command 4 4
                         (toy_world 2 (2 ^ 32 - 3) 0 []))) =
               (Done tt,
                snd (qcom_scm_call_fill 1 2 (Some [7; 8; 9; 10]) 4
                       (snd (alloc_qcom_scm_command 4 4
                               (toy_world 2 (2 ^ 32 - 3) 0 []))))))
    by (vm_compute; reflexivity).
  assert (H'' : __qcom_scm_call 3 32768
                  (logged
                     (snd (qcom_scm_call_fill 1 2 (Some [7; 8; 9; 10]) 4
                             (snd (alloc_qcom_scm_command 4 4
                                     (toy_world 2 (2 ^ 32 - 3) 0 [])))))
                     [ScMutexLock]) =
                (Done (-22),
                 snd (__qcom_scm_call 3 32768
                        (logged
                           (snd (qcom_scm_call_fill 1 2 (Some [7; 8; 9; 10]) 4
                                   (snd (alloc_qcom_scm_command 4 4
                                           (toy_world 2 (2 ^ 32 - 3) 0 [])))))
                           [ScMutexLock]))))
    by (vm_compute; reflexivity).
  rewrite (qcom_scm_call_trap_error 3 1 2 (Some [7; 8; 9; 10]) 4
             (Some [0; 0; 0; 0]) 4 _ _ _ _ _ _ H H' H''
             ltac:(discriminate)).
  reflexivity.
Defined.

(** * More properties of the rate engine *)

Section DriverMoreProperties.

Context {K : Kernel} {D : Type} {RM : Regmap D}.

(** ** The poll, when it settles *)

Lemma update_config_loop_settles md : forall k count (h : @hw D) ret,
  update_settles md k (dev h) = Some ret -> (k < count)%nat ->
  fst (update_config_loop md count h) = ret /\
  trace (snd (update_config_loop md count h)) =
    trace h ++ poll_events md k ++ [EvRead (u32 (CMD_RCGR + reg_offset md))].
Proof.
  induction k as [|k IH]; intros count h ret Hs Hk;
    (destruct count as [|count]; [lia|]);
    cbn [update_config_loop update_settles] in *; unfold regmap_read;
    destruct (dev_read (dev h) (u32 (CMD_RCGR + reg_offset md)))
      as [[r val] d1].
  - destruct (negb (r =? 0)).
    + injection Hs as <-. cbn. auto.
    + destruct (Z.land (u32 val) CMD_RCGR_UPDATE =? 0); [|discriminate].
      injection Hs as <-. cbn. auto.
  - destruct (r =? 0); cbn [andb negb] in *; [|discriminate].
    destruct (Z.land (u32 val) CMD_RCGR_UPDATE =? 0); cbn [negb] in *;
      [discriminate|].
    match goal with |- context [update_config_loop md count ?h1] =>
      destruct (IH count h1 ret Hs ltac:(lia)) as [Hr Ht] end.
    split; [exact Hr|]. rewrite Ht. cbn [udelay emit trace poll_events].
    rewrite <- !app_assoc. reflexivity.
Qed.

(** When the first [k < 500] reads find the update bit set and the next
    read fails, or finds the bit clear, [__mux_div_update_config] returns
    the code of that read, 0 when the bit is clear, after [k + 1] reads and
    [k] delays, and logs nothing. *)
Theorem update_config_settles md (h : @hw D) k ret :
  let reg := u32 (CMD_RCGR + reg_offset md) in
  let commit := EvUpdateBits reg CMD_RCGR_UPDATE CMD_RCGR_UPDATE in
  fst (dev_update_bits (dev h) reg CMD_RCGR_UPDATE CMD_RCGR_UPDATE) = 0 ->
  update_settles md k
    (snd (dev_update_bits (dev h) reg CMD_RCGR_UPDATE CMD_RCGR_UPDATE))
    = Some ret ->
  (k < 500)%nat ->
  fst (__mux_div_update_config md h) = ret /\
  trace (snd (__mux_div_update_config md h)) =
    trace h ++ commit :: poll_events md k ++ [EvRead reg].
Proof.
  intros reg commit Hu Hs Hk. unfold __mux_div_update_config.
  unfold regmap_update_bits. fold reg.
  destruct (dev_update_bits (dev h) reg CMD_RCGR_UPDATE CMD_RCGR_UPDATE)
    as [r d1].
  cbn [fst snd] in *. subst r. cbn [Z.eqb negb].
  match goal with |- context [update_config_loop md 500 ?h1] =>
    destruct (update_config_loop_settles md k 500 h1 ret Hs Hk)
      as [Hr Ht] end.
  split; [exact Hr|]. rewrite Ht. cbn [emit trace].
  rewrite <- app_assoc. reflexivity.
Qed.

(** A register write that fails ends [__mux_div_set_src_div] at once: when
    the write of the configuration register fails the update bit is not
    set, and when the write that sets the update bit fails the command
    register is not read. *)
Theorem set_src_div_write_fails md (h : @hw D) s d :
  let creg := u32 (CFG_RCGR + reg_offset md) in
  let reg := u32 (CMD_RCGR + reg_offset md) in
  let cfgw := EvUpdateBits creg (src_div_mask md) (src_div_val md s d) in
  let commit := EvUpdateBits reg CMD_RCGR_UPDATE CMD_RCGR_UPDATE in
  let '(r1, d1) :=
    dev_update_bits (dev h) creg (src_div_mask md) (src_div_val md s d) in
  let '(r2, d2) :=
    dev_update_bits d1 reg CMD_RCGR_UPDATE CMD_RCGR_UPDATE in
  (r1 <> 0 ->
   __mux_div_set_src_div md h s d =
     (r1, {| dev := d1; trace := trace h ++ [cfgw] |})) /\
  (r1 = 0 -> r2 <> 0 ->
   __mux_div_set_src_div md h s d =
     (r2, {| dev := d2; trace := trace h ++ [cfgw; commit] |})).
Proof.
  intros creg reg cfgw commit.
  destruct (dev_update_bits (dev h) creg (src_div_mask md)
              (src_div_val md s d)) as [r1 d1] eqn:H1.
  destruct (dev_update_bits d1 reg CMD_RCGR_UPDATE CMD_RCGR_UPDATE)
    as [r2 d2] eqn:H2.
  unfold __mux_div_set_src_div, regmap_update_bits. fold creg.
  rewrite H1. split.
  - intros Hr. apply Z.eqb_neq in Hr. rewrite Hr. reflexivity.
  - intros -> Hr. cbn [Z.eqb negb].
    unfold __mux_div_update_config, regmap_update_bits. fold reg.
    cbn [emit dev]. rewrite H2.
    apply Z.eqb_neq in Hr. rewrite Hr. cbn [negb].
    unfold emit. cbn [dev trace]. rewrite <- app_assoc. reflexivity.
Qed.

(** ** The two fields of the configuration register *)

Lemma testbit_above a w n :
  0 <= a < 2 ^ w -> 0 <= w <= n -> Z.testbit a n = false.
Proof.
  intros Ha Hw. destruct (Z.eq_dec a 0) as [->|Hnz].
  - apply Z.bits_0.
  - apply Z.bits_above_log2; [lia|].
    assert (Z.log2 a < w) by (apply Z.log2_lt_pow2; lia). lia.
Qed.

Lemma u32_lor_small a b :
  0 <= a < 2 ^ 32 -> 0 <= b < 2 ^ 32 -> u32 (Z.lor a b) = Z.lor a b.
Proof.
  intros Ha Hb. unfold u32, wrap. rewrite <- Z.land_ones by lia.
  rewrite Z.land_lor_distr_l, !Z.land_ones by lia.
  rewrite !Z.mod_small by assumption. reflexivity.
Qed.

Lemma shiftl_field_range x w s :
  0 <= x < 2 ^ w -> 0 <= w -> 0 <= s -> s + w <= 32 ->
  0 <= Z.shiftl x s < 2 ^ 32.
Proof.
  intros Hx Hw Hs Hfit. rewrite Z.shiftl_mul_pow2 by lia.
  assert (0 < 2 ^ s) by (apply Z.pow_pos_nonneg; lia).
  assert (2 ^ (s + w) <= 2 ^ 32) by (apply Z.pow_le_mono_r; lia).
  rewrite Z.pow_add_r in * by lia. nia.
Qed.

(** The value [__mux_div_set_src_div] writes, without the wrap-around. *)
Lemma src_div_val_fields md s d :
  fields_apart md ->
  0 <= s < 2 ^ src_width md -> 0 <= d < 2 ^ hid_width md ->
  src_div_val md s d =
    Z.lor (Z.shiftl d (hid_shift md)) (Z.shiftl s (src_shift md)) /\
  0 <= src_div_val md s d < 2 ^ 32.
Proof.
  intros (H1 & H2 & H3 & H4 & H5 & H6 & H7) Hs Hd. unfold src_div_val.
  pose proof (shiftl_field_range d _ _ Hd ltac:(lia) H1 H5) as Rd.
  pose proof (shiftl_field_range s _ _ Hs ltac:(lia) H3 H6) as Rs.
  rewrite (u32_small (Z.shiftl d _)), (u32_small (Z.shiftl s _))
    by assumption.
  rewrite u32_lor_small by assumption. split; [reflexivity|].
  rewrite <- (u32_lor_small _ _ Rd Rs). apply u32_range.
Qed.

(** The mask it writes under: the ones of the two fields. *)
Lemma src_div_mask_fields md :
  32 <= BITS_PER_LONG -> fields_apart md ->
  src_div_mask md =
    Z.lor (Z.shiftl (Z.ones (hid_width md)) (hid_shift md))
          (Z.shiftl (Z.ones (src_width md)) (src_shift md)).
Proof.
  intros HL (H1 & H2 & H3 & H4 & H5 & H6 & H7). unfold src_div_mask.
  rewrite !BIT_small by lia.
  assert (Oh : 0 <= Z.ones (hid_width md) < 2 ^ hid_width md).
  { rewrite Z.ones_equiv.
    assert (0 < 2 ^ hid_width md) by (apply Z.pow_pos_nonneg; lia). lia. }
  assert (Os : 0 <= Z.ones (src_width md) < 2 ^ src_width md).
  { rewrite Z.ones_equiv.
    assert (0 < 2 ^ src_width md) by (apply Z.pow_pos_nonneg; lia). lia. }
  replace (2 ^ hid_width md - 1) with (Z.ones (hid_width md))
    by (rewrite Z.ones_equiv; lia).
  replace (2 ^ src_width md - 1) with (Z.ones (src_width md))
    by (rewrite Z.ones_equiv; lia).
  assert (Ph : 2 ^ hid_width md <= 2 ^ 32) by (apply Z.pow_le_mono_r; lia).
  assert (Ps : 2 ^ src_width md <= 2 ^ 32) by (apply Z.pow_le_mono_r; lia).
  rewrite (ulong_small (Z.ones (hid_width md))) by lia.
  rewrite (ulong_small (Z.ones (src_width md))) by lia.
  pose proof (shiftl_field_range _ _ _ Oh ltac:(lia) H1 H5) as Rh.
  pose proof (shiftl_field_range _ _ _ Os ltac:(lia) H3 H6) as Rs.
  rewrite !ulong_small by assumption.
  apply u32_lor_small; assumption.
Qed.

(** A field read out of a word that agrees, under the mask of the two
    fields, with the two values placed at their shifts. *)
Lemma field_of_word val a sa wa b sb wb :
  0 <= sa -> 0 <= wa -> 0 <= sb -> 0 <= wb ->
  (sa + wa <= sb \/ sb + wb <= sa) ->
  0 <= a < 2 ^ wa -> 0 <= b < 2 ^ wb ->
  Z.land val (Z.lor (Z.shiftl (Z.ones wa) sa) (Z.shiftl (Z.ones wb) sb)) =
    Z.lor (Z.shiftl a sa) (Z.shiftl b sb) ->
  Z.land (Z.shiftr val sa) (Z.ones wa) = a.
Proof.
  intros Hsa Hwa Hsb Hwb Hapart Ha Hb Hv.
  apply Z.bits_inj'. intros n Hn.
  rewrite Z.land_spec, Z.shiftr_spec by lia.
  destruct (Z.lt_ge_cases n wa) as [Hlt|Hge].
  - rewrite Z.ones_spec_low by lia. rewrite andb_true_r.
    assert (Hbit : Z.testbit
              (Z.land val (Z.lor (Z.shiftl (Z.ones wa) sa)
                                 (Z.shiftl (Z.ones wb) sb))) (n + sa) =
            Z.testbit (Z.lor (Z.shiftl a sa) (Z.shiftl b sb)) (n + sa))
      by (rewrite Hv; reflexivity).
    rewrite Z.land_spec, !Z.lor_spec, !Z.shiftl_spec in Hbit by lia.
    replace (n + sa - sa) with n in Hbit by lia.
    rewrite (Z.ones_spec_low wa n) in Hbit by lia.
    rewrite orb_true_l, andb_true_r in Hbit.
    rewrite Hbit.
    assert (Hother : Z.testbit b (n + sa - sb) = false).
    { destruct (Z.lt_ge_cases (n + sa - sb) 0) as [Hneg|Hpos].
      - apply Z.testbit_neg_r. exact Hneg.
      - apply (testbit_above b wb); [exact Hb|].
        destruct Hapart; lia. }
    rewrite Hother. apply orb_false_r.
  - rewrite Z.ones_spec_high by lia. rewrite andb_false_r.
    symmetry. apply (testbit_above a wa); [exact Ha|lia].
Qed.

(** What [regmap_update_bits] leaves in a register agrees with the value
    written, under the mask. *)
Lemma update_bits_under_mask md old s d :
  32 <= BITS_PER_LONG -> fields_apart md ->
  0 <= s < 2 ^ src_width md -> 0 <= d < 2 ^ hid_width md ->
  Z.land (Z.lor (Z.land old (Z.lnot (src_div_mask md)))
                (Z.land (src_div_val md s d) (src_div_mask md)))
         (src_div_mask md) = src_div_val md s d.
Proof.
  intros HL Hf Hs Hd.
  destruct (src_div_val_fields md s d Hf Hs Hd) as [Hv _].
  rewrite (src_div_mask_fields md HL Hf), Hv.
  destruct Hf as (H1 & H2 & H3 & H4 & H5 & H6 & H7).
  apply Z.bits_inj'. intros n Hn.
  rewrite !Z.land_spec, !Z.lor_spec, !Z.land_spec, Z.lnot_spec,
    !Z.lor_spec, !Z.shiftl_spec by lia.
  assert (Hd' : Z.testbit d (n - hid_shift md) = true ->
                Z.testbit (Z.ones (hid_width md)) (n - hid_shift md) = true).
  { intros Ht. destruct (Z.lt_ge_cases (n - hid_shift md) 0) as [Hneg|Hpos].
    - rewrite Z.testbit_neg_r in Ht by exact Hneg. discriminate.
    - destruct (Z.lt_ge_cases (n - hid_shift md) (hid_width md)).
      + apply Z.ones_spec_low. lia.
      + rewrite (testbit_above d (hid_width md)) in Ht by lia.
        discriminate. }
  assert (Hs' : Z.testbit s (n - src_shift md) = true ->
                Z.testbit (Z.ones (src_width md)) (n - src_shift md) = true).
  { intros Ht. destruct (Z.lt_ge_cases (n - src_shift md) 0) as [Hneg|Hpos].
    - rewrite Z.testbit_neg_r in Ht by exact Hneg. discriminate.
    - destruct (Z.lt_ge_cases (n - src_shift md) (src_width md)).
      + apply Z.ones_spec_low. lia.
      + rewrite (testbit_above s (src_width md)) in Ht by lia.
        discriminate. }
  destruct (Z.testbit d (n - hid_shift md)) eqn:Ed;
    destruct (Z.testbit s (n - src_shift md)) eqn:Es;
    try rewrite (Hd' eq_refl); try rewrite (Hs' eq_refl);
    cbn; try reflexivity;
    destruct (Z.testbit (Z.ones (hid_width md)) (n - hid_shift md));
    destruct (Z.testbit (Z.ones (src_width md)) (n - src_shift md));
    destruct (Z.testbit old n); reflexivity.
Qed.

(** The two fields as [__mux_div_get_src_div] takes them out of a
    configuration register that holds, under the mask, the value written. *)
Lemma get_src_div_fields md (h : @hw D) locals s d :
  32 <= BITS_PER_LONG -> fields_apart md ->
  0 <= s < 2 ^ src_width md -> 0 <= d < 2 ^ hid_width md ->
  let reg := u32 (CMD_RCGR + reg_offset md) in
  let creg := u32 (CFG_RCGR + reg_offset md) in
  let '(_, v1, d1) := dev_read (dev h) reg in
  let '(_, v2, d2) := dev_read d1 creg in
  Z.land (u32 v1) CMD_RCGR_DIRTY_CFG = 0 ->
  Z.land (u32 v2) (src_div_mask md) = src_div_val md s d ->
  __mux_div_get_src_div md h locals =
  ((s, d), {| dev := d2; trace := trace h ++ [EvRead reg; EvRead creg] |}).
Proof.
  intros HL Hf Hs Hd reg creg.
  destruct (dev_read (dev h) reg) as [[r1 v1] d1] eqn:E1.
  destruct (dev_read d1 creg) as [[r2 v2] d2] eqn:E2.
  intros Hclean Hv.
  unfold __mux_div_get_src_div, regmap_read. fold reg creg.
  rewrite E1, Hclean. cbn [Z.eqb negb emit dev]. rewrite E2.
  pose proof (u32_range v2) as Rv.
  destruct (src_div_val_fields md s d Hf Hs Hd) as [Hval _].
  rewrite (src_div_mask_fields md HL Hf), Hval in Hv.
  destruct Hf as (H1 & H2 & H3 & H4 & H5 & H6 & H7).
  assert (Ssrc : Z.land (Z.shiftr (u32 v2) (src_shift md))
                        (Z.ones (src_width md)) = s).
  { apply (field_of_word (u32 v2) s (src_shift md) (src_width md)
             d (hid_shift md) (hid_width md)); try lia.
    rewrite (Z.lor_comm (Z.shiftl (Z.ones _) _)),
      (Z.lor_comm (Z.shiftl s _)). exact Hv. }
  assert (Sdiv : Z.land (Z.shiftr (u32 v2) (hid_shift md))
                        (Z.ones (hid_width md)) = d).
  { apply (field_of_word (u32 v2) d (hid_shift md) (hid_width md)
             s (src_shift md) (src_width md)); first [lia|exact Hv]. }
  assert (Rsh : forall k, 0 <= k -> 0 <= Z.shiftr (u32 v2) k < 2 ^ 32).
  { intros k Hk. rewrite Z.shiftr_div_pow2 by lia.
    assert (0 < 2 ^ k) by (apply Z.pow_pos_nonneg; lia).
    split; [apply Z.div_pos; lia|].
    apply Z.div_lt_upper_bound; nia. }
  rewrite !BIT_small by lia.
  assert (Ph : 0 < 2 ^ hid_width md <= 2 ^ 32).
  { split; [apply Z.pow_pos_nonneg; lia|apply Z.pow_le_mono_r; lia]. }
  assert (Ps : 0 < 2 ^ src_width md <= 2 ^ 32).
  { split; [apply Z.pow_pos_nonneg; lia|apply Z.pow_le_mono_r; lia]. }
  rewrite (ulong_small (2 ^ src_width md - 1)) by lia.
  rewrite (ulong_small (2 ^ hid_width md - 1)) by lia.
  replace (2 ^ hid_width md - 1) with (Z.ones (hid_width md))
    by (rewrite Z.ones_equiv; lia).
  replace (2 ^ src_width md - 1) with (Z.ones (src_width md))
    by (rewrite Z.ones_equiv; lia).
  rewrite (u32_small (Z.shiftr (u32 v2) (src_shift md))) by (apply Rsh; lia).
  rewrite (u32_small (Z.shiftr (u32 v2) (hid_shift md))) by (apply Rsh; lia).
  rewrite Ssrc, Sdiv.
  rewrite (u32_small s), (u32_small d) by lia.
  unfold emit. cbn [dev trace]. rewrite <- app_assoc. reflexivity.
Qed.

(** What [__mux_div_set_src_div] writes for a source and a divider,
    [__mux_div_get_src_div] reads back: when the configuration is not
    pending and the configuration register agrees, under the mask of the
    two fields, with the value written, the source and the divider come
    back, whatever the other bits of the register. *)
Theorem get_src_div_reads_back md (h : @hw D) locals s d :
  32 <= BITS_PER_LONG -> fields_apart md ->
  0 <= s < 2 ^ src_width md -> 0 <= d < 2 ^ hid_width md ->
  let reg := u32 (CMD_RCGR + reg_offset md) in
  let creg := u32 (CFG_RCGR + reg_offset md) in
  let '(_, v1, d1) := dev_read (dev h) reg in
  let '(_, v2, d2) := dev_read d1 creg in
  Z.land (u32 v1) CMD_RCGR_DIRTY_CFG = 0 ->
  Z.land (u32 v2) (src_div_mask md) = src_div_val md s d ->
  __mux_div_get_src_div md h locals =
  ((s, d), {| dev := d2; trace := trace h ++ [EvRead reg; EvRead creg] |}).
Proof. exact (get_src_div_fields md h locals s d). Qed.

(** ** The two searches, side by side *)

Lemma determine_divs_tried_incl r i p divs ds c :
  In c (dr_tried ds) -> In c (dr_tried (determine_divs r i p divs ds)).
Proof.
  intros Hc. destruct (determine_divs_spec r i p divs ds) as (new & Ht & _).
  rewrite Ht. apply in_or_app. left. exact Hc.
Qed.

Lemma determine_parents_tried_incl md r parents i ds c :
  In c (dr_tried ds) -> In c (dr_tried (determine_parents md r i parents ds)).
Proof.
  intros Hc.
  destruct (determine_parents_spec md r parents i ds) as (new & Ht & _).
  rewrite Ht. apply in_or_app. left. exact Hc.
Qed.

(** The inner loops of the two searches, from states that agree on the best
    rate and on the record, end in states that agree on them, and either
    keep nothing new or keep the same turn. *)
Lemma searches_divs_agree r i p divs : forall ds ss,
  dr_best_rate ds = sr_best_rate ss -> dr_tried ds = sr_tried ss ->
  dr_best_rate (determine_divs r i p divs ds) =
    sr_best_rate (set_rate_divs r i p divs ss) /\
  dr_tried (determine_divs r i p divs ds) =
    sr_tried (set_rate_divs r i p divs ss) /\
  ((dr_req (determine_divs r i p divs ds) = dr_req ds /\
    dr_best_rate (determine_divs r i p divs ds) = dr_best_rate ds /\
    sr_best_src (set_rate_divs r i p divs ss) = sr_best_src ss /\
    sr_best_div (set_rate_divs r i p divs ss) = sr_best_div ss) \/
   (exists c,
      In c (dr_tried (determine_divs r i p divs ds)) /\
      turn_of r i p divs c /\
      dr_req (determine_divs r i p divs ds) = request_of c /\
      dr_best_rate (determine_divs r i p divs ds) = c_rate c /\
      sr_best_src (set_rate_divs r i p divs ss) = cfg p /\
      sr_best_div (set_rate_divs r i p divs ss) = u32 (c_div c - 1))).
Proof.
  induction divs as [|d rest IH]; intros ds ss Hb Ht.
  - cbn. split; [exact Hb|]. split; [exact Ht|]. left. auto.
  - cbn [determine_divs set_rate_divs]. cbv zeta.
    rewrite <- Hb, <- Ht.
    set (asked := mult_frac r d 2).
    set (prate := clk_hw_round_rate p asked).
    set (actual := mult_frac prate 2 d).
    set (c := {| c_parent := i; c_div := d; c_asked := asked;
                 c_parent_rate := prate; c_rate := actual |}).
    assert (Hc : turn_of r i p (d :: rest) c).
    { unfold turn_of. cbn. repeat split; auto. }
    destruct (is_better_rate r (dr_best_rate ds) actual) eqn:Hbetter;
      cbn [dr_best_rate dr_req dr_tried sr_best_rate sr_best_src
           sr_best_div sr_tried].
    + destruct ((actual <? r) || (actual <=? r)) eqn:Hbreak.
      * split; [reflexivity|]. split; [reflexivity|]. right. exists c.
        cbn [dr_best_rate dr_req dr_tried sr_best_rate sr_best_src
             sr_best_div sr_tried].
        split; [apply in_or_app; right; left; reflexivity|].
        split; [exact Hc|]. repeat split; reflexivity.
      * match goal with
        |- context [determine_divs r i p rest ?ds1] =>
          match goal with
          |- context [set_rate_divs r i p rest ?ss1] =>
            destruct (IH ds1 ss1 eq_refl eq_refl) as (Eb & Et & Hcase);
            pose proof (determine_divs_tried_incl r i p rest ds1 c) as Hin
          end
        end.
        cbn [dr_best_rate dr_req dr_tried sr_best_rate sr_best_src
             sr_best_div sr_tried] in *.
        split; [exact Eb|]. split; [exact Et|]. right.
        destruct Hcase as [(Hq & Hbr & Hsrc & Hdiv)|(c' & Hc1 & Hc2 & Hrest)].
        -- exists c. split; [apply Hin; apply in_or_app; right; left; reflexivity|].
           split; [exact Hc|]. rewrite Hq, Hbr, Hsrc, Hdiv.
           repeat split; reflexivity.
        -- exists c'. split; [exact Hc1|]. split; [|exact Hrest].
           eapply turn_of_incl; [|exact Hc2]. intros; right; assumption.
    + destruct ((actual <? r) || (dr_best_rate ds <=? r)) eqn:Hbreak.
      * split; [reflexivity|]. split; [reflexivity|]. left.
        cbn [dr_best_rate dr_req dr_tried sr_best_rate sr_best_src
             sr_best_div sr_tried]. auto.
      * match goal with
        |- context [determine_divs r i p rest ?ds1] =>
          match goal with
          |- context [set_rate_divs r i p rest ?ss1] =>
            destruct (IH ds1 ss1 eq_refl eq_refl) as (Eb & Et & Hcase)
          end
        end.
        cbn [dr_best_rate dr_req dr_tried sr_best_rate sr_best_src
             sr_best_div sr_tried] in *.
        split; [exact Eb|]. split; [exact Et|].
        destruct Hcase as [Hsame|(c' & Hc1 & Hc2 & Hrest)];
          [left; exact Hsame|].
        right. exists c'. split; [exact Hc1|]. split; [|exact Hrest].
        eapply turn_of_incl; [|exact Hc2]. intros; right; assumption.
Qed.

Lemma searches_parents_agree md r parents : forall i ds ss,
  dr_best_rate ds = sr_best_rate ss -> dr_tried ds = sr_tried ss ->
  dr_best_rate (determine_parents md r i parents ds) =
    sr_best_rate (set_rate_parents md r i parents ss) /\
  dr_tried (determine_parents md r i parents ds) =
    sr_tried (set_rate_parents md r i parents ss) /\
  ((dr_req (determine_parents md r i parents ds) = dr_req ds /\
    dr_best_rate (determine_parents md r i parents ds) = dr_best_rate ds /\
    sr_best_src (set_rate_parents md r i parents ss) = sr_best_src ss /\
    sr_best_div (set_rate_parents md r i parents ss) = sr_best_div ss) \/
   (exists c j p,
      In c (dr_tried (determine_parents md r i parents ds)) /\
      nth_error parents j = Some p /\
      turn_of r (i + j) p (div_range md) c /\
      dr_req (determine_parents md r i parents ds) = request_of c /\
      dr_best_rate (determine_parents md r i parents ds) = c_rate c /\
      sr_best_src (set_rate_parents md r i parents ss) = cfg p /\
      sr_best_div (set_rate_parents md r i parents ss) = u32 (c_div c - 1))).
Proof.
  induction parents as [|p rest IH]; intros i ds ss Hb Ht.
  - cbn. split; [exact Hb|]. split; [exact Ht|]. left. auto.
  - cbn [determine_parents set_rate_parents].
    destruct (searches_divs_agree r i p (div_range md) ds ss Hb Ht)
      as (Eb1 & Et1 & Hcase1).
    destruct (IH (S i) _ _ Eb1 Et1) as (Eb2 & Et2 & Hcase2).
    split; [exact Eb2|]. split; [exact Et2|].
    destruct Hcase2 as [(Hq & Hbr & Hsrc & Hdiv)|
                        (c & j & q & Hin & Hn & Hc & Hrest)].
    + rewrite Hq, Hbr, Hsrc, Hdiv.
      destruct Hcase1 as [Hsame|(c & Hin & Hc & Hrest)]; [left; exact Hsame|].
      right. exists c, 0%nat, p.
      split; [apply determine_parents_tried_incl; exact Hin|].
      split; [reflexivity|]. rewrite Nat.add_0_r. split; [exact Hc|exact Hrest].
    + right. exists c, (S j), q. split; [exact Hin|]. split; [exact Hn|].
      rewrite Nat.add_succ_r. split; [exact Hc|exact Hrest].
Qed.

(** The two searches from their first states. *)
Lemma searches_same_turn md parents req :
  let ds := determine_search md parents req in
  let ss := set_rate_search md parents (rate req) in
  sr_best_rate ss = dr_best_rate ds /\
  sr_tried ss = dr_tried ds /\
  (dr_best_rate ds <> 0 ->
   exists c j p,
     In c (dr_tried ds) /\ nth_error parents j = Some p /\
     turn_of (rate req) j p (div_range md) c /\
     dr_req ds = request_of c /\
     sr_best_src ss = cfg p /\
     sr_best_div ss = c_div c - 1).
Proof.
  intros ds ss. unfold ds, ss, determine_search, set_rate_search.
  match goal with
  |- context [determine_parents md (rate req) 0 parents ?ds0] =>
    match goal with
    |- context [set_rate_parents md (rate req) 0 parents ?ss0] =>
      destruct (searches_parents_agree md (rate req) parents 0 ds0 ss0
                  eq_refl eq_refl) as (Eb & Et & Hcase)
    end
  end.
  split; [symmetry; exact Eb|]. split; [symmetry; exact Et|].
  intros Hnz.
  destruct Hcase as [(_ & Hbr & _)|(c & j & p & Hin & Hn & Hc & Hq & _ & Hs & Hd)].
  - cbn [dr_best_rate] in Hbr. contradiction.
  - exists c, j, p. cbn [Nat.add] in Hc.
    split; [exact Hin|]. split; [exact Hn|]. split; [exact Hc|].
    split; [exact Hq|]. split; [exact Hs|].
    rewrite Hd. apply u32_small.
    destruct Hc as (Hdr & _). apply div_range_bounds in Hdr.
    pose proof (u32_range (ulong (BIT (hid_width md) - 1))) as Hm.
    fold (max_div md) in Hm. lia.
Qed.

(** [__mux_div_set_rate_and_parent] repeats the search of
    [mux_div_determine_rate]: for the same rate the two try the same
    dividers in the same order and end with the same best rate, and when
    that is not 0 they keep the same turn: the request holds its rates and
    its parent, and the source and the divider field to program are the
    [cfg] of that parent and its divider less one. *)
Theorem searches_agree md parents req :
  let ds := determine_search md parents req in
  let ss := set_rate_search md parents (rate req) in
  sr_best_rate ss = dr_best_rate ds /\
  sr_tried ss = dr_tried ds /\
  (dr_best_rate ds <> 0 ->
   exists c j p,
     In c (dr_tried ds) /\ nth_error parents j = Some p /\
     turn_of (rate req) j p (div_range md) c /\
     dr_req ds = request_of c /\
     sr_best_src ss = cfg p /\
     sr_best_div ss = c_div c - 1).
Proof. exact (searches_same_turn md parents req). Qed.

(** The request [mux_div_determine_rate] returns on success is that of one
    turn of its search: a parent [j] and a divider of the range of the loop,
    with [best_parent_rate] what that parent rounds
    [mult_frac(req, div, 2)] to, and [rate] the
    [mult_frac(best_parent_rate, 2, div)] of it. *)
Theorem determine_rate_winner md parents req rq :
  EINVAL <> 0 ->
  mux_div_determine_rate md parents req = (0, rq) ->
  exists j p dv,
    nth_error parents j = Some p /\ In dv (div_range md) /\
    best_parent_hw rq = Some j /\
    best_parent_rate rq = clk_hw_round_rate p (mult_frac (rate req) dv 2) /\
    rate rq = mult_frac (best_parent_rate rq) 2 dv.
Proof.
  intros HE. unfold mux_div_determine_rate.
  destruct (Z.eqb_spec (dr_best_rate (determine_search md parents req)) 0)
    as [Hz|Hnz]; intros H; [injection H as H1 H2; lia|injection H as H2].
  destruct (searches_same_turn md parents req) as (_ & _ & Hw).
  destruct (Hw Hnz) as (c & j & p & _ & Hn & Hc & Hq & _).
  destruct Hc as (Hd & Hp & Ha & Hpr & Hr).
  exists j, p, (c_div c). subst rq. rewrite Hq. cbn [request_of rate
    best_parent_rate best_parent_hw].
  split; [exact Hn|]. split; [exact Hd|]. split; [congruence|].
  split; [congruence|exact Hr].
Qed.

(** ** Searches that find nothing *)

Lemma determine_parents_no_divs md r parents : forall i s,
  div_range md = [] -> determine_parents md r i parents s = s.
Proof.
  induction parents as [|p rest IH]; intros i s Hd; [reflexivity|].
  cbn [determine_parents]. rewrite Hd. cbn [determine_divs].
  apply IH. exact Hd.
Qed.

Lemma determine_parents_zero md parents : forall i s,
  dr_best_rate s = 0 ->
  dr_best_rate (determine_parents md 0 i parents s) = 0 /\
  dr_req (determine_parents md 0 i parents s) = dr_req s.
Proof.
  induction parents as [|p rest IH]; intros i s Hb; [cbn; auto|].
  cbn [determine_parents].
  assert (Hstep : dr_best_rate (determine_divs 0 i p (div_range md) s) = 0 /\
                  dr_req (determine_divs 0 i p (div_range md) s) = dr_req s).
  { destruct (div_range md) as [|d rest']; [cbn; auto|].
    cbn [determine_divs]. cbv zeta. rewrite Hb.
    assert (Hn : forall x, is_better_rate 0 0 x = false).
    { intros x. unfold is_better_rate.
      destruct (Z.leb_spec 0 x); destruct (Z.ltb_spec x 0);
        cbn; try reflexivity; lia. }
    rewrite Hn. cbn [dr_best_rate]. rewrite ?Hb.
    change (0 <=? 0) with true. rewrite orb_true_r.
    cbn [dr_best_rate dr_req]. auto. }
  destruct Hstep as [Hb1 Hr1].
  destruct (IH (S i) _ Hb1) as [Hb2 Hr2].
  split; [exact Hb2|]. rewrite Hr2. exact Hr1.
Qed.

(** [mux_div_determine_rate] fails with [-EINVAL], and leaves the request
    as it was, when the clock has no parent, when the rate asked is 0, and
    when the divider field has less than two bits. *)
Theorem determine_rate_nothing md parents req :
  parents = [] \/ rate req = 0 \/
  (32 <= BITS_PER_LONG /\ 0 <= hid_width md <= 1) ->
  mux_div_determine_rate md parents req = (- EINVAL, req).
Proof.
  intros [->|[Hz|[HL Hw]]].
  - reflexivity.
  - unfold mux_div_determine_rate, determine_search. rewrite Hz.
    match goal with |- context [determine_parents md 0 0 parents ?s0] =>
      destruct (determine_parents_zero md parents 0 s0 eq_refl)
        as [Hb Hr] end.
    rewrite Hb, Hr. reflexivity.
  - unfold mux_div_determine_rate, determine_search.
    rewrite determine_parents_no_divs; [reflexivity|].
    unfold div_range. rewrite max_div_small by lia.
    assert (2 ^ hid_width md <= 2 ^ 1) by (apply Z.pow_le_mono_r; lia).
    replace (Z.to_nat (2 ^ hid_width md - 1 - 1)) with 0%nat by lia.
    reflexivity.
Qed.

(** ** What is programmed and what is kept *)

(** Whatever parent index is asked for, [mux_div_set_rate_and_parent]
    programs the source and the divider of the winner of its own search, as
    [mux_div_set_rate] does; the source and the divider kept in the clock
    are those programmed when the programming succeeds, and are left as
    they were when it fails. *)
Theorem set_rate_and_parent_state md parents (h : @hw D) rate0 prate index
        ret md' h' :
  mux_div_set_rate_and_parent md parents h rate0 prate index =
    Some (ret, md', h') ->
  let ss := set_rate_search md parents rate0 in
  (ret, h') = __mux_div_set_src_div md h (sr_best_src ss) (sr_best_div ss) /\
  (ret <> 0 -> md' = md) /\
  (ret = 0 -> md' = set_div_src md (sr_best_div ss) (sr_best_src ss)) /\
  mux_div_set_rate md parents h rate0 prate = (ret, md', h').
Proof.
  unfold mux_div_set_rate_and_parent, mux_div_set_rate.
  destruct (nth_error parents index) as [p|]; [|discriminate].
  unfold __mux_div_set_rate_and_parent.
  destruct (__mux_div_set_src_div md h _ _) as [r h1].
  destruct (Z.eqb_spec r 0) as [Hz|Hnz]; intros H; injection H as <- <- <-;
    cbv zeta.
  - split; [reflexivity|]. split; [intros; contradiction|].
    split; [reflexivity|reflexivity].
  - split; [reflexivity|]. split; [reflexivity|].
    split; [intros; contradiction|reflexivity].
Qed.

(** ** Reading a parent and a rate back *)

Lemma recalc_find_first parents : forall i p src dv,
  nth_error parents i = Some p -> cfg p = src ->
  (forall j q, (j < i)%nat -> nth_error parents j = Some q -> cfg q <> src) ->
  recalc_find parents src dv = Some (recalc_rate_of (clk_rate p) dv).
Proof.
  induction parents as [|q rest IH]; intros i p src dv Hn Hc Hfirst.
  - destruct i; discriminate.
  - destruct i as [|i]; cbn [recalc_find nth_error] in *.
    + injection Hn as ->. rewrite <- Hc, Z.eqb_refl. reflexivity.
    + assert (Hq : cfg q <> src) by (apply (Hfirst 0%nat); [lia|reflexivity]).
      destruct (Z.eqb_spec src (cfg q)) as [He|_]; [congruence|].
      apply (IH i p src dv Hn Hc). intros j q' Hj Hn'.
      apply (Hfirst (S j)); [lia|exact Hn'].
Qed.

Lemma find_parent_first parents : forall k i p src,
  nth_error parents i = Some p -> cfg p = src ->
  (forall j q, (j < i)%nat -> nth_error parents j = Some q -> cfg q <> src) ->
  find_parent parents k src = Some (k + i)%nat.
Proof.
  induction parents as [|q rest IH]; intros k i p src Hn Hc Hfirst.
  - destruct i; discriminate.
  - destruct i as [|i]; cbn [find_parent nth_error] in *.
    + injection Hn as ->. rewrite <- Hc, Z.eqb_refl.
      rewrite Nat.add_0_r. reflexivity.
    + assert (Hq : cfg q <> src) by (apply (Hfirst 0%nat); [lia|reflexivity]).
      destruct (Z.eqb_spec src (cfg q)) as [He|_]; [congruence|].
      rewrite (IH (S k) i p src Hn Hc).
      * f_equal. lia.
      * intros j q' Hj Hn'. apply (Hfirst (S j)); [lia|exact Hn'].
Qed.

(** After a source and a divider [d] were programmed, for the first parent
    with that source, [mux_div_recalc_rate] returns twice the rate of that
    parent over [d + 1], and logs nothing. *)
Theorem recalc_rate_reads_back md parents (h : @hw D) locals i p d :
  32 <= BITS_PER_LONG -> fields_apart md ->
  0 <= cfg p < 2 ^ src_width md -> 0 <= d < 2 ^ hid_width md ->
  nth_error parents i = Some p ->
  (forall j q, (j < i)%nat -> nth_error parents j = Some q ->
               cfg q <> cfg p) ->
  0 <= clk_rate p -> 2 * clk_rate p < 2 ^ BITS_PER_LONG ->
  let reg := u32 (CMD_RCGR + reg_offset md) in
  let creg := u32 (CFG_RCGR + reg_offset md) in
  let '(_, v1, d1) := dev_read (dev h) reg in
  let '(_, v2, d2) := dev_read d1 creg in
  Z.land (u32 v1) CMD_RCGR_DIRTY_CFG = 0 ->
  Z.land (u32 v2) (src_div_mask md) = src_div_val md (cfg p) d ->
  mux_div_recalc_rate md parents h locals =
  (Some (clk_rate p * 2 / (d + 1)),
   {| dev := d2; trace := trace h ++ [EvRead reg; EvRead creg] |}).
Proof.
  intros HL Hf Hs Hd Hn Hfirst Hr Hr2 reg creg.
  pose proof (get_src_div_fields md h locals (cfg p) d HL Hf Hs Hd)
    as Hget. cbv zeta in Hget. fold reg creg in Hget.
  destruct (dev_read (dev h) reg) as [[r1 v1] d1].
  destruct (dev_read d1 creg) as [[r2 v2] d2].
  intros Hclean Hv. unfold mux_div_recalc_rate.
  rewrite (Hget Hclean Hv).
  rewrite (recalc_find_first parents i p (cfg p) d Hn eq_refl Hfirst).
  destruct Hf as (_ & Hw & _).
  assert (2 ^ hid_width md <= 2 ^ 31) by (apply Z.pow_le_mono_r; lia).
  rewrite recalc_rate_of_defined by lia.
  f_equal. f_equal.
  apply mult_frac_exact; try lia.
  assert (0 <= clk_rate p / (d + 1)) by (apply Z.div_pos; lia).
  pose proof (Z.mod_pos_bound (clk_rate p) (d + 1) ltac:(lia)).
  pose proof (Z.div_mod (clk_rate p) (d + 1) ltac:(lia)).
  nia.
Qed.

(** After the source of the parent of index [i] was programmed, the first
    with that source, [mux_div_get_parent] returns [i], and logs nothing. *)
Theorem get_parent_reads_back md parents (h : @hw D) locals i p d :
  32 <= BITS_PER_LONG -> fields_apart md ->
  0 <= cfg p < 2 ^ src_width md -> 0 <= d < 2 ^ hid_width md ->
  nth_error parents i = Some p ->
  (forall j q, (j < i)%nat -> nth_error parents j = Some q ->
               cfg q <> cfg p) ->
  (i < 256)%nat ->
  let reg := u32 (CMD_RCGR + reg_offset md) in
  let creg := u32 (CFG_RCGR + reg_offset md) in
  let '(_, v1, d1) := dev_read (dev h) reg in
  let '(_, v2, d2) := dev_read d1 creg in
  Z.land (u32 v1) CMD_RCGR_DIRTY_CFG = 0 ->
  Z.land (u32 v2) (src_div_mask md) = src_div_val md (cfg p) d ->
  mux_div_get_parent md parents h locals =
  (Z.of_nat i,
   {| dev := d2; trace := trace h ++ [EvRead reg; EvRead creg] |}).
Proof.
  intros HL Hf Hs Hd Hn Hfirst Hi reg creg.
  pose proof (get_src_div_fields md h locals (cfg p) d HL Hf Hs Hd)
    as Hget. cbv zeta in Hget. fold reg creg in Hget.
  destruct (dev_read (dev h) reg) as [[r1 v1] d1].
  destruct (dev_read d1 creg) as [[r2 v2] d2].
  intros Hclean Hv. unfold mux_div_get_parent.
  rewrite (Hget Hclean Hv).
  rewrite (find_parent_first parents 0 i p (cfg p) Hn eq_refl Hfirst).
  cbn [Nat.add]. f_equal. apply wrap_small. lia.
Qed.

End DriverMoreProperties.

(** ** The further properties on concrete platforms *)

Lemma fields_apart_md5 : fields_apart md5.
Proof. unfold fields_apart. cbn. lia. Qed.

Lemma update_config_settles_witness :
  fst (__mux_div_update_config (K := arm64) md5 (idle_rcg [] (Some 7%nat)))
    = 0.
Proof.
  apply (update_config_settles (K := arm64) md5 (idle_rcg [] (Some 7%nat))
           7 0); [vm_compute; reflexivity|vm_compute; reflexivity|lia].
Defined.

Lemma set_src_div_write_fails_witness :
  fst (__mux_div_set_src_div (K := arm64) (RM := failing_regmap) md5
         {| dev := tt; trace := [] |} 3 7) = -5.
Proof.
  pose proof (proj1 (set_src_div_write_fails (K := arm64)
                       (RM := failing_regmap) md5
                       {| dev := tt; trace := [] |} 3 7)
                    ltac:(discriminate)) as H.
  rewrite H. reflexivity.
Defined.

Lemma get_src_div_reads_back_witness :
  fst (__mux_div_get_src_div (K := arm64) md5
         (idle_rcg [(4, 7 + 3 * 256 + 2 ^ 20)] None) (0, 0)) = (3, 7).
Proof.
  pose proof (get_src_div_reads_back (K := arm64) md5
                (idle_rcg [(4, 7 + 3 * 256 + 2 ^ 20)] None) (0, 0) 3 7
                ltac:(cbn; lia) fields_apart_md5
                ltac:(cbn; lia) ltac:(cbn; lia) eq_refl eq_refl) as H.
  rewrite H. reflexivity.
Defined.

Lemma searches_agree_witness :
  sr_best_rate (set_rate_search (K := arm64) md5 two_parents 19200000) =
  dr_best_rate (determine_search (K := arm64) md5 two_parents
                  (request 19200000)).
Proof.
  exact (proj1 (searches_agree (K := arm64) md5 two_parents
                  (request 19200000))).
Defined.

Lemma determine_rate_winner_witness :
  exists j p dv,
    nth_error two_parents j = Some p /\ In dv (div_range (K := arm64) md5) /\
    best_parent_hw
      (snd (mux_div_determine_rate (K := arm64) md5 two_parents
              (request 19200001))) = Some j /\
    best_parent_rate
      (snd (mux_div_determine_rate (K := arm64) md5 two_parents
              (request 19200001))) =
      clk_hw_round_rate (K := arm64) p
        (mult_frac (K := arm64) 19200001 dv 2) /\
    rate (snd (mux_div_determine_rate (K := arm64) md5 two_parents
                 (request 19200001))) =
      mult_frac (K := arm64)
        (best_parent_rate
           (snd (mux_div_determine_rate (K := arm64) md5 two_parents
                   (request 19200001)))) 2 dv.
Proof.
  apply (determine_rate_winner (K := arm64) md5 two_parents
           (request 19200001)); [cbn; discriminate|vm_compute; reflexivity].
Defined.

Lemma determine_rate_nothing_witness :
  mux_div_determine_rate (K := arm64) md5 two_parents (request 0) =
  (-22, request 0).
Proof.
  apply (determine_rate_nothing (K := arm64) md5 two_parents (request 0)).
  right. left. reflexivity.
Defined.

Lemma set_rate_and_parent_state_witness :
  mux_div_set_rate (K := arm64) md5 two_parents (idle_rcg [] (Some 2%nat))
    19200000 0 =
  match mux_div_set_rate_and_parent (K := arm64) md5 two_parents
          (idle_rcg [] (Some 2%nat)) 19200000 0 1 with
  | Some r => r
  | None => (0, md5, idle_rcg [] None)
  end.
Proof.
  destruct (mux_div_set_rate_and_parent (K := arm64) md5 two_parents
              (idle_rcg [] (Some 2%nat)) 19200000 0 1)
    as [[[ret md'] h']|] eqn:E; [|vm_compute in E; discriminate].
  exact (proj2 (proj2 (proj2
    (set_rate_and_parent_state (K := arm64) md5 two_parents _ _ _ _ _ _ _
       E)))).
Defined.

Lemma recalc_rate_reads_back_witness :
  fst (mux_div_recalc_rate (K := arm64) md5 two_parents
         (idle_rcg [(4, 7 + 3 * 256 + 2 ^ 20)] None) (0, 0)) =
  Some 200000000.
Proof.
  pose proof (recalc_rate_reads_back (K := arm64) md5 two_parents
                (idle_rcg [(4, 7 + 3 * 256 + 2 ^ 20)] None) (0, 0)
                1%nat (exact_parent 3 800000000) 7
                ltac:(cbn; lia) fields_apart_md5
                ltac:(cbn; lia) ltac:(cbn; lia) eq_refl) as H.
  rewrite H.
  - reflexivity.
  - intros j q Hj Hq. destruct j as [|j]; [|lia].
    injection Hq as <-. cbn. discriminate.
  - cbn. lia.
  - cbn. lia.
  - reflexivity.
  - reflexivity.
Defined.

Lemma get_parent_reads_back_witness :
  fst (mux_div_get_parent (K := arm64) md5 two_parents
         (idle_rcg [(4, 7 + 3 * 256 + 2 ^ 20)] None) (0, 0)) = 1.
Proof.
  pose proof (get_parent_reads_back (K := arm64) md5 two_parents
                (idle_rcg [(4, 7 + 3 * 256 + 2 ^ 20)] None) (0, 0)
                1%nat (exact_parent 3 800000000) 7
                ltac:(cbn; lia) fields_apart_md5
                ltac:(cbn; lia) ltac:(cbn; lia) eq_refl) as H.
  rewrite H.
  - reflexivity.
  - intros j q Hj Hq. destruct j as [|j]; [|lia].
    injection Hq as <-. cbn. discriminate.
  - lia.
  - reflexivity.
  - reflexivity.
Defined.

(** * More properties of the SCM transport *)

Section ScmMoreProperties.

Context {K : Kernel} {FW : Type} {E : ScmEnv FW} {C : ScmCalls FW}.

Notation "x <- m ;; k" := (bind m (fun x => k))
  (at level 61, m at next level, right associativity).
Notation "m ;; k" := (bind m (fun _ => k))
  (at level 61, right associativity).

(** ** Runs that end, step by step *)

Lemma bind_inv {A B : Type} (m : @M FW A) (k : A -> @M FW B) w b w' :
  bind m k w = (Done b, w') ->
  exists a w1, m w = (Done a, w1) /\ k a w1 = (Done b, w').
Proof.
  unfold bind. destruct (m w) as [[a| |] w1]; intros H;
    [|discriminate|discriminate].
  exists a, w1. auto.
Qed.

Lemma emits_ret {A : Type} P (a : A) : emits P (ret (FW := FW) a).
Proof. intros w. exists []. cbn. rewrite app_nil_r. auto. Qed.

Lemma emits_oops {A : Type} P : emits P (oops (FW := FW) (A := A)).
Proof. intros w. exists []. cbn. rewrite app_nil_r. auto. Qed.

Lemma emits_spin {A : Type} P : emits P (spin (FW := FW) (A := A)).
Proof. intros w. exists []. cbn. rewrite app_nil_r. auto. Qed.

Lemma emits_bind {A B : Type} P (m : @M FW A) (k : A -> @M FW B) :
  emits P m -> (forall a, emits P (k a)) -> emits P (bind m k).
Proof.
  intros Hm Hk w. destruct (Hm w) as (e1 & H1 & P1). unfold bind.
  destruct (m w) as [[a| |] w1]; cbn [snd] in *.
  - destruct (Hk a w1) as (e2 & H2 & P2). exists (e1 ++ e2).
    rewrite H2, H1, app_assoc, forallb_app, P1, P2. auto.
  - exists e1. auto.
  - exists e1. auto.
Qed.

Lemma emits_store_le32 P off v : emits P (store_le32 (FW := FW) off v).
Proof.
  intros w. exists []. unfold store_le32.
  destruct (store_bytes _ _ _); cbn; rewrite app_nil_r; auto.
Qed.

Lemma emits_fetch_le32 P off : emits P (fetch_le32 (FW := FW) off).
Proof.
  intros w. exists []. unfold fetch_le32.
  destruct (load_le32 _ _); cbn; rewrite app_nil_r; auto.
Qed.

Lemma emits_memcpy_to_block P off src n :
  emits P (memcpy_to_block (FW := FW) off src n).
Proof.
  intros w. exists []. unfold memcpy_to_block.
  destruct (load_bytes src 0 n); [destruct (store_bytes _ _ _)|];
    cbn; rewrite app_nil_r; auto.
Qed.

Lemma emits_fill P svc_id cmd_id cmd_buf cmd_len :
  emits P (qcom_scm_call_fill (FW := FW) svc_id cmd_id cmd_buf cmd_len).
Proof.
  unfold qcom_scm_call_fill. apply emits_bind; [apply emits_store_le32|].
  intros _. destruct cmd_buf; [apply emits_memcpy_to_block|apply emits_ret].
Qed.

Lemma emits_trap r0 r2 : emits is_trap_event (trap r0 r2).
Proof.
  intros w. exists [ScSmc r0 r2]. unfold trap.
  destruct (fw_smc _ _ _ _) as [[r m] f]. auto.
Qed.

Lemma emits_smc_loop fuel : forall r0 r2,
  emits is_trap_event (smc_loop fuel r0 r2).
Proof.
  induction fuel as [|fuel IH]; intros r0 r2; cbn [smc_loop].
  - apply emits_spin.
  - apply emits_bind; [apply emits_trap|]. intros r.
    destruct (r =? QCOM_SCM_INTERRUPTED); [apply IH|apply emits_ret].
Qed.

Lemma emits___qcom_scm_call fuel cmd :
  emits is_trap_event (__qcom_scm_call fuel cmd).
Proof.
  unfold __qcom_scm_call, smc.
  apply emits_bind; [apply emits_fetch_le32|]. intros len.
  apply emits_bind.
  { intros w. exists [ScFlush (sw_block w) len]. auto. }
  intros _. apply emits_bind; [apply emits_smc_loop|]. intros r0.
  destruct (s32 r0 <? 0); apply emits_ret.
Qed.

Lemma emits_qcom_scm_inv_range start stop :
  emits is_response_event (qcom_scm_inv_range start stop).
Proof.
  intros w. exists [ScInvRange start stop]. unfold qcom_scm_inv_range.
  destruct (fw_visible _ _) as [m f]. auto.
Qed.

Lemma emits_wait_complete fuel : forall start rsp,
  emits is_response_event (wait_complete fuel start rsp).
Proof.
  induction fuel as [|fuel IH]; intros start rsp; cbn [wait_complete].
  - apply emits_spin.
  - apply emits_bind; [apply emits_qcom_scm_inv_range|]. intros _.
    apply emits_bind; [apply emits_fetch_le32|]. intros c.
    destruct (c =? 0); [apply IH|apply emits_ret].
Qed.

(** What a run of a computation adds to the trace, when it is known to add
    events of one kind only. *)
Lemma emits_run {A : Type} P (m : @M FW A) w res w' :
  emits P m -> m w = (res, w') ->
  exists evs, sw_log w' = sw_log w ++ evs /\ forallb P evs = true.
Proof.
  intros Hm Hr. destruct (Hm w) as (evs & Hl & Hp). rewrite Hr in Hl.
  exists evs. auto.
Qed.

Lemma no_events (evs : list scm_event) :
  forallb (fun _ => false) evs = true -> evs = [].
Proof. destruct evs; [reflexivity|discriminate]. Qed.

Lemma alloc_null cmd_size resp_size (w w' : @world FW) :
  alloc_qcom_scm_command cmd_size resp_size w = (Done None, w') ->
  let len :=
    u32 (u32 (u32 (sizeof_qcom_scm_command + sizeof_qcom_scm_response)
              + cmd_size) + resp_size) in
  kzalloc (PAGE_ALIGN len) = None /\
  w' = logged w [ScKzalloc (PAGE_ALIGN len)].
Proof.
  intros H len. unfold alloc_qcom_scm_command in H. fold len in H.
  apply bind_inv in H. destruct H as (cmd & w1 & Hk & Hrest).
  unfold do_kzalloc in Hk.
  destruct (kzalloc (PAGE_ALIGN len)) as [a|] eqn:Ha.
  - injection Hk as <- <-.
    repeat (apply bind_inv in Hrest; destruct Hrest as (? & ? & _ & Hrest)).
    discriminate.
  - injection Hk as <- <-. injection Hrest as <-. auto.
Qed.

(** The copy into [resp_buf] changes its first bytes only. *)
Lemma memcpy_from_block_inv dst off n (w w' : @world FW) d :
  memcpy_from_block dst off n w = (Done d, w') ->
  exists bs,
    load_bytes (sw_block w) off n = Some bs /\
    zlength bs = n /\ n <= zlength dst /\
    d = bs ++ skipn (Z.to_nat n) dst /\
    w' = logged w [ScCopyOut bs].
Proof.
  unfold memcpy_from_block.
  destruct (load_bytes (sw_block w) off n) as [bs|] eqn:Hl; [|discriminate].
  destruct (store_bytes dst 0 bs) as [d'|] eqn:Hs; [|discriminate].
  intros H. injection H as <- <-. exists bs.
  apply load_bytes_inv in Hl. destruct Hl as (Ho & Hn & Hfit & Hbs).
  assert (Hz : zlength bs = n).
  { subst bs. unfold zlength in *. rewrite length_firstn, length_skipn. lia. }
  apply store_bytes_inv in Hs. destruct Hs as (_ & Hroom & Hd).
  split; [reflexivity|]. split; [exact Hz|]. split; [lia|].
  split; [|reflexivity].
  rewrite Hd. cbn [Z.to_nat firstn app Nat.add]. f_equal. f_equal.
  unfold zlength in Hz. lia.
Qed.

Ltac list_norm :=
  repeat (progress (cbn [app]; rewrite <- ?app_assoc)).

(** The runs of [qcom_scm_call] that end: either the allocation failed, or
    the block was allocated, the trap taken under the lock, the response
    awaited past the lock, and the block freed last. *)
Lemma qcom_scm_call_done fuel svc_id cmd_id cmd_buf cmd_len resp_buf resp_len
      (w w' : @world FW) r out :
  qcom_scm_call fuel svc_id cmd_id cmd_buf cmd_len resp_buf resp_len w =
    (Done (r, out), w') ->
  let size :=
    PAGE_ALIGN
      (u32 (u32 (u32 (sizeof_qcom_scm_command + sizeof_qcom_scm_response)
                 + cmd_len) + resp_len)) in
  (kzalloc size = None /\ r = - ENOMEM /\ out = resp_buf /\
   w' = logged w [ScKzalloc size]) \/
  (exists a E1 E2,
     kzalloc size = Some a /\
     sw_log w' = sw_log w ++ ScKzalloc size :: ScMutexLock :: E1 ++
                 ScMutexUnlock :: E2 ++ [ScKfree a] /\
     forallb is_trap_event E1 = true /\
     forallb is_response_event E2 = true /\
     ((r <> 0 /\ E2 = [] /\ out = resp_buf) \/
      (r = 0 /\
       match resp_buf with
       | None => out = None
       | Some dst =>
           exists bs, zlength bs = resp_len /\ resp_len <= zlength dst /\
                      out = Some (bs ++ skipn (Z.to_nat resp_len) dst) /\
                      In (ScCopyOut bs) E2
       end))).
Proof.
  intros H size. unfold qcom_scm_call in H.
  apply bind_inv in H. destruct H as (cmd & w0 & Ha & H).
  destruct cmd as [a|].
  2:{ left. apply alloc_null in Ha. destruct Ha as [Hk ->].
      injection H as <- <- <-. auto. }
  right. pose proof (alloc_fields _ _ _ _ _ Ha) as Hf. cbv zeta in Hf.
  destruct Hf as (Hk & _ & L0 & _). fold size in Hk, L0.
  apply bind_inv in H. destruct H as (u & w1 & Hfill & H).
  destruct (emits_run (fun _ => false) _ _ _ _ (emits_fill _ _ _ _ _) Hfill)
    as (e & L1 & P1).
  apply no_events in P1. subst e. rewrite app_nil_r in L1.
  apply bind_inv in H. destruct H as (u1 & wl & Hlock & H).
  rewrite log_logged in Hlock. injection Hlock as _ <-.
  apply bind_inv in H. destruct H as (r' & w2 & Hcall & H).
  destruct (emits_run _ _ _ _ _ (emits___qcom_scm_call fuel a) Hcall)
    as (E1 & L2 & P2).
  apply bind_inv in H. destruct H as (u2 & wu & Hunlock & H).
  rewrite log_logged in Hunlock. injection Hunlock as _ <-.
  assert (Lu : sw_log (logged w2 [ScMutexUnlock]) =
               sw_log w ++ ScKzalloc size :: ScMutexLock :: E1 ++
               [ScMutexUnlock]).
  { cbn [logged sw_log] in *. rewrite L2, L1, L0.
    rewrite <- !app_assoc. reflexivity. }
  exists a, E1.
  destruct (Z.eqb_spec r' 0) as [Hz|Hnz]; cbn [negb] in H.
  - (* the response is awaited *)
    subst r'.
    apply bind_inv in H. destruct H as (rsp & w3 & Hrsp & H).
    destruct (emits_run is_response_event _ _ _ _
                (emits_fetch_le32 _ _) Hrsp) as (e3 & L3 & P3).
    apply bind_inv in H. destruct H as (u4 & w4 & Hwait & H).
    destruct (emits_run _ _ _ _ _ (emits_wait_complete fuel _ _) Hwait)
      as (e4 & L4 & P4).
    apply bind_inv in H. destruct H as (bo & w5 & Hbo & H).
    destruct (emits_run is_response_event _ _ _ _
                (emits_fetch_le32 _ _) Hbo) as (e5 & L5 & P5).
    apply bind_inv in H. destruct H as (u6 & w6 & Hinv & H).
    destruct (emits_run _ _ _ _ _ (emits_qcom_scm_inv_range _ _) Hinv)
      as (e6 & L6 & P6).
    apply bind_inv in H. destruct H as (o & w7 & Hout & H).
    apply bind_inv in H. destruct H as (u8 & w8 & Hfree & H).
    unfold free_qcom_scm_command in Hfree. rewrite log_logged in Hfree.
    injection Hfree as _ <-. injection H as <- <- <-.
    assert (Lpre : sw_log w6 =
              sw_log w ++ ScKzalloc size :: ScMutexLock :: E1 ++
              ScMutexUnlock :: (e3 ++ e4 ++ e5 ++ e6)).
    { rewrite L6, L5, L4, L3, Lu. list_norm. reflexivity. }
    assert (Ppre : forallb is_response_event (e3 ++ e4 ++ e5 ++ e6) = true).
    { rewrite !forallb_app, P3, P4, P5, P6. reflexivity. }
    destruct resp_buf as [dst|].
    + apply bind_inv in Hout. destruct Hout as (bo' & w6' & Hbo' & Hout).
      destruct (emits_run is_response_event _ _ _ _
                  (emits_fetch_le32 _ _) Hbo') as (e7 & L7 & P7).
      apply bind_inv in Hout. destruct Hout as (d & w6'' & Hcp & Hout).
      injection Hout as <- <-.
      apply memcpy_from_block_inv in Hcp.
      destruct Hcp as (bs & _ & Hz & Hroom & -> & ->).
      exists ((e3 ++ e4 ++ e5 ++ e6) ++ e7 ++ [ScCopyOut bs]).
      split; [exact Hk|]. split.
      { cbn [logged sw_log]. rewrite L7, Lpre. list_norm. reflexivity. }
      split; [exact P2|]. split.
      { rewrite forallb_app, Ppre, forallb_app, P7. reflexivity. }
      right. split; [reflexivity|]. exists bs.
      split; [exact Hz|]. split; [exact Hroom|]. split; [reflexivity|].
      apply in_or_app. right. apply in_or_app. right. left. reflexivity.
    + injection Hout as <- <-.
      exists (e3 ++ e4 ++ e5 ++ e6).
      split; [exact Hk|]. split.
      { cbn [logged sw_log]. rewrite Lpre. list_norm. reflexivity. }
      split; [exact P2|]. split; [exact Ppre|].
      right. split; reflexivity.
  - apply bind_inv in H. destruct H as (u3 & w3 & Hfree & H).
    unfold free_qcom_scm_command in Hfree. rewrite log_logged in Hfree.
    injection Hfree as _ <-. injection H as <- <- <-.
    exists []. split; [exact Hk|]. split.
    { cbn [logged sw_log] in *. rewrite Lu. list_norm. reflexivity. }
    split; [exact P2|]. split; [reflexivity|].
    left. auto.
Qed.

(** ** What every call that returns has done *)

(** A call of [qcom_scm_call] that returns has either failed to allocate,
    and then done nothing else, or has allocated a block, taken the lock,
    flushed and trapped under the lock only, released it, invalidated and
    copied past the lock only, and freed the block as its last act. *)
Theorem qcom_scm_call_trace fuel svc_id cmd_id cmd_buf cmd_len resp_buf
        resp_len (w w' : @world FW) r out :
  qcom_scm_call fuel svc_id cmd_id cmd_buf cmd_len resp_buf resp_len w =
    (Done (r, out), w') ->
  let size :=
    PAGE_ALIGN
      (u32 (u32 (u32 (sizeof_qcom_scm_command + sizeof_qcom_scm_response)
                 + cmd_len) + resp_len)) in
  (kzalloc size = None /\ r = - ENOMEM /\
   sw_log w' = sw_log w ++ [ScKzalloc size]) \/
  (exists a E1 E2,
     kzalloc size = Some a /\
     sw_log w' = sw_log w ++ ScKzalloc size :: ScMutexLock :: E1 ++
                 ScMutexUnlock :: E2 ++ [ScKfree a] /\
     forallb is_trap_event E1 = true /\
     forallb is_response_event E2 = true /\
     (r <> 0 -> E2 = [])).
Proof.
  intros H size.
  destruct (qcom_scm_call_done _ _ _ _ _ _ _ _ _ _ _ H)
    as [(Hk & Hr & _ & ->)|(a & E1 & E2 & Hk & Hl & P1 & P2 & Hcase)].
  - left. auto.
  - right. exists a, E1, E2. repeat (split; [assumption|]).
    intros Hnz. destruct Hcase as [(_ & He & _)|(Hz & _)];
      [exact He|contradiction].
Qed.

(** What [qcom_scm_call] leaves in [resp_buf]: a [NULL] stays [NULL], and
    a buffer keeps its length and all its bytes from [resp_len] on. *)
Lemma resp_buf_frame fuel svc_id cmd_id cmd_buf cmd_len resp_buf resp_len
      (w w' : @world FW) r out :
  qcom_scm_call fuel svc_id cmd_id cmd_buf cmd_len resp_buf resp_len w =
    (Done (r, out), w') ->
  match resp_buf, out with
  | None, None => True
  | Some dst, Some d =>
      length d = length dst /\
      skipn (Z.to_nat resp_len) d = skipn (Z.to_nat resp_len) dst /\
      (r <> 0 -> d = dst)
  | _, _ => False
  end.
Proof.
  intros H.
  assert (Hsame : out = resp_buf ->
            match resp_buf, out with
            | None, None => True
            | Some dst, Some d =>
                length d = length dst /\
                skipn (Z.to_nat resp_len) d = skipn (Z.to_nat resp_len) dst /\
                (r <> 0 -> d = dst)
            | _, _ => False
            end).
  { intros ->. destruct resp_buf; auto. }
  destruct (qcom_scm_call_done _ _ _ _ _ _ _ _ _ _ _ H)
    as [(_ & _ & Ho & _)|(a & E1 & E2 & _ & _ & _ & _ & Hcase)];
    [exact (Hsame Ho)|].
  destruct Hcase as [(_ & _ & Ho)|(Hz & Hout)]; [exact (Hsame Ho)|].
  destruct resp_buf as [dst|]; [|subst out; exact I].
  destruct Hout as (bs & Hlen & Hroom & -> & _).
  unfold zlength in *.
  split.
  { rewrite length_app, length_skipn. lia. }
  split.
  { rewrite skipn_app, skipn_all2 by lia.
    replace (Z.to_nat resp_len - length bs)%nat with 0%nat by lia.
    reflexivity. }
  intros Hnz. contradiction.
Qed.

(** [qcom_scm_call] never writes [resp_buf] past [resp_len], nor changes
    its length, and leaves it untouched when it returns an error. *)
Theorem qcom_scm_call_resp_buf fuel svc_id cmd_id cmd_buf cmd_len dst
        resp_len (w w' : @world FW) r out :
  qcom_scm_call fuel svc_id cmd_id cmd_buf cmd_len (Some dst) resp_len w =
    (Done (r, out), w') ->
  exists d,
    out = Some d /\ length d = length dst /\
    skipn (Z.to_nat resp_len) d = skipn (Z.to_nat resp_len) dst /\
    (r <> 0 -> d = dst).
Proof.
  intros H. pose proof (resp_buf_frame _ _ _ _ _ _ _ _ _ _ _ H) as Hf.
  cbn in Hf. destruct out as [d|]; [|contradiction].
  exists d. split; [reflexivity|exact Hf].
Qed.


(** When [kzalloc] returns [NULL], [qcom_scm_call] returns [-ENOMEM] and
    has neither taken the lock nor trapped nor freed anything. *)
Theorem qcom_scm_call_no_memory fuel svc_id cmd_id cmd_buf cmd_len resp_buf
        resp_len (w : @world FW) :
  let size :=
    PAGE_ALIGN
      (u32 (u32 (u32 (sizeof_qcom_scm_command + sizeof_qcom_scm_response)
                 + cmd_len) + resp_len)) in
  kzalloc size = None ->
  qcom_scm_call fuel svc_id cmd_id cmd_buf cmd_len resp_buf resp_len w =
    (Done (- ENOMEM, resp_buf), logged w [ScKzalloc size]).
Proof.
  intros size Hk. unfold qcom_scm_call, alloc_qcom_scm_command.
  fold size. unfold bind, do_kzalloc. rewrite Hk. reflexivity.
Qed.

(** ** The command as the secure world gets it *)

(** After the block is allocated and filled, the command given lies
    unchanged at [buf_offset], the three fields the allocator wrote are as
    it wrote them, and all that follows the command, where the response
    will be, is 0. *)
Theorem qcom_scm_call_fill_payload svc_id cmd_id src cmd_len resp_len
        (w w0 w1 : @world FW) a :
  alloc_qcom_scm_command cmd_len resp_len w = (Done (Some a), w0) ->
  qcom_scm_call_fill svc_id cmd_id (Some src) cmd_len w0 = (Done tt, w1) ->
  load_bytes (sw_block w1) CMD_BUF cmd_len =
    Some (firstn (Z.to_nat cmd_len) src) /\
  load_le32 (sw_block w1) CMD_LEN =
    Some (u32 (u32 (u32 (sizeof_qcom_scm_command + sizeof_qcom_scm_response)
                    + cmd_len) + resp_len)) /\
  load_le32 (sw_block w1) CMD_BUF_OFFSET = Some CMD_BUF /\
  load_le32 (sw_block w1) CMD_RESP_HDR_OFFSET =
    Some (u32 (CMD_BUF + cmd_len)) /\
  forall o n, CMD_BUF + cmd_len <= o -> 0 <= n ->
              o + n <= zlength (sw_block w1) ->
              load_bytes (sw_block w1) o n = Some (repeat 0 (Z.to_nat n)).
Proof.
  intros Ha Hf.
  pose proof (alloc_fields _ _ _ _ _ Ha) as Hal. cbv zeta in Hal.
  destruct Hal as (_ & _ & _ & _ & _ & Hlen & Hbo & Hrsp & Hzero).
  unfold qcom_scm_call_fill in Hf.
  apply bind_inv in Hf. destruct Hf as (u & wi & Hid & Hcp).
  apply store_le32_inv in Hid. destruct Hid as (Sid & _ & _).
  unfold memcpy_to_block in Hcp.
  destruct (load_bytes src 0 cmd_len) as [bs|] eqn:Hsrc; [|discriminate].
  destruct (store_bytes (sw_block wi) CMD_BUF bs) as [m|] eqn:Scp;
    [|discriminate].
  injection Hcp as <-. cbn [sw_block].
  apply load_bytes_inv in Hsrc. destruct Hsrc as (_ & Hn & Hfit & Hbs).
  cbn [Z.to_nat skipn] in Hbs.
  assert (Hz : zlength bs = cmd_len).
  { subst bs. unfold zlength in *. rewrite length_firstn. lia. }
  pose proof (store_bytes_length _ _ _ _ Sid) as Z1.
  pose proof (store_bytes_length _ _ _ _ Scp) as Z2.
  unfold CMD_BUF, CMD_ID, CMD_LEN, CMD_BUF_OFFSET, CMD_RESP_HDR_OFFSET in *.
  split.
  { pose proof (load_store_same _ _ _ _ Scp) as Hl. rewrite Hz in Hl.
    rewrite Hl, Hbs. reflexivity. }
  split.
  { unfold load_le32 in *.
    rewrite (load_store_before _ _ _ _ 0 4 Scp) by lia.
    rewrite (load_store_before _ _ _ _ 0 4 Sid) by lia. exact Hlen. }
  split.
  { unfold load_le32 in *.
    rewrite (load_store_before _ _ _ _ 4 4 Scp) by lia.
    rewrite (load_store_before _ _ _ _ 4 4 Sid) by lia. exact Hbo. }
  split.
  { unfold load_le32 in *.
    rewrite (load_store_before _ _ _ _ 8 4 Scp) by lia.
    rewrite (load_store_before _ _ _ _ 8 4 Sid) by lia. exact Hrsp. }
  intros o n Ho Hn' Hroom.
  rewrite (load_store_after _ _ _ _ o n Scp) by lia.
  rewrite (load_store_after _ _ _ _ o n Sid)
    by (rewrite zlength_le32_bytes; lia).
  apply Hzero; lia.
Qed.

(** ** The response *)

Lemma qcom_scm_inv_range_after_inv start stop (w : @world FW) :
  qcom_scm_inv_range start stop w = (Done tt, after_inv w start stop).
Proof.
  unfold qcom_scm_inv_range, after_inv.
  destruct (fw_visible _ _) as [m f]. reflexivity.
Qed.

Lemma fetch_le32_done off (w : @world FW) v :
  load_le32 (sw_block w) off = Some v -> fetch_le32 off w = (Done v, w).
Proof. intros H. unfold fetch_le32. rewrite H. reflexivity. Qed.

(** The poll of the completion flag takes one turn more than the number of
    invalidations that show the flag at 0. *)
Lemma wait_complete_pending start rsp : forall j fuel (w w3 : @world FW) c,
  pending j start rsp w = Some w3 ->
  load_le32
    (sw_block (after_inv w3 start (u32 (start + sizeof_qcom_scm_response))))
    (rsp + RSP_IS_COMPLETE) = Some c ->
  c <> 0 -> (j < fuel)%nat ->
  wait_complete fuel start rsp w =
  (Done tt, after_inv w3 start (u32 (start + sizeof_qcom_scm_response))).
Proof.
  induction j as [|j IH]; intros fuel w w3 c Hp Hc Hnz Hf;
    (destruct fuel as [|fuel]; [lia|]); cbn [wait_complete pending] in *.
  - injection Hp as <-.
    rewrite (bind_done _ _ _ _ _ (qcom_scm_inv_range_after_inv _ _ w)).
    rewrite (bind_done _ _ _ _ _ (fetch_le32_done _ _ _ Hc)).
    apply Z.eqb_neq in Hnz. rewrite Hnz. reflexivity.
  - rewrite (bind_done _ _ _ _ _ (qcom_scm_inv_range_after_inv _ _ w)).
    destruct (load_le32 _ (rsp + RSP_IS_COMPLETE)) as [c0|] eqn:Hc0;
      [|discriminate].
    rewrite (bind_done _ _ _ _ _ (fetch_le32_done _ _ _ Hc0)).
    destruct (c0 =? 0); [|discriminate].
    apply (IH fuel _ w3 c Hp Hc Hnz). lia.
Qed.

(** When the trap returns 0 and the completion flag shows at the
    invalidation that follows [j] others, [qcom_scm_call] invalidates the
    response once more, header and payload, copies into [resp_buf] the
    [resp_len] bytes that lie at the [buf_offset] of the response header,
    frees the block and returns 0. *)
Theorem qcom_scm_call_response fuel svc_id cmd_id cmd_buf cmd_len dst
        resp_len (w w0 w1 w2 w3 : @world FW) a rsp j c bo bo' bs d :
  alloc_qcom_scm_command cmd_len resp_len w = (Done (Some a), w0) ->
  qcom_scm_call_fill svc_id cmd_id cmd_buf cmd_len w0 = (Done tt, w1) ->
  __qcom_scm_call fuel a (logged w1 [ScMutexLock]) = (Done 0, w2) ->
  load_le32 (sw_block w2) CMD_RESP_HDR_OFFSET = Some rsp ->
  let start := u32 (a + rsp) in
  pending j start rsp (logged w2 [ScMutexUnlock]) = Some w3 ->
  let w4 := after_inv w3 start (u32 (start + sizeof_qcom_scm_response)) in
  load_le32 (sw_block w4) (rsp + RSP_IS_COMPLETE) = Some c -> c <> 0 ->
  load_le32 (sw_block w4) (rsp + RSP_BUF_OFFSET) = Some bo ->
  let w5 := after_inv w4 start (u32 (u32 (start + bo) + resp_len)) in
  load_le32 (sw_block w5) (rsp + RSP_BUF_OFFSET) = Some bo' ->
  load_bytes (sw_block w5) (rsp + bo') resp_len = Some bs ->
  store_bytes dst 0 bs = Some d ->
  (j < fuel)%nat ->
  qcom_scm_call fuel svc_id cmd_id cmd_buf cmd_len (Some dst) resp_len w =
  (Done (0, Some d), logged w5 [ScCopyOut bs; ScKfree a]).
Proof.
  intros Ha Hf Hc Hrsp start Hp w4 Hcomp Hnz Hbo w5 Hbo' Hbs Hd Hfuel.
  unfold qcom_scm_call.
  rewrite (bind_done _ _ _ _ _ Ha).
  rewrite (bind_done _ _ _ _ _ Hf).
  rewrite (bind_done _ _ _ _ _ (log_logged ScMutexLock w1)).
  rewrite (bind_done _ _ _ _ _ Hc).
  rewrite (bind_done _ _ _ _ _ (log_logged ScMutexUnlock w2)).
  cbn [Z.eqb negb].
  assert (Hrsp' : fetch_le32 CMD_RESP_HDR_OFFSET (logged w2 [ScMutexUnlock])
                  = (Done rsp, logged w2 [ScMutexUnlock]))
    by (apply fetch_le32_done; exact Hrsp).
  rewrite (bind_done _ _ _ _ _ Hrsp'). fold start.
  rewrite (bind_done _ _ _ _ _
             (wait_complete_pending start rsp j fuel _ w3 c Hp Hcomp Hnz
                Hfuel)).
  fold w4.
  rewrite (bind_done _ _ _ _ _ (fetch_le32_done _ _ _ Hbo)).
  rewrite (bind_done _ _ _ _ _ (qcom_scm_inv_range_after_inv _ _ w4)).
  fold w5. rewrite !bind_bind.
  rewrite (bind_done _ _ _ _ _ (fetch_le32_done _ _ _ Hbo')).
  rewrite !bind_bind.
  assert (Hcp : memcpy_from_block dst (rsp + bo') resp_len w5 =
                (Done d, logged w5 [ScCopyOut bs])).
  { unfold memcpy_from_block. rewrite Hbs, Hd. reflexivity. }
  rewrite (bind_done _ _ _ _ _ Hcp).
  unfold ret at 1. unfold bind at 1. unfold free_qcom_scm_command.
  rewrite (bind_done _ _ _ _ _ (log_logged (ScKfree a) _)).
  rewrite logged_logged. reflexivity.
Qed.

(** ** Loops that do not give up *)

(** [smc] never returns [QCOM_SCM_INTERRUPTED]: what it returns is the
    first answer of the secure world that is not it, a 32-bit value, and
    every execution of the instruction but the first is given [r0 = 1]. *)
Theorem smc_result fuel : forall r0 r2 (w w' : @world FW) r,
  smc_loop fuel r0 r2 w = (Done r, w') ->
  r <> QCOM_SCM_INTERRUPTED /\ 0 <= r < 2 ^ 32 /\
  exists n, sw_log w' = sw_log w ++ ScSmc r0 r2 ::
                        repeat (ScSmc QCOM_SCM_INTERRUPTED r2) n.
Proof.
  induction fuel as [|fuel IH]; intros r0 r2 w w' r H; [discriminate|].
  cbn [smc_loop] in H.
  rewrite (bind_done _ _ _ _ _ (trap_after_trap r0 r2 w)) in H.
  assert (Hlog : sw_log (snd (after_trap w r0 r2)) =
                 sw_log w ++ [ScSmc r0 r2]).
  { unfold after_trap. destruct (fw_smc _ _ _ _) as [[x m] f]. reflexivity. }
  assert (Hrange : 0 <= fst (after_trap w r0 r2) < 2 ^ 32).
  { unfold after_trap. destruct (fw_smc _ _ _ _) as [[x m] f].
    apply u32_range. }
  destruct (Z.eqb_spec (fst (after_trap w r0 r2)) QCOM_SCM_INTERRUPTED)
    as [He|Hne].
  - rewrite He in H. destruct (IH _ _ _ _ _ H) as (Hr & Hb & n & Hl).
    split; [exact Hr|]. split; [exact Hb|]. exists (S n).
    rewrite Hl, Hlog. list_norm. reflexivity.
  - injection H as <- <-. split; [exact Hne|]. split; [exact Hrange|].
    exists 0%nat. exact Hlog.
Qed.

(** As long as the secure world answers [QCOM_SCM_INTERRUPTED], [smc] goes
    on: there is no number of turns after which it returns. *)
Theorem smc_never_gives_up r2 : forall fuel (w : @world FW),
  (forall k, interrupted k r2 w <> None) ->
  fst (smc fuel r2 w) = Spin.
Proof.
  unfold smc. induction fuel as [|fuel IH]; intros w Hall; [reflexivity|].
  cbn [smc_loop].
  rewrite (bind_done _ _ _ _ _ (trap_after_trap 1 r2 w)).
  pose proof (Hall 1%nat) as H1. cbn [interrupted] in H1.
  destruct (after_trap w 1 r2) as [r w1] eqn:Ht. cbn [fst snd].
  destruct (Z.eqb_spec r QCOM_SCM_INTERRUPTED) as [He|Hne];
    [|contradiction].
  rewrite He. apply IH. intros k. specialize (Hall (S k)).
  cbn [interrupted] in Hall. rewrite Ht in Hall.
  rewrite He in Hall. exact Hall.
Qed.

(** As long as the completion flag shows 0, the poll of [qcom_scm_call] goes
    on: it has no bound and no time-out. *)
Theorem wait_complete_never_gives_up start rsp :
  forall fuel (w : @world FW),
  (forall j, pending j start rsp w <> None) ->
  fst (wait_complete fuel start rsp w) = Spin.
Proof.
  induction fuel as [|fuel IH]; intros w Hall; [reflexivity|].
  cbn [wait_complete].
  rewrite (bind_done _ _ _ _ _ (qcom_scm_inv_range_after_inv _ _ w)).
  pose proof (Hall 1%nat) as H1. cbn [pending] in H1.
  destruct (load_le32 _ (rsp + RSP_IS_COMPLETE)) as [c|] eqn:Hc;
    [|contradiction].
  rewrite (bind_done _ _ _ _ _ (fetch_le32_done _ _ _ Hc)).
  destruct (Z.eqb_spec c 0) as [He|Hne]; [|contradiction].
  apply IH. intros j. specialize (Hall (S j)).
  cbn [pending] in Hall. rewrite Hc in Hall. subst c.
  exact Hall.
Qed.

(** ** The identifier of an atomic call *)

Lemma SCM_ATOMIC_bit svc cmd n i :
  0 <= i ->
  Z.testbit (SCM_ATOMIC svc cmd n) i =
  if i <? 4 then Z.testbit n i
  else if (i =? 5) || (i =? 9) then true
  else if i <? 12 then false
  else if i <? 22 then Z.testbit cmd (i - 12)
  else if i <? 32 then Z.testbit svc (i - 22)
  else false.
Proof.
  intros Hi. unfold SCM_ATOMIC, SCM_CLASS_REGISTER, SCM_MASK_IRQS, u32, wrap.
  change (Z.shiftl 2 8) with (2 ^ 9). change (Z.shiftl 1 5) with (2 ^ 5).
  change 1023 with (Z.ones 10). change 15 with (Z.ones 4).
  repeat (rewrite ?Z.testbit_mod_pow2, ?Z.lor_spec, ?Z.land_spec by lia;
          rewrite ?(Z.shiftl_spec _ 12 i) by lia).
  rewrite !Z.pow2_bits_eqb, !Z.testbit_ones by lia.
  destruct (Z.lt_ge_cases (i - 12) 0) as [Hneg|Hpos].
  - rewrite !(Z.testbit_neg_r _ (i - 12)) by lia.
    repeat match goal with
           | |- context [?a <? ?b] => destruct (Z.ltb_spec a b)
           | |- context [?a <=? ?b] => destruct (Z.leb_spec a b)
           | |- context [?a =? ?b] => destruct (Z.eqb_spec a b)
           end; try lia; cbn;
      rewrite ?andb_true_r, ?andb_false_r, ?orb_true_r, ?orb_false_r;
      reflexivity.
  - rewrite Z.shiftl_spec by lia.
    replace (i - 12 - 10) with (i - 22) by lia.
    repeat match goal with
           | |- context [?a <? ?b] => destruct (Z.ltb_spec a b)
           | |- context [?a <=? ?b] => destruct (Z.leb_spec a b)
           | |- context [?a =? ?b] => destruct (Z.eqb_spec a b)
           end; try lia; cbn;
      rewrite ?andb_true_r, ?andb_false_r, ?orb_true_r, ?orb_false_r;
      try reflexivity.
    all: try (rewrite (Z.testbit_neg_r _ (i - 22)) by lia; reflexivity).
Qed.

(** The identifier [SCM_ATOMIC] packs holds the number of arguments in its
    bits 0 to 3, the bits 5 and 9 of the register class and of the masked
    interrupts and nothing else up to bit 11, the low ten bits of the
    command in its bits 12 to 21, and the low ten bits of the service in
    its bits 22 to 31; [qcom_scm_call_atomic1] executes [smc] once, with
    that identifier for one argument, and does nothing else. *)
Theorem SCM_ATOMIC_fields svc cmd n :
  (forall arg1 (w : @world FW),
     sw_log (snd (qcom_scm_call_atomic1 svc cmd arg1 w)) =
       sw_log w ++ [ScSmc (SCM_ATOMIC svc cmd 1) arg1]) /\
  0 <= SCM_ATOMIC svc cmd n < 2 ^ 32 /\
  Z.land (SCM_ATOMIC svc cmd n) 15 = Z.land n 15 /\
  Z.land (Z.shiftr (SCM_ATOMIC svc cmd n) 4) 255 = 34 /\
  Z.land (Z.shiftr (SCM_ATOMIC svc cmd n) 12) 1023 = Z.land cmd 1023 /\
  Z.shiftr (SCM_ATOMIC svc cmd n) 22 = Z.land svc 1023.
Proof.
  split.
  { intros arg1 w. unfold qcom_scm_call_atomic1, bind, trap.
    destruct (fw_smc _ _ _ _) as [[r m] f]. reflexivity. }
  split; [apply u32_range|].
  change 15 with (Z.ones 4). change 255 with (Z.ones 8).
  change 1023 with (Z.ones 10).
  repeat split; apply Z.bits_inj'; intros i Hi;
    rewrite ?Z.land_spec, ?Z.shiftr_spec, ?Z.testbit_ones by lia;
    rewrite SCM_ATOMIC_bit by lia.
  - destruct (Z.leb_spec 0 i); [|lia].
    destruct (Z.ltb_spec i 4); cbn;
      rewrite ?andb_true_r, ?andb_false_r; reflexivity.
  - destruct (Z.leb_spec 0 i); [|lia]. cbn [andb].
    change 34 with (Z.lor (2 ^ 1) (2 ^ 5)).
    rewrite Z.lor_spec, !Z.pow2_bits_eqb by lia.
    repeat match goal with
           | |- context [?a <? ?b] => destruct (Z.ltb_spec a b)
           | |- context [?a =? ?b] => destruct (Z.eqb_spec a b)
           end; try lia; reflexivity.
  - destruct (Z.leb_spec 0 i); [|lia]. cbn [andb].
    replace (i + 12 - 12) with i by lia.
    repeat match goal with
           | |- context [?a <? ?b] => destruct (Z.ltb_spec a b)
           | |- context [?a =? ?b] => destruct (Z.eqb_spec a b)
           end; try lia; cbn;
      rewrite ?andb_true_r, ?andb_false_r; reflexivity.
  - destruct (Z.leb_spec 0 i); [|lia]. cbn [andb].
    replace (i + 22 - 22) with i by lia.
    repeat match goal with
           | |- context [?a <? ?b] => destruct (Z.ltb_spec a b)
           | |- context [?a =? ?b] => destruct (Z.eqb_spec a b)
           end; try lia; cbn;
      rewrite ?andb_true_r, ?andb_false_r; reflexivity.
Qed.

(** ** The version, asked once *)

Lemma version_loop_run : forall k fuel r0 r1 (w : @world FW) r0' r1' w1 a b w2,
  version_interrupted k r0 r1 w = Some (r0', r1', w1) ->
  after_trap_version w1 r0' r1' = (a, b, w2) ->
  a <> QCOM_SCM_INTERRUPTED ->
  (k < fuel)%nat ->
  version_loop fuel r0 r1 w = (Done b, w2).
Proof.
  induction k as [|k IH]; intros fuel r0 r1 w r0' r1' w1 a b w2 Hk Ha Hne Hf;
    (destruct fuel as [|fuel]; [lia|]); cbn [version_loop version_interrupted] in *.
  - injection Hk as <- <- <-. unfold after_trap_version in Ha.
    unfold bind, trap_version.
    destruct (fw_smc_version (sw_fw w) r0 r1) as [[x y] f].
    injection Ha as <- <- <-. cbn [fst snd].
    apply Z.eqb_neq in Hne. rewrite Hne. reflexivity.
  - unfold after_trap_version in Hk. unfold bind, trap_version.
    destruct (fw_smc_version (sw_fw w) r0 r1) as [[x y] f]. cbn [fst snd].
    destruct (u32 x =? QCOM_SCM_INTERRUPTED); [|discriminate Hk].
    apply (IH fuel _ _ _ _ _ _ _ _ _ Hk Ha Hne). lia.
Qed.

(** With a version already in its static variable, [qcom_scm_get_version]
    returns it and does nothing else.  With [(u32)-1] there it takes the
    lock, executes [smc] with [0x1 << 8] in [r0] and the address of
    [context_id] in [r1], again with the registers the [smc] left for as
    long as it leaves [QCOM_SCM_INTERRUPTED] in [r0], and releases the
    lock; the value returned and left in the static variable is what the
    last [smc] left in [r1]; and when that is not [(u32)-1], every later
    call returns it without taking the lock or trapping. *)
Theorem qcom_scm_get_version_cached fuel version context_id (w : @world FW) :
  (version <> u32 (-1) ->
   qcom_scm_get_version fuel version context_id w =
     (Done (version, version), w)) /\
  (version = u32 (-1) ->
   forall k r0 r1 w1 a b w2,
     version_interrupted k (u32 (Z.shiftl 1 8)) (u32 context_id)
       (logged w [ScMutexLock]) = Some (r0, r1, w1) ->
     after_trap_version w1 r0 r1 = (a, b, w2) ->
     a <> QCOM_SCM_INTERRUPTED ->
     (k < fuel)%nat ->
     qcom_scm_get_version fuel version context_id w =
       (Done (b, b), logged w2 [ScMutexUnlock]) /\
     0 <= b < 2 ^ 32 /\
     (b <> u32 (-1) ->
      forall fuel' context_id' (w'' : @world FW),
        qcom_scm_get_version fuel' b context_id' w'' = (Done (b, b), w''))).
Proof.
  unfold qcom_scm_get_version. split.
  - intros Hne. apply Z.eqb_neq in Hne. rewrite Hne. reflexivity.
  - intros He k r0 r1 w1 a b w2 Hk Ha Hna Hf.
    apply Z.eqb_eq in He. rewrite He. cbn [negb].
    split; [|split].
    + unfold bind at 1. rewrite log_logged.
      unfold bind at 1.
      rewrite (version_loop_run k fuel _ _ _ _ _ _ _ _ _ Hk Ha Hna Hf).
      unfold bind at 1. rewrite log_logged. reflexivity.
    + unfold after_trap_version in Ha.
      destruct (fw_smc_version (sw_fw w1) r0 r1) as [[x y] f].
      injection Ha as _ <- _. apply u32_range.
    + intros Hnz fuel' ctx' w''.
      apply Z.eqb_neq in Hnz. rewrite Hnz. reflexivity.
Qed.

(** ** The boot addresses *)

Lemma set_wb_entry_spec : forall wb cpu entry wb',
  set_wb_entry wb cpu entry = Some wb' ->
  map wb_flag wb' = map wb_flag wb /\
  (exists x, nth_error wb' cpu = Some x /\ wb_entry x = entry) /\
  (forall c, c <> cpu -> nth_error wb' c = nth_error wb c).
Proof.
  induction wb as [|e rest IH]; intros cpu entry wb' H; [discriminate|].
  destruct cpu as [|cpu]; cbn [set_wb_entry] in H.
  - injection H as <-. split; [reflexivity|]. split.
    + eexists. split; reflexivity.
    + intros c Hc. destruct c; [contradiction|reflexivity].
  - destruct (set_wb_entry rest cpu entry) as [rest'|] eqn:Hr;
      [|discriminate].
    injection H as <-. destruct (IH _ _ _ Hr) as (Hf & Hx & Ho).
    split; [cbn; rewrite Hf; reflexivity|]. split; [exact Hx|].
    intros c Hc. destruct c; [reflexivity|]. cbn. apply Ho. lia.
Qed.

Lemma warm_boot_store_spec entry : forall cpus wb wb',
  warm_boot_store wb entry cpus = Some wb' ->
  map wb_flag wb' = map wb_flag wb /\
  (forall c, In c cpus ->
             exists x, nth_error wb' c = Some x /\ wb_entry x = entry) /\
  (forall c, ~ In c cpus -> nth_error wb' c = nth_error wb c).
Proof.
  induction cpus as [|cpu rest IH]; intros wb wb' H;
    cbn [warm_boot_store] in H.
  - injection H as <-. split; [reflexivity|].
    split; [intros c []|reflexivity].
  - destruct (set_wb_entry wb cpu entry) as [wb1|] eqn:H1; [|discriminate].
    destruct (set_wb_entry_spec _ _ _ _ H1) as (F1 & X1 & O1).
    destruct (IH _ _ H) as (F2 & X2 & O2).
    split; [congruence|]. split.
    + intros c [<-|Hc]; [|apply X2; exact Hc].
      destruct (in_dec Nat.eq_dec cpu rest) as [Hin|Hout];
        [apply X2; exact Hin|].
      rewrite (O2 cpu Hout). exact X1.
    + intros c Hc. rewrite O2 by (intros Hin; apply Hc; right; exact Hin).
      apply O1. intros ->. apply Hc. left. reflexivity.
Qed.

Lemma warm_boot_flags_same wb entry : forall cpus flags,
  (forall c, In c cpus ->
             exists x, nth_error wb c = Some x /\ wb_entry x = entry) ->
  warm_boot_flags wb entry cpus flags = Some flags.
Proof.
  induction cpus as [|cpu rest IH]; intros flags Hall; [reflexivity|].
  cbn [warm_boot_flags].
  destruct (Hall cpu (or_introl eq_refl)) as (x & Hx & He). rewrite Hx.
  rewrite He, Z.eqb_refl. apply IH. intros c Hc. apply Hall. right. exact Hc.
Qed.

Lemma warm_boot_flags_zero wb entry : forall cpus flags,
  Forall (fun x => wb_flag x <> 0) wb ->
  warm_boot_flags wb entry cpus flags = Some 0 ->
  flags = 0 /\
  forall c, In c cpus ->
            exists x, nth_error wb c = Some x /\ wb_entry x = entry.
Proof.
  induction cpus as [|cpu rest IH]; intros flags Hnz H;
    cbn [warm_boot_flags] in H.
  - injection H as ->. split; [reflexivity|intros c []].
  - destruct (nth_error wb cpu) as [x|] eqn:Hx; [|discriminate].
    destruct (Z.eqb_spec entry (wb_entry x)) as [He|Hne].
    + destruct (IH _ Hnz H) as (Hf & Hall). split; [exact Hf|].
      intros c [<-|Hc]; [exists x; auto|apply Hall; exact Hc].
    + destruct (IH _ Hnz H) as (Hf & _).
      apply Z.lor_eq_0_iff in Hf. destruct Hf as [_ Hf].
      rewrite Forall_forall in Hnz.
      exfalso. apply (Hnz x); [eapply nth_error_In; exact Hx|exact Hf].
Qed.

Lemma wb_flags_nonzero wb :
  map wb_flag wb = map wb_flag qcom_scm_wb_init ->
  Forall (fun x => wb_flag x <> 0) wb.
Proof.
  intros H. apply Forall_forall. intros x Hx.
  assert (Hin : In (wb_flag x) (map wb_flag wb)) by (apply in_map; exact Hx).
  rewrite H in Hin. cbn in Hin.
  unfold QCOM_SCM_FLAG_WARMBOOT_CPU0, QCOM_SCM_FLAG_WARMBOOT_CPU1,
    QCOM_SCM_FLAG_WARMBOOT_CPU2, QCOM_SCM_FLAG_WARMBOOT_CPU3 in Hin.
  destruct Hin as [<-|[<-|[<-|[<-|[]]]]]; discriminate.
Qed.

(** What a call of [__qcom_scm_set_warm_boot_addr] that returns leaves in
    the array. *)
Lemma warm_boot_done fuel wb entry cpus (w w' : @world FW) r wb' :
  map wb_flag wb = map wb_flag qcom_scm_wb_init ->
  __qcom_scm_set_warm_boot_addr fuel wb entry cpus w = (Done (r, wb'), w') ->
  map wb_flag wb' = map wb_flag qcom_scm_wb_init /\
  (r <> 0 -> wb' = wb) /\
  (r = 0 ->
   (forall c, In c cpus ->
              exists x, nth_error wb' c = Some x /\ wb_entry x = entry) /\
   (forall c, ~ In c cpus -> nth_error wb' c = nth_error wb c)).
Proof.
  intros Hflags H. unfold __qcom_scm_set_warm_boot_addr in H.
  destruct (warm_boot_flags wb entry cpus 0) as [flags|] eqn:Hf;
    [|discriminate].
  destruct (Z.eqb_spec flags 0) as [Hz|Hnz].
  - injection H as <- <- <-. subst flags.
    destruct (warm_boot_flags_zero _ _ _ _ (wb_flags_nonzero _ Hflags) Hf)
      as (_ & Hall).
    split; [exact Hflags|]. split; [reflexivity|]. intros _.
    split; [exact Hall|reflexivity].
  - apply bind_inv in H. destruct H as (r0 & w1 & _ & H).
    destruct (Z.eqb_spec r0 0) as [Hr|Hr].
    + destruct (warm_boot_store wb entry cpus) as [wb1|] eqn:Hs;
        [|discriminate].
      injection H as <- <- <-.
      destruct (warm_boot_store_spec _ _ _ _ Hs) as (F & X & O).
      split; [congruence|]. split; [intros; contradiction|].
      intros _. split; [exact X|exact O].
    + injection H as <- <- <-.
      split; [exact Hflags|]. split; [reflexivity|]. intros; contradiction.
Qed.

(** [__qcom_scm_set_warm_boot_addr] keeps the array [qcom_scm_wb] in step
    with the secure world: when it returns 0 every core of the mask has the
    entry point, and the other cores theirs as before; when it returns an
    error the array is as before; the flags never change. *)
Theorem warm_boot_addr_recorded fuel wb entry cpus (w w' : @world FW) r wb' :
  map wb_flag wb = map wb_flag qcom_scm_wb_init ->
  __qcom_scm_set_warm_boot_addr fuel wb entry cpus w = (Done (r, wb'), w') ->
  map wb_flag wb' = map wb_flag qcom_scm_wb_init /\
  (r <> 0 -> wb' = wb) /\
  (r = 0 ->
   (forall c, In c cpus ->
              exists x, nth_error wb' c = Some x /\ wb_entry x = entry) /\
   (forall c, ~ In c cpus -> nth_error wb' c = nth_error wb c)).
Proof. apply warm_boot_done. Qed.

(** After [__qcom_scm_set_warm_boot_addr] has returned 0 for an entry point
    and a mask, a further call for the same entry point and mask returns 0
    at once: no block is allocated and the secure world is not called. *)
Theorem warm_boot_addr_again fuel wb entry cpus (w w' : @world FW) wb' :
  map wb_flag wb = map wb_flag qcom_scm_wb_init ->
  __qcom_scm_set_warm_boot_addr fuel wb entry cpus w = (Done (0, wb'), w') ->
  forall fuel' (w'' : @world FW),
    __qcom_scm_set_warm_boot_addr fuel' wb' entry cpus w'' =
      (Done (0, wb'), w'').
Proof.
  intros Hflags H fuel' w''.
  destruct (warm_boot_done _ _ _ _ _ _ _ _ Hflags H) as (_ & _ & Hz).
  destruct (Hz eq_refl) as (Hall & _).
  unfold __qcom_scm_set_warm_boot_addr.
  rewrite (warm_boot_flags_same wb' entry cpus 0 Hall). reflexivity.
Qed.

Lemma cold_boot_flags_spec : forall cpus flags absent,
  cold_boot_flags cpus flags absent =
    (fold_left Z.lor
       (map (fun c => nth c scm_cb_flags 0)
            (filter (fun c => (c <? 4)%nat) cpus)) flags,
     absent ++ filter (fun c => 4 <=? c)%nat cpus).
Proof.
  induction cpus as [|cpu rest IH]; intros flags absent;
    cbn [cold_boot_flags filter].
  - rewrite app_nil_r. reflexivity.
  - destruct (nth_error scm_cb_flags cpu) as [f|] eqn:Hn.
    + assert (Hlt : (cpu < length scm_cb_flags)%nat).
      { apply nth_error_Some. rewrite Hn. discriminate. }
      cbn [scm_cb_flags length] in Hlt.
      destruct (Nat.leb_spec 4 cpu); [lia|].
      destruct (Nat.ltb_spec cpu 4); [|lia].
      cbn [map fold_left]. rewrite (nth_error_nth _ _ 0 Hn). apply IH.
    + assert (Hge : (length scm_cb_flags <= cpu)%nat)
        by (apply nth_error_None; exact Hn).
      cbn [scm_cb_flags length] in Hge.
      destruct (Nat.leb_spec 4 cpu); [|lia].
      destruct (Nat.ltb_spec cpu 4); [lia|].
      rewrite IH, <- app_assoc. reflexivity.
Qed.

(** [__qcom_scm_set_cold_boot_addr] returns [-EINVAL] for a mask that is
    [NULL] or empty, and then calls nothing.  For any other mask it asks
    [qcom_scm_set_boot_addr] once, with the physical address of the entry
    and the flags of the cores below 4 of the mask, and returns what that
    returns; the cores it takes out of the present mask are those of the
    mask from 4 on, in their order. *)
Theorem cold_boot_addr_mask fuel entry (w : @world FW) :
  __qcom_scm_set_cold_boot_addr fuel entry None w =
    (Done (- EINVAL, []), w) /\
  __qcom_scm_set_cold_boot_addr fuel entry (Some []) w =
    (Done (- EINVAL, []), w) /\
  (forall l r w',
     l <> [] ->
     qcom_scm_set_boot_addr fuel (u32 (virt_to_phys entry))
       (known_cold_flags l) w = (Done r, w') ->
     __qcom_scm_set_cold_boot_addr fuel entry (Some l) w =
       (Done (r, filter (fun c => 4 <=? c)%nat l), w')).
Proof.
  split; [reflexivity|]. split; [reflexivity|].
  intros l r w' Hl H. unfold __qcom_scm_set_cold_boot_addr.
  destruct l as [|cpu rest]; [contradiction|].
  rewrite cold_boot_flags_spec. fold (known_cold_flags (cpu :: rest)).
  cbn [app]. unfold bind. rewrite H. reflexivity.
Qed.

End ScmMoreProperties.

(** ** The further properties with the secure worlds of the examples *)

Lemma stuck_interrupted r2 : forall k (w : @world unit),
  interrupted (E := stuck_env) k r2 w <> None.
Proof.
  induction k as [|k IH]; intros w; [discriminate|].
  cbn [interrupted]. unfold after_trap. cbn [fw_smc stuck_env].
  change (u32 QCOM_SCM_INTERRUPTED =? QCOM_SCM_INTERRUPTED) with true.
  cbv iota. apply IH.
Qed.

Lemma stuck_pending start rsp : forall j (w : @world unit),
  load_le32 (sw_block w) (rsp + RSP_IS_COMPLETE) = Some 0 ->
  pending (E := stuck_env) j start rsp w <> None.
Proof.
  induction j as [|j IH]; intros w Hw; [discriminate|].
  cbn [pending]. unfold after_inv. cbn [fw_visible stuck_env sw_block].
  rewrite Hw. cbn [Z.eqb]. apply IH. exact Hw.
Qed.

Lemma qcom_scm_call_trace_witness :
  exists a E1 E2,
    sw_log (snd (qcom_scm_call 10 1 2 (Some [7; 8; 9; 10]) 4
                   (Some [0; 0; 0; 0]) 4 (toy_world 2 0 1 [1; 2; 3; 4]))) =
    ScKzalloc 4096 :: ScMutexLock :: E1 ++ ScMutexUnlock :: E2 ++ [ScKfree a].
Proof.
  assert (H : qcom_scm_call 10 1 2 (Some [7; 8; 9; 10]) 4 (Some [0; 0; 0; 0])
                4 (toy_world 2 0 1 [1; 2; 3; 4]) =
              (Done (0, Some [1; 2; 3; 4]),
               snd (qcom_scm_call 10 1 2 (Some [7; 8; 9; 10]) 4
                      (Some [0; 0; 0; 0]) 4 (toy_world 2 0 1 [1; 2; 3; 4]))))
    by (vm_compute; reflexivity).
  destruct (qcom_scm_call_trace _ _ _ _ _ _ _ _ _ _ _ H)
    as [(Hk & _)|(a & E1 & E2 & _ & Hl & _)].
  - discriminate Hk.
  - exists a, E1, E2. exact Hl.
Defined.

Lemma qcom_scm_call_resp_buf_witness :
  exists d, length d = 6%nat /\ skipn 4 d = [5; 6].
Proof.
  assert (H : qcom_scm_call 10 1 2 (Some [7; 8; 9; 10]) 4
                (Some [0; 0; 0; 0; 5; 6]) 4 (toy_world 2 0 1 [1; 2; 3; 4]) =
              (Done (0, Some [1; 2; 3; 4; 5; 6]),
               snd (qcom_scm_call 10 1 2 (Some [7; 8; 9; 10]) 4
                      (Some [0; 0; 0; 0; 5; 6]) 4
                      (toy_world 2 0 1 [1; 2; 3; 4]))))
    by (vm_compute; reflexivity).
  destruct (qcom_scm_call_resp_buf _ _ _ _ _ _ _ _ _ _ _ H)
    as (d & _ & Hl & Hs & _).
  exists d. split; [exact Hl|exact Hs].
Defined.


Lemma qcom_scm_call_no_memory_witness :
  fst (qcom_scm_call (E := stuck_env) 5 1 2 None 0 None 0 (stuck_world [])) =
  Done (- 12, None).
Proof.
  rewrite (qcom_scm_call_no_memory (E := stuck_env) 5 1 2 None 0 None 0
             (stuck_world []) eq_refl).
  reflexivity.
Defined.

Lemma qcom_scm_call_fill_payload_witness :
  load_bytes
    (sw_block (snd (qcom_scm_call_fill 1 2 (Some [7; 8; 9; 10]) 4
                      (snd (alloc_qcom_scm_command 4 4 (toy_world 0 0 0 []))))))
    CMD_BUF 4 = Some [7; 8; 9; 10].
Proof.
  assert (H : alloc_qcom_scm_command 4 4 (toy_world 0 0 0 []) =
              (Done (Some 32768),
               snd (alloc_qcom_scm_command 4 4 (toy_world 0 0 0 []))))
    by (vm_compute; reflexivity).
  assert (H' : qcom_scm_call_fill 1 2 (Some [7; 8; 9; 10]) 4
                 (snd (alloc_qcom_scm_command 4 4 (toy_world 0 0 0 []))) =
               (Done tt,
                snd (qcom_scm_call_fill 1 2 (Some [7; 8; 9; 10]) 4
                       (snd (alloc_qcom_scm_command 4 4
                               (toy_world 0 0 0 []))))))
    by (vm_compute; reflexivity).
  exact (proj1 (qcom_scm_call_fill_payload _ _ _ _ _ _ _ _ _ H H')).
Defined.

Lemma qcom_scm_call_response_witness :
  fst (qcom_scm_call 10 1 2 (Some [7; 8; 9; 10]) 4 (Some [0; 0; 0; 0; 5; 6]) 4
         (toy_world 2 0 1 [1; 2; 3; 4])) =
  Done (0, Some [1; 2; 3; 4; 5; 6]).
Proof.
  pose (w0 := snd (alloc_qcom_scm_command 4 4 (toy_world 2 0 1 [1; 2; 3; 4]))).
  pose (w1 := snd (qcom_scm_call_fill 1 2 (Some [7; 8; 9; 10]) 4 w0)).
  pose (w2 := snd (__qcom_scm_call 10 32768 (logged w1 [ScMutexLock]))).
  pose (w3 := after_inv (logged w2 [ScMutexUnlock]) 32788 32800).
  assert (H0 : alloc_qcom_scm_command 4 4 (toy_world 2 0 1 [1; 2; 3; 4]) =
               (Done (Some 32768), w0)) by (vm_compute; reflexivity).
  assert (H1 : qcom_scm_call_fill 1 2 (Some [7; 8; 9; 10]) 4 w0 =
               (Done tt, w1)) by (vm_compute; reflexivity).
  assert (H2 : __qcom_scm_call 10 32768 (logged w1 [ScMutexLock]) =
               (Done 0, w2)) by (vm_compute; reflexivity).
  assert (H3 : load_le32 (sw_block w2) CMD_RESP_HDR_OFFSET = Some 20)
    by (vm_compute; reflexivity).
  assert (H4 : pending 1 (u32 (32768 + 20)) 20 (logged w2 [ScMutexUnlock]) =
               Some w3) by (vm_compute; reflexivity).
  assert (H5 : load_le32
                 (sw_block (after_inv w3 (u32 (32768 + 20))
                              (u32 (u32 (32768 + 20)
                                    + sizeof_qcom_scm_response))))
                 (20 + RSP_IS_COMPLETE) = Some 1)
    by (vm_compute; reflexivity).
  assert (H6 : load_le32
                 (sw_block (after_inv w3 (u32 (32768 + 20))
                              (u32 (u32 (32768 + 20)
                                    + sizeof_qcom_scm_response))))
                 (20 + RSP_BUF_OFFSET) = Some 12)
    by (vm_compute; reflexivity).
  assert (H7 : load_le32
                 (sw_block
                    (after_inv
                       (after_inv w3 (u32 (32768 + 20))
                          (u32 (u32 (32768 + 20) + sizeof_qcom_scm_response)))
                       (u32 (32768 + 20))
                       (u32 (u32 (u32 (32768 + 20) + 12) + 4))))
                 (20 + RSP_BUF_OFFSET) = Some 12)
    by (vm_compute; reflexivity).
  assert (H8 : load_bytes
                 (sw_block
                    (after_inv
                       (after_inv w3 (u32 (32768 + 20))
                          (u32 (u32 (32768 + 20) + sizeof_qcom_scm_response)))
                       (u32 (32768 + 20))
                       (u32 (u32 (u32 (32768 + 20) + 12) + 4))))
                 (20 + 12) 4 = Some [1; 2; 3; 4])
    by (vm_compute; reflexivity).
  rewrite (qcom_scm_call_response 10 1 2 (Some [7; 8; 9; 10]) 4
             [0; 0; 0; 0; 5; 6] 4 _ _ _ _ _ _ _ 1%nat 1 12 12 [1; 2; 3; 4]
             [1; 2; 3; 4; 5; 6] H0 H1 H2 H3 H4 H5 ltac:(discriminate) H6 H7 H8
             eq_refl ltac:(lia)).
  reflexivity.
Defined.

Lemma smc_result_witness :
  exists n,
    sw_log (snd (smc_loop 5 1 16384 (toy_world 2 0 0 []))) =
    ScSmc 1 16384 :: repeat (ScSmc QCOM_SCM_INTERRUPTED 16384) n.
Proof.
  assert (H : smc_loop 5 1 16384 (toy_world 2 0 0 []) =
              (Done 0, snd (smc_loop 5 1 16384 (toy_world 2 0 0 []))))
    by (vm_compute; reflexivity).
  exact (proj2 (proj2 (smc_result 5 1 16384 _ _ _ H))).
Defined.

Lemma smc_never_gives_up_witness :
  fst (smc (E := stuck_env) 1000 16384 (stuck_world [])) = Spin.
Proof.
  apply (smc_never_gives_up (E := stuck_env) 16384 1000 (stuck_world [])).
  intros k. apply stuck_interrupted.
Defined.

Lemma wait_complete_never_gives_up_witness :
  fst (wait_complete (E := stuck_env) 1000 32788 20
         (stuck_world (repeat 0 40))) = Spin.
Proof.
  apply (wait_complete_never_gives_up (E := stuck_env) 32788 20 1000
           (stuck_world (repeat 0 40))).
  intros j. apply stuck_pending. vm_compute. reflexivity.
Defined.

Lemma qcom_scm_get_version_cached_witness :
  fst (qcom_scm_get_version 5 (u32 (-1)) 7 (toy_world 2 0 0 [])) =
  Done (65540, 65540).
Proof.
  pose (w0 := logged (toy_world 2 0 0 []) [ScMutexLock]).
  pose (w1 := snd (after_trap_version
                     (snd (after_trap_version w0 256 7)) 1 7)).
  assert (Hk : version_interrupted 2 (u32 (Z.shiftl 1 8)) (u32 7) w0 =
               Some (1, 7, w1)) by (vm_compute; reflexivity).
  assert (Ha : after_trap_version w1 1 7 =
               (0, 65540, snd (after_trap_version w1 1 7)))
    by (vm_compute; reflexivity).
  rewrite (proj1 (proj2 (qcom_scm_get_version_cached 5 (u32 (-1)) 7
                           (toy_world 2 0 0 [])) eq_refl
                    2%nat 1 7 w1 0 65540 _ Hk Ha ltac:(discriminate)
                    ltac:(lia))).
  reflexivity.
Defined.

Lemma warm_boot_addr_recorded_witness :
  exists x,
    nth_error [{| wb_flag := 4; wb_entry := 0 |};
               {| wb_flag := 2; wb_entry := 4096 |};
               {| wb_flag := 16; wb_entry := 0 |};
               {| wb_flag := 64; wb_entry := 4096 |}] 3 = Some x /\
    wb_entry x = 4096.
Proof.
  assert (H : __qcom_scm_set_warm_boot_addr 5 qcom_scm_wb_init 4096
                [1; 3]%nat (toy_world 0 0 0 []) =
              (Done (0, [{| wb_flag := 4; wb_entry := 0 |};
                         {| wb_flag := 2; wb_entry := 4096 |};
                         {| wb_flag := 16; wb_entry := 0 |};
                         {| wb_flag := 64; wb_entry := 4096 |}]),
               snd (__qcom_scm_set_warm_boot_addr 5 qcom_scm_wb_init 4096
                      [1; 3]%nat (toy_world 0 0 0 []))))
    by (vm_compute; reflexivity).
  apply (proj1 (proj2 (proj2
           (warm_boot_addr_recorded _ _ _ _ _ _ _ _ eq_refl H)) eq_refl)).
  right. left. reflexivity.
Defined.

Lemma warm_boot_addr_again_witness :
  __qcom_scm_set_warm_boot_addr 7
    [{| wb_flag := 4; wb_entry := 0 |}; {| wb_flag := 2; wb_entry := 4096 |};
     {| wb_flag := 16; wb_entry := 0 |}; {| wb_flag := 64; wb_entry := 4096 |}]
    4096 [1; 3]%nat (toy_world 1 5 0 []) =
  (Done (0, [{| wb_flag := 4; wb_entry := 0 |};
             {| wb_flag := 2; wb_entry := 4096 |};
             {| wb_flag := 16; wb_entry := 0 |};
             {| wb_flag := 64; wb_entry := 4096 |}]), toy_world 1 5 0 []).
Proof.
  assert (H : __qcom_scm_set_warm_boot_addr 5 qcom_scm_wb_init 4096
                [1; 3]%nat (toy_world 0 0 0 []) =
              (Done (0, [{| wb_flag := 4; wb_entry := 0 |};
                         {| wb_flag := 2; wb_entry := 4096 |};
                         {| wb_flag := 16; wb_entry := 0 |};
                         {| wb_flag := 64; wb_entry := 4096 |}]),
               snd (__qcom_scm_set_warm_boot_addr 5 qcom_scm_wb_init 4096
                      [1; 3]%nat (toy_world 0 0 0 []))))
    by (vm_compute; reflexivity).
  exact (warm_boot_addr_again _ _ _ _ _ _ _ eq_refl H 7 (toy_world 1 5 0 [])).
Defined.

Lemma cold_boot_addr_mask_witness :
  fst (__qcom_scm_set_cold_boot_addr (K := arm32) 5 4096
         (Some [0; 2; 5]%nat) (toy_world 0 0 0 [])) =
  Done (0, [5]%nat).
Proof.
  assert (H : qcom_scm_set_boot_addr 5 (u32 (virt_to_phys 4096))
                (known_cold_flags [0; 2; 5]%nat) (toy_world 0 0 0 []) =
              (Done 0,
               snd (qcom_scm_set_boot_addr 5 (u32 (virt_to_phys 4096))
                      (known_cold_flags [0; 2; 5]%nat)
                      (toy_world 0 0 0 []))))
    by (vm_compute; reflexivity).
  rewrite (proj2 (proj2 (cold_boot_addr_mask (K := arm32) 5 4096
                           (toy_world 0 0 0 [])))
             [0; 2; 5]%nat 0 _ ltac:(discriminate) H).
  reflexivity.
Defined.

(** * Properties of the cache line loop *)

Section CacheLinesProperties.

Context {K : Kernel} {R : Rounding}.

(** A cache line is a power of two from 4 to 131072 bytes, whatever the
    cache type register reads. *)
Lemma cacheline_size_pow2 ctr :
  exists n, 0 <= n <= 15 /\ cacheline_size ctr = 2 ^ (n + 2).
Proof.
  exists (Z.land (Z.shiftr ctr 16) 15).
  assert (Hn : 0 <= Z.land (Z.shiftr ctr 16) 15 <= 15).
  { assert (Hm : Z.land (Z.shiftr ctr 16) 15 = Z.shiftr ctr 16 mod 16)
      by (apply (Z.land_ones _ 4); lia).
    rewrite Hm. pose proof (Z.mod_pos_bound (Z.shiftr ctr 16) 16). lia. }
  split; [exact Hn|].
  unfold cacheline_size. rewrite Z.shiftl_mul_pow2 by lia.
  rewrite Z.pow_add_r by lia. change (2 ^ 2) with 4.
  rewrite (Z.mul_comm 4). apply u32_small.
  assert (0 < 2 ^ Z.land (Z.shiftr ctr 16) 15)
    by (apply Z.pow_pos_nonneg; lia).
  assert (2 ^ Z.land (Z.shiftr ctr 16) 15 <= 2 ^ 15)
    by (apply Z.pow_le_mono_r; lia).
  change (2 ^ 15) with 32768 in *. lia.
Qed.

Lemma lines_from_S start line n :
  lines_from start line (S n) = start :: lines_from (start + line) line n.
Proof.
  unfold lines_from. cbn [seq map]. f_equal; [lia|].
  rewrite <- seq_shift, map_map. apply map_ext. intros i. lia.
Qed.

Lemma inv_lines_spec line stop : forall n fuel start,
  0 < line -> 0 <= start -> stop = start + Z.of_nat n * line ->
  stop < 2 ^ BITS_PER_LONG -> (n < fuel)%nat ->
  inv_lines fuel start stop line =
    Some (map CeInvLine (lines_from start line n)).
Proof.
  induction n as [|n IH]; intros fuel start Hl Hs He Hb Hf.
  - destruct fuel as [|fuel]; [lia|]. cbn [inv_lines].
    destruct (Z.ltb_spec start stop); [lia|]. reflexivity.
  - destruct fuel as [|fuel]; [lia|]. cbn [inv_lines].
    rewrite Nat2Z.inj_succ in He.
    assert (Hn : 0 <= Z.of_nat n * line) by (apply Z.mul_nonneg_nonneg; lia).
    destruct (Z.ltb_spec start stop); [|lia].
    assert (Hw : ulong (start + line) = start + line)
      by (apply wrap_small; lia).
    rewrite Hw, (IH fuel (start + line)) by lia.
    rewrite lines_from_S. reflexivity.
Qed.

Lemma lines_from_cover start line n a :
  0 < line -> start <= a < start + Z.of_nat n * line ->
  exists l, In l (lines_from start line n) /\ l <= a < l + line.
Proof.
  intros Hl Ha. exists (start + Z.of_nat (Z.to_nat ((a - start) / line)) * line).
  assert (Hq : 0 <= (a - start) / line) by (apply Z.div_pos; lia).
  assert (Hlt : (a - start) / line < Z.of_nat n).
  { apply Z.div_lt_upper_bound; [lia|]. nia. }
  pose proof (Z.div_mod (a - start) line ltac:(lia)) as Hdm.
  pose proof (Z.mod_pos_bound (a - start) line Hl) as Hm.
  split.
  - unfold lines_from.
    apply (in_map (fun i => start + Z.of_nat i * line)).
    apply in_seq. lia.
  - rewrite Z2Nat.id by lia. nia.
Qed.

(** When rounding gives multiples of the line size around the
    range and the rounded end fits an [unsigned long],
    [qcom_scm_inv_range] ends and executes [outer_inv_range], then one
    [mcr] for each line from the rounded start to the rounded end, in
    rising order and once each, then [dsb] and [isb]; every address of the
    range lies in one of these lines. *)
Theorem inv_range_lines_cover fuel ctr start stop n :
  let line := cacheline_size ctr in
  0 <= round_down start line <= start ->
  stop <= round_up stop line < 2 ^ BITS_PER_LONG ->
  round_up stop line = round_down start line + Z.of_nat n * line ->
  (n < fuel)%nat ->
  qcom_scm_inv_range_lines fuel ctr start stop =
    Some (CeOuterInvRange (round_down start line) (round_up stop line)
          :: map CeInvLine (lines_from (round_down start line) line n)
          ++ [CeDsb; CeIsb]) /\
  forall a, start <= a < stop ->
    exists l, In l (lines_from (round_down start line) line n) /\
              l <= a < l + line.
Proof.
  intros line Hs He Hn Hf.
  assert (Hl : 0 < line).
  { destruct (cacheline_size_pow2 ctr) as (k & Hk & Hk'). unfold line.
    rewrite Hk'. apply Z.pow_pos_nonneg; lia. }
  split.
  - unfold qcom_scm_inv_range_lines. fold line.
    rewrite (inv_lines_spec line _ n) by lia. reflexivity.
  - intros a Ha. apply lines_from_cover; lia.
Qed.

End CacheLinesProperties.

Lemma inv_range_lines_cover_witness :
  qcom_scm_inv_range_lines (K := arm32) (R := exact_rounding) 5 65536
    32788 32800 =
  Some [CeOuterInvRange 32784 32800; CeInvLine 32784; CeInvLine 32792;
        CeDsb; CeIsb].
Proof.
  apply (proj1 (inv_range_lines_cover (K := arm32) (R := exact_rounding)
                  5 65536 32788 32800 2
                  ltac:(vm_compute; split; discriminate)
                  ltac:(vm_compute; split; [discriminate|reflexivity])
                  ltac:(vm_compute; reflexivity) ltac:(lia))).
Defined.

(** * Properties of the call that folds the answers *)

Section ScmWrappersProperties.

Context {K : Kernel} {FW : Type} {E : ScmEnv FW}.

(** [__qcom_scm_iommu_secure_map] folds what [qcom_scm_call] returns
    into 0 or [-EINVAL]: when the call returns a code other than 0 the
    result is [-EINVAL], whatever the code, so that a [kzalloc] that fails
    gives [-EINVAL] after the one event of the allocation, where
    [qcom_scm_call] gave [-ENOMEM]; when the call returns 0 a response of
    four bytes was copied out, and the result is 0 when these read 0 and
    [-EINVAL] otherwise.  The command is the eight arguments, each cut to
    32 bits, in the order of the fields of the request. *)
Theorem iommu_secure_map_result fuel list_ list_size size id ctx_id va
        info_size flags resp (w : @world FW) :
  let req := le32_bytes (u32 list_) ++ le32_bytes (u32 list_size)
             ++ le32_bytes (u32 size) ++ le32_bytes (u32 id)
             ++ le32_bytes (u32 ctx_id) ++ le32_bytes (u32 va)
             ++ le32_bytes (u32 info_size) ++ le32_bytes (u32 flags) in
  let len := PAGE_ALIGN (u32 (u32 (u32 (sizeof_qcom_scm_command
                                        + sizeof_qcom_scm_response) + 32)
                              + 4)) in
  ENOMEM <> 0 ->
  (kzalloc len = None ->
   __qcom_scm_iommu_secure_map fuel list_ list_size size id ctx_id va
     info_size flags resp w = (Done (- EINVAL), logged w [ScKzalloc len])) /\
  (forall r0 out w1,
     qcom_scm_call fuel SCM_SVC_MP IOMMU_SECURE_MAP2 (Some req) 32
       (Some resp) 4 w = (Done (r0, out), w1) ->
     (r0 <> 0 ->
      __qcom_scm_iommu_secure_map fuel list_ list_size size id ctx_id va
        info_size flags resp w = (Done (- EINVAL), w1)) /\
     (r0 = 0 ->
      exists bs,
        zlength bs = 4 /\ In (ScCopyOut bs) (sw_log w1) /\
        __qcom_scm_iommu_secure_map fuel list_ list_size size id ctx_id va
          info_size flags resp w =
          (Done (if le32_value bs =? 0 then 0 else - EINVAL), w1))).
Proof.
  intros req len HM.
  assert (Hcall : forall r0 out w1,
    qcom_scm_call fuel SCM_SVC_MP IOMMU_SECURE_MAP2 (Some req) 32
      (Some resp) 4 w = (Done (r0, out), w1) ->
    r0 <> 0 ->
    __qcom_scm_iommu_secure_map fuel list_ list_size size id ctx_id va
      info_size flags resp w = (Done (- EINVAL), w1)).
  { intros r0 out w1 Hc Hr0. unfold __qcom_scm_iommu_secure_map.
    fold req. unfold bind. rewrite Hc. cbn [fst snd].
    apply Z.eqb_neq in Hr0. rewrite Hr0. reflexivity. }
  split.
  - intros Hk. apply (Hcall (- ENOMEM) (Some resp)); [|lia].
    unfold qcom_scm_call, alloc_qcom_scm_command. fold len.
    unfold bind, do_kzalloc. rewrite Hk. reflexivity.
  - intros r0 out w1 Hc. split; [apply (Hcall r0 out w1 Hc)|].
    intros Hr0. subst r0.
    pose proof (qcom_scm_call_done _ _ _ _ _ _ _ _ _ _ _ Hc) as Hd.
    cbv zeta in Hd.
    destruct Hd as [(_ & Hr & _)|(a & E1 & E2 & _ & Hl & _ & _ & Hcase)];
      [lia|].
    destruct Hcase as [(Hn & _)|(_ & bs & Hbs & _ & Hout & Hin)];
      [contradiction|].
    exists bs. split; [exact Hbs|]. split.
    + rewrite Hl. apply in_or_app. right. right. right.
      apply in_or_app. right. right. apply in_or_app. left. exact Hin.
    + assert (Hf : forall t, firstn 4 (bs ++ t) = bs).
      { intros t. unfold zlength in Hbs. rewrite firstn_app.
        replace (4 - length bs)%nat with 0%nat by lia.
        rewrite firstn_all2 by lia. cbn [firstn]. apply app_nil_r. }
      unfold __qcom_scm_iommu_secure_map. fold req. unfold bind.
      rewrite Hc. cbn [fst snd Z.eqb negb]. rewrite Hout, Hf.
      destruct (le32_value bs =? 0); reflexivity.
Qed.

End ScmWrappersProperties.

Lemma iommu_secure_map_result_witness :
  __qcom_scm_iommu_secure_map (K := arm32) (E := stuck_env) 5
    4096 1 4096 2 0 8192 4096 0 [9; 9; 9; 9] (stuck_world []) =
  (Done (- 22), logged (stuck_world []) [ScKzalloc 4096]).
Proof.
  exact (proj1 (iommu_secure_map_result (K := arm32) (E := stuck_env) 5
                  4096 1 4096 2 0 8192 4096 0 [9; 9; 9; 9] (stuck_world [])
                  ltac:(discriminate)) eq_refl).
Defined.
